(** * SlimeSimulation: a shallow embedding of [slime.py] and its properties

    The simulation core of [SlimeSimulation.construct] is embedded here:
    [update_agent], [evaporate_map], [diffuse], [sense], [steer], the
    creation of the agents and the main loop.

    Numbers.  The program computes on Python ints and on numpy [float64]
    values.  Ints are [Z].  The float operations the program uses are
    collected in the class [Arith]; the code is written once over that
    class, in the evaluation order of the source, and is read at two
    instances: exact rationals ([Q_arith]) and binary64 ([float_arith],
    the kernel's primitive floats).  What depends only on the shape of
    the code is proved for every instance.  What depends on the order
    of numbers is proved over the rationals and, where the comparisons
    suffice, over binary64 from the specification of its comparisons.
    That the calls return is proved over the rationals, where [int()]
    is total.

    Library calls.  [np.cos], [np.sin], manim's [PI] and scipy's
    [gaussian_filter] are not part of the program; they are the fields
    of the class [Externals].  [np.random.random] reads and advances
    numpy's global generator, which the program never seeds: the
    generator is the record [Rng], the sequence of values its state
    stands for together with a cursor.

    Effects.  The closures of [construct] share the array [DrawMap] and
    the generator; [World] holds both, and the code that touches them
    lives in the monad [M], where [None] is a raised exception. *)

From Stdlib Require Import ZArith QArith Qround Qminmax List Bool Lia Lqa Floats.
Import ListNotations.

Set Implicit Arguments.

(** ** Numbers *)

Class Arith (F : Type) : Type := {
  of_int : Z -> F;            (* conversion of a Python int *)
  add : F -> F -> F;
  sub : F -> F -> F;
  mul : F -> F -> F;
  div : F -> F -> F;
  opp : F -> F;
  ltb : F -> F -> bool;       (* x < y *)
  leb : F -> F -> bool;       (* x <= y *)
  trunc : F -> option Z       (* int(x): toward zero; None where Python raises *)
}.

Declare Scope num_scope.
Delimit Scope num_scope with num.
Infix "+" := add : num_scope.
Infix "-" := sub : num_scope.
Infix "*" := mul : num_scope.
Infix "/" := div : num_scope.
Notation "- x" := (opp x) : num_scope.
Infix "<?" := ltb : num_scope.
Infix "<=?" := leb : num_scope.

(** Exact rationals. *)

Definition Qltb (x y : Q) : bool := negb (Qle_bool y x).

Definition Qtrunc (x : Q) : Z := Z.quot (Qnum x) (Zpos (Qden x)).

#[export] Instance Q_arith : Arith Q := {
  of_int := inject_Z;
  add := Qplus;
  sub := Qminus;
  mul := Qmult;
  div := Qdiv;
  opp := Qopp;
  ltb := Qltb;
  leb := Qle_bool;
  trunc := fun x => Some (Qtrunc x)
}.

(** Binary64.  [int(x)] of a finite float [(-1)^s * m * 2^e] drops the
    fraction bits; on an infinity or a nan Python raises. *)

Definition float_trunc (x : float) : option Z :=
  match Prim2SF x with
  | S754_zero _ => Some 0%Z
  | S754_finite s m e =>
      let a := if (0 <=? e)%Z then Z.shiftl (Zpos m) e
               else Z.shiftr (Zpos m) (- e) in
      Some (if s then (- a)%Z else a)
  | S754_infinity _ | S754_nan => None
  end.

(** A Python [int] as a float, for the integers below [2^63] in
    magnitude, the only ones an array size or a loop bound can be;
    beyond that the conversion of the model wraps, where Python's is
    exact. *)
Definition float_of_int (z : Z) : float :=
  let a := PrimFloat.of_uint63 (Uint63.of_Z (Z.abs z)) in
  if (z <? 0)%Z then PrimFloat.opp a else a.

#[export] Instance float_arith : Arith float := {
  of_int := float_of_int;
  add := PrimFloat.add;
  sub := PrimFloat.sub;
  mul := PrimFloat.mul;
  div := PrimFloat.div;
  opp := PrimFloat.opp;
  ltb := PrimFloat.ltb;
  leb := PrimFloat.leb;
  trunc := float_trunc
}.

(** The exact value of a finite float, to read binary64 results as
    rationals. *)

Definition float_to_Q (x : float) : option Q :=
  match Prim2SF x with
  | S754_zero _ => Some 0%Q
  | S754_finite s m e =>
      let a := if (0 <=? e)%Z then inject_Z (Z.shiftl (Zpos m) e)
               else Qmake (Zpos m) (Z.to_pos (2 ^ (- e))) in
      Some (if s then Qopp a else a)
  | S754_infinity _ | S754_nan => None
  end.

(** ** Library calls *)

Class Externals (F : Type) : Type := {
  cos : F -> F;                                   (* np.cos *)
  sin : F -> F;                                   (* np.sin *)
  PI : F;                                         (* manim's PI *)
  gaussian_filter : list (list F) -> F -> list (list F)
                                                  (* scipy.ndimage *)
}.

(** ** State and exceptions *)

Definition SE (S A : Type) : Type := S -> option (A * S).

Definition ret {S A : Type} (a : A) : SE S A := fun s => Some (a, s).

Definition bind {S A B : Type} (c : SE S A) (k : A -> SE S B) : SE S B :=
  fun s => match c s with
           | None => None
           | Some (a, s') => k a s'
           end.

Definition lift {S A : Type} (o : option A) : SE S A :=
  fun s => match o with
           | None => None
           | Some a => Some (a, s)
           end.

Notation "x <- c ;; k" := (bind c (fun x => k))
  (at level 61, c at next level, right associativity).

(** [for x in l: f(x)], the results collected in order. *)
Fixpoint for_each {S A B : Type} (f : A -> SE S B) (l : list A) : SE S (list B) :=
  match l with
  | [] => ret []
  | x :: t => y <- f x ;; ys <- for_each f t ;; ret (y :: ys)
  end.

(** A loop that threads one value and stops at the first exception. *)
Fixpoint fold_opt {A B : Type} (f : B -> A -> option B) (l : list A) (b : B)
  : option B :=
  match l with
  | [] => Some b
  | x :: t => match f b x with
              | None => None
              | Some b' => fold_opt f t b'
              end
  end.

(** A comprehension whose elements may raise. *)
Fixpoint map_opt {A B : Type} (f : A -> option B) (l : list A)
  : option (list B) :=
  match l with
  | [] => Some []
  | x :: t => match f x, map_opt f t with
              | Some y, Some ys => Some (y :: ys)
              | _, _ => None
              end
  end.

Section Core.

Context {F : Type} {AF : Arith F} {EF : Externals F}.
Local Open Scope num_scope.

(** A decimal literal [n/d] of the source. *)
Definition dec (n : Z) (d : positive) : F := of_int n / of_int (Zpos d).

(** Python's builtins on two arguments: the first one is kept unless the
    second is strictly larger (smaller). *)
Definition py_max (a b : F) : F := if a <? b then b else a.
Definition py_min (a b : F) : F := if b <? a then b else a.

(** [np.clip x lo hi] is [np.minimum (np.maximum x lo) hi], for bounds
    that are numbers. *)
Definition np_clip (x lo hi : F) : F :=
  let y := if x <? lo then lo else x in
  if hi <? y then hi else y.

(** [range(lo, hi)] *)
Definition range (lo hi : Z) : list Z :=
  map (fun k => (lo + Z.of_nat k)%Z) (seq 0 (Z.to_nat (hi - lo))).

(** ** The array [DrawMap] *)

Definition Grid : Type := list (list F).

(** [np.zeros((w, h))] raises on a negative dimension. *)
Definition np_zeros (w h : Z) : option Grid :=
  if ((w <? 0) || (h <? 0))%Z then None
  else Some (repeat (repeat (of_int 0) (Z.to_nat h)) (Z.to_nat w)).

(** numpy indexing along an axis of length [n]: [-n <= i < n], a
    negative index counting from the end; IndexError otherwise. *)
Definition axis_index (n : nat) (i : Z) : option nat :=
  if ((0 <=? i) && (i <? Z.of_nat n))%Z then Some (Z.to_nat i)
  else if ((i <? 0) && (- Z.of_nat n <=? i))%Z then Some (Z.to_nat (i + Z.of_nat n))
  else None.

Fixpoint list_set {A : Type} (l : list A) (k : nat) (v : A) : list A :=
  match l, k with
  | [], _ => []
  | _ :: t, O => v :: t
  | x :: t, S k' => x :: list_set t k' v
  end.

(** [m[i, j]] *)
Definition grid_get (m : Grid) (i j : Z) : option F :=
  match axis_index (length m) i with
  | None => None
  | Some r =>
      match nth_error m r with
      | None => None
      | Some row =>
          match axis_index (length row) j with
          | None => None
          | Some c => nth_error row c
          end
      end
  end.

(** [m[i, j] = v] *)
Definition grid_set (m : Grid) (i j : Z) (v : F) : option Grid :=
  match axis_index (length m) i with
  | None => None
  | Some r =>
      match nth_error m r with
      | None => None
      | Some row =>
          match axis_index (length row) j with
          | None => None
          | Some c => Some (list_set m r (list_set row c v))
          end
      end
  end.

(** ** Parameters, agents, generator *)

(** The constants of [construct] (lines 12-24). *)
Record Config : Type := {
  moveSpeed : F;
  deltaTime : F;
  N : Z;
  width : Z;
  height : Z;
  nrAgents : Z;
  evaporateSpeed : F;
  sensorOffsetDst : F;
  sensorSize : Z;
  sensorAngleSpacing : F;
  turnSpeed : F;
  diffuseFaktor : F
}.

(** The values the source gives them; [height] is [int(width * 16 / 9)]. *)
Definition default_config : Config := {|
  moveSpeed := of_int 10;
  deltaTime := dec 1 10;
  N := 1000;
  width := 200;
  height := Z.quot (200 * 16) 9;
  nrAgents := 700;
  evaporateSpeed := dec 1 10;
  sensorOffsetDst := of_int 5;
  sensorSize := 4;
  sensorAngleSpacing := dec 78 100;
  turnSpeed := dec 25 10;
  diffuseFaktor := dec 4 10
|}.

Record Agent : Type := { pos : F * F; angle : F }.

(** numpy's global generator: the values it yields, and how many of
    them were consumed. *)
Record Rng : Type := { draws : nat -> F; cursor : nat }.

Record World : Type := { DrawMap : Grid; generator : Rng }.

Definition M (A : Type) : Type := SE World A.

(** [np.random.random()] *)
Definition random : M F :=
  fun w =>
    let g := generator w in
    Some (draws g (cursor g),
          {| DrawMap := DrawMap w;
             generator := {| draws := draws g; cursor := S (cursor g) |} |}).

Definition get_map : M Grid := fun w => Some (DrawMap w, w).

Definition put_map (m : Grid) : M unit :=
  fun w => Some (tt, {| DrawMap := m; generator := generator w |}).

Variable cfg : Config.

(** ** [sense] (lines 81-107) *)

Definition in_grid (px py : Z) : bool :=
  ((0 <=? px) && (px <? width cfg) && (0 <=? py) && (py <? height cfg))%Z.

Definition sensor_center (a : Agent) (sensorAngleOffset : F) : F * F :=
  let sensorAngle := angle a + sensorAngleOffset in
  (fst (pos a) + cos sensorAngle * sensorOffsetDst cfg,
   snd (pos a) + sin sensorAngle * sensorOffsetDst cfg).

(** Line 96.  [astype(int)] truncates like [int()]; where [int()] would
    raise, on a nan or an infinity, numpy yields an unspecified integer,
    and the model stops there. *)
Definition sensor_cell (a : Agent) (sensorAngleOffset : F) : option (Z * Z) :=
  let c := sensor_center a sensorAngleOffset in
  match trunc (np_clip (fst c) (of_int 0) (of_int (width cfg - 1))),
        trunc (np_clip (snd c) (of_int 0) (of_int (height cfg - 1))) with
  | Some cx, Some cy => Some (cx, cy)
  | _, _ => None
  end.

Definition sense (m : Grid) (a : Agent) (sensorAngleOffset : F) : option F :=
  match sensor_cell a sensorAngleOffset with
  | None => None
  | Some (cx, cy) =>
      fold_opt (fun total offsetX =>
        fold_opt (fun total offsetY =>
          let px := (cx + offsetX)%Z in
          let py := (cy + offsetY)%Z in
          if in_grid px py then
            match grid_get m px py with
            | None => None
            | Some v => Some (total + v)
            end
          else Some total)
          (range (- sensorSize cfg) (sensorSize cfg + 1)) total)
        (range (- sensorSize cfg) (sensorSize cfg + 1)) (of_int 0)
  end.

(** ** [steer] (lines 109-129) *)

(** The branches of lines 122-129, on the three weights and the draw. *)
Definition steer_angle (a : Agent)
    (weightForward weightLeft weightRight randomSteerStrength : F) : Agent :=
  if (weightLeft <? weightForward) && (weightRight <? weightForward) then
    {| pos := pos a; angle := angle a + of_int 0 |}
  else if (weightForward <? weightLeft) && (weightForward <? weightRight) then
    {| pos := pos a;
       angle := angle a + (randomSteerStrength - dec 5 10) * of_int 2
                            * turnSpeed cfg * deltaTime cfg |}
  else if weightLeft <? weightRight then
    {| pos := pos a;
       angle := angle a - randomSteerStrength * turnSpeed cfg * deltaTime cfg |}
  else if weightRight <? weightLeft then
    {| pos := pos a;
       angle := angle a + randomSteerStrength * turnSpeed cfg * deltaTime cfg |}
  else a.

Definition steer (a : Agent) : M Agent :=
  m <- get_map ;;
  weightForward <- lift (sense m a (of_int 0)) ;;
  weightLeft <- lift (sense m a (sensorAngleSpacing cfg)) ;;
  weightRight <- lift (sense m a (- sensorAngleSpacing cfg)) ;;
  randomSteerStrength <- random ;;
  ret (steer_angle a weightForward weightLeft weightRight randomSteerStrength).

(** ** [update_agent] (lines 40-57) *)

Definition tentative (a : Agent) : F * F :=
  (fst (pos a) + cos (angle a) * moveSpeed cfg * deltaTime cfg,
   snd (pos a) + sin (angle a) * moveSpeed cfg * deltaTime cfg).

Definition out_of_bounds (p : F * F) : bool :=
  (fst p <? of_int 0) || (of_int (width cfg) <=? fst p)
  || (snd p <? of_int 0) || (of_int (height cfg) <=? snd p).

Definition constrain (p : F * F) : F * F :=
  (py_min (of_int (width cfg) - dec 1 100) (py_max (of_int 0) (fst p)),
   py_min (of_int (height cfg) - dec 1 100) (py_max (of_int 0) (snd p))).

Definition update_agent (a : Agent) : M Agent :=
  let newPos := tentative a in
  a1 <- (if out_of_bounds newPos then
           r <- random ;;
           ret {| pos := constrain newPos; angle := r * of_int 2 * PI |}
         else ret {| pos := newPos; angle := angle a |}) ;;
  i <- lift (trunc (fst (pos a1))) ;;
  j <- lift (trunc (snd (pos a1))) ;;
  m <- get_map ;;
  m' <- lift (grid_set m i j (of_int 1)) ;;
  _ <- put_map m' ;;
  steer a1.

(** ** [evaporate_map] and [diffuse] (lines 59-79) *)

Definition evaporate_cell (v : F) : F :=
  py_max (of_int 0) (v - evaporateSpeed cfg * deltaTime cfg).

Definition evaporate_map (m : Grid) : option Grid :=
  fold_opt (fun m i =>
    fold_opt (fun m j =>
      match grid_get m i j with
      | None => None
      | Some v => grid_set m i j (evaporate_cell v)
      end)
      (range 0 (height cfg)) m)
    (range 0 (width cfg)) m.

Definition diffuse (m : Grid) : Grid := gaussian_filter m (diffuseFaktor cfg).

(** ** The agents and the main loop (lines 152-167) *)

Definition new_agent (_ : Z) : M Agent :=
  x <- random ;;
  y <- random ;;
  t <- random ;;
  ret {| pos := (x * of_int (width cfg), y * of_int (height cfg));
         angle := t * of_int 2 * PI |}.

Definition make_agents : M (list Agent) :=
  for_each new_agent (range 0 (nrAgents cfg)).

(** One pass of the body of [for _ in range(N)]. *)
Definition run_step (agents : list Agent) : M (list Agent) :=
  agents' <- for_each update_agent agents ;;
  m <- get_map ;;
  _ <- put_map (diffuse m) ;;
  m1 <- get_map ;;
  m2 <- lift (evaporate_map m1) ;;
  _ <- put_map m2 ;;
  ret agents'.

(** What a frame shows: the agents and the array after the step. *)
Definition Frame : Type := (list Agent * Grid)%type.

Fixpoint main_loop (n : nat) (agents : list Agent) : M (list Frame) :=
  match n with
  | O => ret []
  | S k =>
      agents' <- run_step agents ;;
      m <- get_map ;;
      frames <- main_loop k agents' ;;
      ret ((agents', m) :: frames)
  end.

(** Lines 12-24 and 152-154: the array of zeros, then the agents. *)
Definition initialize (g : Rng) : option (list Agent * World) :=
  match np_zeros (width cfg) (height cfg) with
  | None => None
  | Some m0 => make_agents {| DrawMap := m0; generator := g |}
  end.

(** [construct], from the state of the generator when it is called to
    the frames of the run. *)
Definition construct (g : Rng) : option (list Frame * World) :=
  match initialize g with
  | None => None
  | Some (agents, w) => main_loop (Z.to_nat (N cfg)) agents w
  end.

(** [evaporate_map] called [n] times in a row. *)
Fixpoint evaporate_times (n : nat) (m : Grid) : option Grid :=
  match n with
  | O => Some m
  | S k => match evaporate_map m with
           | None => None
           | Some m' => evaporate_times k m'
           end
  end.

(** ** [draw_draw_map] (lines 131-150) *)

(** [a.astype(np.uint8)] on an array of floats.  Each value is
    truncated; the values this program converts come out of
    [np.clip(DrawMap, 0, 1) * 255] and lie between 0 and 255, where the
    conversion is defined.  On a nan or an infinity numpy yields an
    unspecified byte, and the model stops there. *)
Definition astype_uint8 (a : Grid) : option (list (list Z)) :=
  map_opt (map_opt trunc) a.

(** The image array: [rgb_image[..., 0]], [[..., 1]] and [[..., 2]] side
    by side, one triple for each pixel. *)
Definition stack_channels (r g b : list (list Z)) : list (list (Z * Z * Z)) :=
  map (fun rows =>
         map (fun px => (fst px, fst (snd px), snd (snd px)))
             (combine (fst rows)
                      (combine (fst (snd rows)) (snd (snd rows)))))
      (combine r (combine g b)).

Definition draw_draw_map (DrawMap : Grid) : option (list (list (Z * Z * Z))) :=
  let DrawMap := map (map (fun v => np_clip v (of_int 0) (of_int 1))) DrawMap in
  let scaled := map (map (fun v => v * of_int 255)) DrawMap in
  match astype_uint8 scaled, astype_uint8 scaled, astype_uint8 scaled with
  | Some r, Some g, Some b => Some (stack_channels r g b)
  | _, _, _ => None
  end.

End Core.

(** ** Vocabulary of the statements *)

(** The array has the shape [(w, h)]. *)
Definition grid_shape {F : Type} (m : list (list F)) (w h : Z) : Prop :=
  length m = Z.to_nat w /\ Forall (fun row => length row = Z.to_nat h) m.

Section Vocabulary.

Context {F : Type} {AF : Arith F}.

(** The value of a cell, [0] where the array has none. *)
Definition grid_at (m : Grid (F:=F)) (p : Z * Z) : F :=
  match grid_get m (fst p) (snd p) with
  | Some v => v
  | None => of_int 0
  end.

(** The square window of half-size [s] centred on the cell [(cx, cy)],
    in the order the loops of [sense] visit it. *)
Definition window (s cx cy : Z) : list (Z * Z) :=
  flat_map (fun ox => map (fun oy => ((cx + ox)%Z, (cy + oy)%Z))
                          (range (- s) (s + 1)))
           (range (- s) (s + 1)).

(** The sum the spec describes: the window cells that lie in the grid,
    added up from [0], nothing divided out. *)
Definition window_sum (cfg : Config (F:=F)) (m : Grid (F:=F)) (cx cy : Z) : F :=
  fold_left add
    (map (grid_at m)
         (filter (fun p => in_grid cfg (fst p) (snd p))
                 (window (sensorSize cfg) cx cy)))
    (of_int 0).

(** The agent after the move of lines 46-55, before the deposit; [r] is
    the draw line 53 takes when the tentative position is off the grid. *)
Definition moved {EF : Externals F} (cfg : Config (F:=F)) (a : Agent (F:=F))
    (r : F) : Agent (F:=F) :=
  if out_of_bounds cfg (tentative cfg a)
  then {| pos := constrain cfg (tentative cfg a);
          angle := mul (mul r (of_int 2)) PI |}
  else {| pos := tentative cfg a; angle := angle a |}.

(** The world once [k] more draws are consumed and the array is [m]. *)
Definition world_after (w : World (F:=F)) (m : Grid (F:=F)) (k : nat)
  : World (F:=F) :=
  {| DrawMap := m;
     generator := {| draws := draws (generator w);
                     cursor := k + cursor (generator w) |} |}.

(** The program's constants on a grid of another size, with another
    number of agents and of steps. *)
Definition sized_config (w h agents steps : Z) : Config (F:=F) :=
  {| moveSpeed := moveSpeed default_config;
     deltaTime := deltaTime default_config;
     N := steps;
     width := w;
     height := h;
     nrAgents := agents;
     evaporateSpeed := evaporateSpeed default_config;
     sensorOffsetDst := sensorOffsetDst default_config;
     sensorSize := sensorSize default_config;
     sensorAngleSpacing := sensorAngleSpacing default_config;
     turnSpeed := turnSpeed default_config;
     diffuseFaktor := diffuseFaktor default_config |}.

(** The same without agents, with another evaporation rate and tick
    duration. *)
Definition decay_config (w h steps : Z) (rate dt : F) : Config (F:=F) :=
  {| moveSpeed := moveSpeed default_config;
     deltaTime := dt;
     N := steps;
     width := w;
     height := h;
     nrAgents := 0;
     evaporateSpeed := rate;
     sensorOffsetDst := sensorOffsetDst default_config;
     sensorSize := sensorSize default_config;
     sensorAngleSpacing := sensorAngleSpacing default_config;
     turnSpeed := turnSpeed default_config;
     diffuseFaktor := diffuseFaktor default_config |}.

(** The array of shape [(w, h)] whose only nonzero cell is [(i, j)],
    with value [1]. *)
Definition single_cell (w h i j : Z) : Grid (F:=F) :=
  map (fun r =>
         map (fun c => if ((r =? i) && (c =? j))%Z then of_int 1 else of_int 0)
             (range 0 h))
      (range 0 w).

(** After [k] calls of [evaporate_map] the cell [(i, j)] still tests
    larger than [0]. *)
Definition cell_positive_after (cfg : Config (F:=F)) (m : Grid (F:=F))
    (i j : Z) (k : nat) : bool :=
  match evaporate_times cfg k m with
  | None => false
  | Some m' =>
      match grid_get m' i j with
      | None => false
      | Some v => ltb (of_int 0) v
      end
  end.

(** The turn of one agent, phase by phase: the move, the deposit into
    the array as it stands, and [steer] sensing the array after that
    deposit. *)
Inductive agent_turn {EF : Externals F} (cfg : Config (F:=F))
  : Agent (F:=F) -> World (F:=F) -> Agent (F:=F) -> World (F:=F) -> Prop :=
| turn_intro (a : Agent) (w : World) (i j : Z) (m' : Grid)
      (wF wL wR : F) :
    let g := generator w in
    let a1 := moved cfg a (draws g (cursor g)) in
    let k := if out_of_bounds cfg (tentative cfg a) then 1%nat else 0%nat in
    trunc (fst (pos a1)) = Some i ->
    trunc (snd (pos a1)) = Some j ->
    grid_set (DrawMap w) i j (of_int 1) = Some m' ->
    sense cfg m' a1 (of_int 0) = Some wF ->
    sense cfg m' a1 (sensorAngleSpacing cfg) = Some wL ->
    sense cfg m' a1 (opp (sensorAngleSpacing cfg)) = Some wR ->
    agent_turn cfg a w
      (steer_angle cfg a1 wF wL wR (draws g (k + cursor g)))
      (world_after w m' (S k)).

(** The agents take their turns one at a time, in the order of the
    list, each on the world the previous one left. *)
Inductive agent_pass {EF : Externals F} (cfg : Config (F:=F))
  : list (Agent (F:=F)) -> World (F:=F) ->
    list (Agent (F:=F)) -> World (F:=F) -> Prop :=
| pass_nil (w : World) : agent_pass cfg [] w [] w
| pass_cons (a a' : Agent) (rest rest' : list Agent) (w w1 w2 : World) :
    agent_turn cfg a w a' w1 ->
    agent_pass cfg rest w1 rest' w2 ->
    agent_pass cfg (a :: rest) w (a' :: rest') w2.

(** What the spec asks of a configuration. *)
Definition invalid_configuration (cfg : Config (F:=F)) : Prop :=
  (nrAgents cfg <= 0)%Z \/ (width cfg <= 0)%Z \/ (height cfg <= 0)%Z \/
  (sensorSize cfg < 0)%Z \/
  ltb (evaporateSpeed cfg) (of_int 0) = true \/
  ltb (turnSpeed cfg) (of_int 0) = true \/
  ltb (diffuseFaktor cfg) (of_int 0) = true.

End Vocabulary.

(** ** Stand-ins to run the code on examples

    Polynomial approximations of the circular functions, a rational
    approximation of pi and the blur of width zero, in either
    arithmetic.  The theorems below hold for every instance of
    [Externals]. *)

Section StandIns.

Context {F : Type} {AF : Arith F}.
Local Open Scope num_scope.

Definition example_cos (x : F) : F :=
  of_int 1 - x * x / of_int 2 + x * x * x * x / of_int 24.

Definition example_sin (x : F) : F :=
  x - x * x * x / of_int 6 + x * x * x * x * x / of_int 120.

Definition example_externals : Externals F := {|
  cos := example_cos;
  sin := example_sin;
  PI := dec 355 113;
  gaussian_filter := fun m _ => m
|}.

End StandIns.

(** A generator whose draws are all [1/2]. *)
Definition example_rng : Rng (F:=Q) := {| draws := fun _ => (1 # 2)%Q; cursor := 0 |}.

(** An 8 x 6 array of zeros and the world around it. *)
Definition example_grid : Grid (F:=Q) := repeat (repeat 0%Q 6) 8.

Definition example_world : World (F:=Q) :=
  {| DrawMap := example_grid; generator := example_rng |}.

(** An agent in the middle heading along x, and one about to leave the
    grid on the high side of x. *)
Definition example_agent : Agent (F:=Q) := {| pos := (3, 3)%Q; angle := 0%Q |}.

Definition example_agent_at_edge : Agent (F:=Q) :=
  {| pos := (795 # 100, 3)%Q; angle := 0%Q |}.

(** A 20 x 20 array of zeros in binary64, with a generator whose draws
    are all [0.5]. *)
Definition example_world_binary64 : World (F:=float) :=
  {| DrawMap := repeat (repeat (of_int 0) 20) 20;
     generator := {| draws := fun _ => dec 1 2; cursor := 0 |} |}.

(** An agent in the middle of that array, heading along x. *)
Definition example_agent_binary64 : Agent (F:=float) :=
  {| pos := (of_int 10, of_int 10); angle := of_int 0 |}.

(** A binary64 value is a number, not a nan, when it equals itself. *)
Definition is_number (x : float) : bool := PrimFloat.eqb x x.

(** The cell [update_agent] writes for an agent at [pos a]. *)
Definition cell_of (a : Agent (F:=Q)) : Z * Z :=
  (Qtrunc (fst (pos a)), Qtrunc (snd (pos a))).

(** The step count [ceil(1 / (rate * dt))] of the decay property, for the
    exact values of two binary64 numbers. *)
Definition exact_steps (rate dt : float) : option Z :=
  match float_to_Q rate, float_to_Q dt with
  | Some e, Some d => Some (Qceiling (1 / (e * d)))
  | _, _ => None
  end.

(** The bounds the spec asks of an agent, and of the array. *)
Definition agent_in_grid (cfg : Config (F:=Q)) (a : Agent (F:=Q)) : Prop :=
  (0 <= fst (pos a) < inject_Z (width cfg))%Q /\
  (0 <= snd (pos a) < inject_Z (height cfg))%Q.

Definition grid_nonneg (m : Grid (F:=Q)) : Prop :=
  Forall (Forall (fun v => (0 <= v)%Q)) m.

(** ** Vocabulary of the further properties *)

(** The entry in row [i], column [j] of an array or of an image. *)
Definition entry {A : Type} (l : list (list A)) (i j : nat) : option A :=
  match nth_error l i with
  | Some row => nth_error row j
  | None => None
  end.

(** All cells lie between 0 and 1. *)
Definition grid_unit (m : Grid (F:=Q)) : Prop :=
  Forall (Forall (fun v => (0 <= v <= 1)%Q)) m.

(** The draws of a generator lie in [[0, 1)], as those of
    [np.random.random] do. *)
Definition unit_draws (g : Rng (F:=Q)) : Prop :=
  forall k, (0 <= draws g k < 1)%Q.

(** The program's constants on the 8 x 6 grid with a sensor of one
    cell, and a world with trail in the cell (6, 5) only. *)
Definition point_sensor_config : Config (F:=Q) :=
  {| moveSpeed := 10; deltaTime := 1 # 10; N := 2; width := 8;
     height := 6; nrAgents := 2; evaporateSpeed := 1 # 10;
     sensorOffsetDst := 5; sensorSize := 0;
     sensorAngleSpacing := 78 # 100; turnSpeed := 5 # 2;
     diffuseFaktor := 4 # 10 |}%Q.

Definition example_world_trail : World (F:=Q) :=
  {| DrawMap := (repeat (repeat 0 6) 6
                 ++ [[0; 0; 0; 0; 0; 1]; [0; 0; 0; 0; 0; 0]])%Q;
     generator := example_rng |}.

(** The agent lines 153-154 build from the three draws at positions [c],
    [c + 1] and [c + 2], and the [k]-th agent of the list. *)
Definition agent_from {F : Type} {AF : Arith F} {EF : Externals F}
    (cfg : Config (F:=F)) (d : nat -> F) (c : nat) : Agent (F:=F) :=
  {| pos := (mul (d c) (of_int (width cfg)),
             mul (d (S c)) (of_int (height cfg)));
     angle := mul (mul (d (S (S c))) (of_int 2)) PI |}.

Definition initial_agent {F : Type} {AF : Arith F} {EF : Externals F}
    (cfg : Config (F:=F)) (g : Rng (F:=F)) (k : nat) : Agent (F:=F) :=
  agent_from cfg (draws g) (cursor g + 3 * k).

(** Two worlds with the same array and the same cursor, whose draws
    agree from the cursor on, at the positions before [b].  What the
    generators hold behind the cursor or from [b] on is left open. *)
Definition world_agree_before {F : Type} (b : nat) (w1 w2 : World (F:=F))
  : Prop :=
  DrawMap w1 = DrawMap w2 /\
  cursor (generator w1) = cursor (generator w2) /\
  forall k, (cursor (generator w1) <= k < b)%nat ->
            draws (generator w1) k = draws (generator w2) k.

(** A computation that takes between [lo] and [hi] draws and looks at
    nothing else of the generator: run in two worlds that agree before
    a position at least [hi] past the cursor, it raises in both or
    returns the same value in both, in worlds that still agree, with
    the cursor between [lo] and [hi] further. *)
Definition reads_between {F : Type} {A : Type} (lo hi : nat)
    (c : M (F:=F) A) : Prop :=
  forall (w1 w2 : World (F:=F)) (b : nat),
    world_agree_before b w1 w2 ->
    (cursor (generator w1) + hi <= b)%nat ->
    match c w1, c w2 with
    | Some (a1, w1'), Some (a2, w2') =>
        a1 = a2 /\ world_agree_before b w1' w2' /\
        (cursor (generator w1) + lo <= cursor (generator w1'))%nat /\
        (cursor (generator w1') <= cursor (generator w1) + hi)%nat
    | None, None => True
    | _, _ => False
    end.


(** In binary64: no cell is negative or a nan. *)
Definition grid_nonneg_binary64 (m : Grid (F:=float)) : Prop :=
  Forall (Forall (fun v => leb (of_int 0) v = true)) m.

(** Agents of the 20 x 20 binary64 world whose x coordinate is a nan:
    one with y on the grid, one with y beyond it. *)
Definition example_agent_nan : Agent (F:=float) :=
  {| pos := (PrimFloat.nan, of_int 10); angle := of_int 0 |}.

Definition example_agent_nan_off_grid : Agent (F:=float) :=
  {| pos := (PrimFloat.nan, of_int 25); angle := of_int 0 |}.





(** A configuration that is valid in the spec's sense, with a turn
    speed of [2^1023] and a tick of 4, and a generator for it: two
    agents start at about (13.2, 13.5) and at (10, 10), both heading
    along x, and every later draw is [0.5]. *)
Definition overflow_config (steps : Z) : Config (F:=float) :=
  {| moveSpeed := dec 1 4;
     deltaTime := of_int 4;
     N := steps;
     width := 20;
     height := 20;
     nrAgents := 2;
     evaporateSpeed := dec 1 10;
     sensorOffsetDst := of_int 5;
     sensorSize := 0;
     sensorAngleSpacing := dec 78 100;
     turnSpeed := 0x1p1023%float;
     diffuseFaktor := dec 4 10 |}.

Definition example_rng_overflow : Rng (F:=float) :=
  {| draws := fun k => nth k [dec 66 100; dec 675 1000; of_int 0;
                              dec 1 2; dec 1 2; of_int 0] (dec 1 2);
     cursor := 0 |}.

(** * Properties *)

Unset Implicit Arguments.

(** ** Exact arithmetic: the comparisons and [int()] *)

Lemma Qltb_lt (x y : Q) : Qltb x y = true <-> (x < y)%Q.
Proof.
  unfold Qltb. rewrite negb_true_iff, <- not_true_iff_false, Qle_bool_iff.
  split; [apply Qnot_le_lt | apply Qlt_not_le].
Qed.

Lemma Qltb_ge (x y : Q) : Qltb x y = false <-> (y <= x)%Q.
Proof.
  unfold Qltb. rewrite negb_false_iff. apply Qle_bool_iff.
Qed.

Lemma Qleb_gt (x y : Q) : Qle_bool x y = false <-> (y < x)%Q.
Proof.
  rewrite <- not_true_iff_false, Qle_bool_iff.
  split; [apply Qnot_le_lt | apply Qlt_not_le].
Qed.

Lemma Qtrunc_range (x : Q) (w : Z) :
  (0 <= x)%Q -> (x < inject_Z w)%Q -> (0 <= Qtrunc x < w)%Z.
Proof.
  destruct x as [n d]. unfold Qle, Qlt, Qtrunc. simpl. intros H0 Hw.
  rewrite Z.quot_div_nonneg by lia.
  split.
  - apply Z.div_pos; lia.
  - apply Z.div_lt_upper_bound; lia.
Qed.

Lemma Qtrunc_inject (z : Z) : Qtrunc (inject_Z z) = z.
Proof. unfold Qtrunc. simpl. apply Z.quot_1_r. Qed.

(** ** The array *)

Section GridFacts.

Context {F : Type}.
Implicit Types (m : list (list F)) (i j : Z).

Lemma axis_index_in (n : nat) i :
  (0 <= i < Z.of_nat n)%Z -> axis_index n i = Some (Z.to_nat i).
Proof.
  intros H. unfold axis_index.
  replace ((0 <=? i)%Z && (i <? Z.of_nat n)%Z) with true; [reflexivity|].
  symmetry. apply andb_true_iff. split; [apply Z.leb_le | apply Z.ltb_lt]; lia.
Qed.

Lemma list_set_length {A : Type} (l : list A) k v :
  length (list_set l k v) = length l.
Proof.
  revert k. induction l as [|x t IH]; intros [|k]; simpl; auto.
Qed.

Lemma nth_error_list_set_eq {A : Type} (l : list A) k v :
  (k < length l)%nat -> nth_error (list_set l k v) k = Some v.
Proof.
  revert k. induction l as [|x t IH]; intros [|k]; simpl; intros H;
    try lia; auto. apply IH. lia.
Qed.

Lemma nth_error_list_set_neq {A : Type} (l : list A) k k' v :
  k <> k' -> nth_error (list_set l k v) k' = nth_error l k'.
Proof.
  revert k k'. induction l as [|x t IH]; intros [|k] [|k']; simpl; intros H;
    try congruence; auto.
Qed.

Lemma grid_shape_row m w h r row :
  grid_shape m w h -> nth_error m r = Some row -> length row = Z.to_nat h.
Proof.
  intros [_ Hall] Hr. rewrite Forall_forall in Hall.
  apply Hall. eapply nth_error_In; eauto.
Qed.

Lemma grid_shape_set m w h r row c v :
  grid_shape m w h -> nth_error m r = Some row ->
  grid_shape (list_set m r (list_set row c v)) w h.
Proof.
  intros Hs Hr. pose proof (grid_shape_row _ _ _ _ _ Hs Hr) as Hlen.
  destruct Hs as [Hw Hall]. split.
  - now rewrite list_set_length.
  - rewrite Forall_forall in *. intros row' Hin.
    apply In_nth_error in Hin. destruct Hin as [k Hk].
    destruct (Nat.eq_dec r k) as [->|Hne].
    + rewrite nth_error_list_set_eq in Hk.
      * injection Hk as <-. now rewrite list_set_length.
      * apply nth_error_Some. congruence.
    + rewrite nth_error_list_set_neq in Hk by assumption.
      apply Hall. eapply nth_error_In; eauto.
Qed.

Lemma grid_get_in m w h i j :
  grid_shape m w h -> (0 <= i < w)%Z -> (0 <= j < h)%Z ->
  exists v, grid_get m i j = Some v.
Proof.
  intros Hs Hi Hj. unfold grid_get.
  rewrite axis_index_in by (destruct Hs as [-> _]; lia).
  destruct (nth_error m (Z.to_nat i)) as [row|] eqn:Hr.
  - rewrite (grid_shape_row _ _ _ _ _ Hs Hr), axis_index_in by lia.
    destruct (nth_error row (Z.to_nat j)) as [v|] eqn:Hc; [eauto|].
    apply nth_error_None in Hc. rewrite (grid_shape_row _ _ _ _ _ Hs Hr) in Hc. lia.
  - apply nth_error_None in Hr. destruct Hs as [Hw _]. lia.
Qed.

Lemma grid_set_in m w h i j v :
  grid_shape m w h -> (0 <= i < w)%Z -> (0 <= j < h)%Z ->
  exists row,
    nth_error m (Z.to_nat i) = Some row /\
    grid_set m i j v
    = Some (list_set m (Z.to_nat i) (list_set row (Z.to_nat j) v)).
Proof.
  intros Hs Hi Hj. unfold grid_set.
  rewrite axis_index_in by (destruct Hs as [-> _]; lia).
  destruct (nth_error m (Z.to_nat i)) as [row|] eqn:Hr.
  - exists row. split; [reflexivity|].
    now rewrite (grid_shape_row _ _ _ _ _ Hs Hr), axis_index_in by lia.
  - apply nth_error_None in Hr. destruct Hs as [Hw _]. lia.
Qed.

Lemma grid_set_shape m m' w h i j v :
  grid_shape m w h -> grid_set m i j v = Some m' -> grid_shape m' w h.
Proof.
  unfold grid_set. intros Hs H.
  destruct (axis_index (length m) i) as [r|]; [|discriminate].
  destruct (nth_error m r) as [row|] eqn:Hr; [|discriminate].
  destruct (axis_index (length row) j) as [c|]; [|discriminate].
  injection H as <-. now apply grid_shape_set.
Qed.

Lemma grid_get_set_same m m' w h i j v :
  grid_shape m w h -> (0 <= i < w)%Z -> (0 <= j < h)%Z ->
  grid_set m i j v = Some m' -> grid_get m' i j = Some v.
Proof.
  intros Hs Hi Hj H.
  destruct (grid_set_in _ _ _ _ _ v Hs Hi Hj) as (row & Hr & Hset).
  rewrite Hset in H. injection H as <-.
  pose proof (grid_shape_row _ _ _ _ _ Hs Hr) as Hlen.
  destruct Hs as [Hw _].
  unfold grid_get. rewrite list_set_length, axis_index_in by lia.
  rewrite nth_error_list_set_eq by lia.
  rewrite list_set_length, Hlen, axis_index_in by lia.
  apply nth_error_list_set_eq. lia.
Qed.

Lemma grid_get_set_other m m' w h i j i' j' v :
  grid_shape m w h -> (0 <= i < w)%Z -> (0 <= j < h)%Z ->
  (0 <= i' < w)%Z -> (0 <= j' < h)%Z -> (i', j') <> (i, j) ->
  grid_set m i j v = Some m' -> grid_get m' i' j' = grid_get m i' j'.
Proof.
  intros Hs Hi Hj Hi' Hj' Hne H.
  destruct (grid_set_in _ _ _ _ _ v Hs Hi Hj) as (row & Hr & Hset).
  rewrite Hset in H. injection H as <-.
  pose proof (grid_shape_row _ _ _ _ _ Hs Hr) as Hlen.
  pose proof Hs as [Hw _].
  unfold grid_get. rewrite list_set_length, !axis_index_in by lia.
  destruct (Z.eq_dec i' i) as [->|Hi'i].
  - rewrite nth_error_list_set_eq, Hr by lia.
    rewrite list_set_length, Hlen, axis_index_in by lia.
    apply nth_error_list_set_neq. intros E. apply Hne. f_equal. lia.
  - rewrite nth_error_list_set_neq by lia. reflexivity.
Qed.

End GridFacts.

(** ** [sense] *)

Section SenseFacts.

Context {F : Type} {AF : Arith F} {EF : Externals F}.
Variable cfg : Config (F:=F).

Lemma in_grid_range px py :
  in_grid cfg px py = true ->
  (0 <= px < width cfg)%Z /\ (0 <= py < height cfg)%Z.
Proof.
  unfold in_grid. rewrite !andb_true_iff, !Z.leb_le, !Z.ltb_lt. lia.
Qed.

Lemma in_grid_get m px py :
  grid_shape m (width cfg) (height cfg) -> in_grid cfg px py = true ->
  grid_get m px py = Some (grid_at m (px, py)).
Proof.
  intros Hs Hin. apply in_grid_range in Hin. destruct Hin as [Hx Hy].
  destruct (grid_get_in m _ _ px py Hs Hx Hy) as [v Hv].
  unfold grid_at. simpl. now rewrite Hv.
Qed.

(** The inner loop adds the column's cells that lie in the grid. *)
Lemma sense_column m cx cy ox (ys : list Z) (total : F) :
  grid_shape m (width cfg) (height cfg) ->
  fold_opt (fun total offsetY =>
      if in_grid cfg (cx + ox) (cy + offsetY) then
        match grid_get m (cx + ox) (cy + offsetY) with
        | None => None
        | Some v => Some (add total v)
        end
      else Some total) ys total
  = Some (fold_left add
            (map (grid_at m)
               (filter (fun p => in_grid cfg (fst p) (snd p))
                  (map (fun oy => ((cx + ox)%Z, (cy + oy)%Z)) ys)))
            total).
Proof.
  intros Hs. revert total.
  induction ys as [|y ys IH]; intros total; simpl; [reflexivity|].
  destruct (in_grid cfg (cx + ox) (cy + y)) eqn:Hin.
  - rewrite (in_grid_get m _ _ Hs Hin). simpl. apply IH.
  - apply IH.
Qed.

Lemma sense_rows m cx cy (xs ys : list Z) (total : F) :
  grid_shape m (width cfg) (height cfg) ->
  fold_opt (fun total offsetX =>
      fold_opt (fun total offsetY =>
          if in_grid cfg (cx + offsetX) (cy + offsetY) then
            match grid_get m (cx + offsetX) (cy + offsetY) with
            | None => None
            | Some v => Some (add total v)
            end
          else Some total) ys total) xs total
  = Some (fold_left add
            (map (grid_at m)
               (filter (fun p => in_grid cfg (fst p) (snd p))
                  (flat_map (fun ox =>
                     map (fun oy => ((cx + ox)%Z, (cy + oy)%Z)) ys) xs)))
            total).
Proof.
  intros Hs. revert total.
  induction xs as [|x xs IH]; intros total; simpl; [reflexivity|].
  rewrite (sense_column m cx cy x ys total Hs).
  rewrite IH, filter_app, map_app, fold_left_app. reflexivity.
Qed.

Lemma sense_window_sum m a off cx cy :
  grid_shape m (width cfg) (height cfg) ->
  sensor_cell cfg a off = Some (cx, cy) ->
  sense cfg m a off = Some (window_sum cfg m cx cy).
Proof.
  intros Hs Hc. unfold sense. rewrite Hc.
  apply (sense_rows m cx cy _ _ _ Hs).
Qed.

(** [steer] on given weights: the draw is taken whatever they are. *)
Lemma steer_run (a : Agent) (w : World) (wF wL wR : F) :
  sense cfg (DrawMap w) a (of_int 0) = Some wF ->
  sense cfg (DrawMap w) a (sensorAngleSpacing cfg) = Some wL ->
  sense cfg (DrawMap w) a (opp (sensorAngleSpacing cfg)) = Some wR ->
  steer cfg a w
  = Some (steer_angle cfg a wF wL wR
            (draws (generator w) (cursor (generator w))),
          world_after w (DrawMap w) 1).
Proof.
  intros HF HL HR. unfold steer, bind, get_map, lift.
  rewrite HF, HL, HR. reflexivity.
Qed.

Lemma steer_angle_keeps_pos (a : Agent) (wF wL wR r : F) :
  pos (steer_angle cfg a wF wL wR r) = pos a.
Proof.
  unfold steer_angle.
  repeat match goal with |- context [if ?b then _ else _] => destruct b end;
    reflexivity.
Qed.

Lemma steer_keeps_pos (a a' : Agent) (w w' : World) :
  steer cfg a w = Some (a', w') -> pos a' = pos a.
Proof.
  unfold steer, bind, get_map, lift, random, ret.
  destruct (sense cfg (DrawMap w) a (of_int 0)); [|discriminate].
  destruct (sense cfg (DrawMap w) a (sensorAngleSpacing cfg)); [|discriminate].
  destruct (sense cfg (DrawMap w) a (opp (sensorAngleSpacing cfg)));
    [|discriminate].
  intros H. injection H as <- _. apply steer_angle_keeps_pos.
Qed.

(** In any arithmetic, the position [update_agent] leaves is the one of
    [moved]. *)
Lemma update_agent_pos (a a' : Agent) (w w' : World) :
  update_agent cfg a w = Some (a', w') ->
  pos a' = pos (moved cfg a (draws (generator w) (cursor (generator w)))).
Proof.
  unfold update_agent, moved. cbv zeta. unfold bind at 1.
  destruct (out_of_bounds cfg (tentative cfg a)).
  - unfold bind at 1, random at 1, ret at 1. cbn [DrawMap generator].
    unfold bind, lift, get_map, put_map. cbn [pos DrawMap generator].
    destruct (trunc _); [|discriminate].
    destruct (trunc _); [|discriminate].
    destruct (grid_set _ _ _ _); [|discriminate].
    intros H. apply steer_keeps_pos in H. exact H.
  - unfold ret at 1.
    unfold bind, lift, get_map, put_map. cbn [pos DrawMap generator].
    destruct (trunc _); [|discriminate].
    destruct (trunc _); [|discriminate].
    destruct (grid_set _ _ _ _); [|discriminate].
    intros H. apply steer_keeps_pos in H. exact H.
Qed.

(** In any arithmetic, a call of [update_agent] that returns is a turn
    in the sense of [agent_turn]. *)
Lemma update_agent_sound (a a' : Agent) (w w' : World) :
  update_agent cfg a w = Some (a', w') -> agent_turn cfg a w a' w'.
Proof.
  unfold update_agent. cbv zeta. unfold bind at 1.
  set (g := generator w).
  set (a1 := moved cfg a (draws g (cursor g))).
  assert (Hmove :
    (if out_of_bounds cfg (tentative cfg a)
     then bind random (fun r =>
            ret {| pos := constrain cfg (tentative cfg a);
                   angle := mul (mul r (of_int 2)) PI |})
     else ret {| pos := tentative cfg a; angle := angle a |}) w
    = Some (a1, world_after w (DrawMap w)
                  (if out_of_bounds cfg (tentative cfg a) then 1 else 0))).
  { subst a1. unfold moved.
    destruct (out_of_bounds cfg (tentative cfg a)).
    - reflexivity.
    - unfold ret, world_after. destruct w as [m [d c]]. reflexivity. }
  rewrite Hmove. clear Hmove.
  unfold bind at 1, lift at 1.
  destruct (trunc (fst (pos a1))) as [i|] eqn:Hi; [|discriminate].
  unfold bind at 1, lift at 1.
  destruct (trunc (snd (pos a1))) as [j|] eqn:Hj; [|discriminate].
  unfold bind at 1, get_map at 1. cbn [DrawMap world_after].
  unfold bind at 1, lift at 1.
  destruct (grid_set (DrawMap w) i j (of_int 1)) as [m'|] eqn:Hset;
    [|discriminate].
  unfold bind at 1, put_map at 1. cbn [generator world_after].
  unfold steer, bind, get_map, lift, random, ret. cbn [DrawMap generator].
  destruct (sense cfg m' a1 (of_int 0)) as [wF|] eqn:HF; [|discriminate].
  destruct (sense cfg m' a1 (sensorAngleSpacing cfg)) as [wL|] eqn:HL;
    [|discriminate].
  destruct (sense cfg m' a1 (opp (sensorAngleSpacing cfg))) as [wR|] eqn:HR;
    [|discriminate].
  cbn [draws cursor]. intros H. injection H as <- <-.
  eapply turn_intro; eassumption.
Qed.

Lemma for_each_update_sound (agents agents' : list Agent) (w w' : World) :
  for_each (update_agent cfg) agents w = Some (agents', w') ->
  agent_pass cfg agents w agents' w'.
Proof.
  revert agents' w. induction agents as [|a rest IH]; intros agents' w.
  - cbn. intros H. injection H as <- <-. constructor.
  - cbn [for_each]. unfold bind at 1.
    destruct (update_agent cfg a w) as [[a1 w1]|] eqn:Hrun; [|discriminate].
    unfold bind at 1.
    destruct (for_each (update_agent cfg) rest w1) as [[rest1 w2]|] eqn:Hrest;
      [|discriminate].
    unfold ret. intros H. injection H as <- <-.
    eapply pass_cons;
      [apply update_agent_sound; exact Hrun | apply IH; exact Hrest].
Qed.

(** In any arithmetic, a pass of the main loop that returns went
    through the agents' turns, then the blur, then the evaporation. *)
Lemma run_step_sound (agents agents' : list Agent) (w w' : World) :
  run_step cfg agents w = Some (agents', w') ->
  exists w1,
    agent_pass cfg agents w agents' w1 /\
    evaporate_map cfg (gaussian_filter (DrawMap w1) (diffuseFaktor cfg))
    = Some (DrawMap w') /\
    generator w' = generator w1.
Proof.
  unfold run_step. unfold bind at 1.
  destruct (for_each (update_agent cfg) agents w) as [[agents1 w1]|] eqn:Hrun;
    [|discriminate].
  unfold bind, get_map, put_map, lift, ret, diffuse.
  cbn [DrawMap generator].
  destruct (evaporate_map cfg (gaussian_filter (DrawMap w1) (diffuseFaktor cfg)))
    as [m2|] eqn:He; [|discriminate].
  intros H. injection H as <- <-. exists w1.
  split; [now apply for_each_update_sound|]. split; [exact He | reflexivity].
Qed.

(** Writing a cell and reading it back. *)
Lemma grid_set_get (m m' : Grid) (i j : Z) (v : F) :
  grid_set m i j v = Some m' -> grid_get m' i j = Some v.
Proof.
  unfold grid_set, grid_get.
  destruct (axis_index (length m) i) as [r|] eqn:Hi; [|discriminate].
  destruct (nth_error m r) as [row|] eqn:Hr; [|discriminate].
  destruct (axis_index (length row) j) as [c|] eqn:Hj; [|discriminate].
  intros H. injection H as <-.
  assert (Hrlt : (r < length m)%nat) by (apply nth_error_Some; congruence).
  assert (Hclt : (c < length row)%nat).
  { unfold axis_index in Hj.
    destruct ((0 <=? j)%Z && (j <? Z.of_nat (length row))%Z) eqn:E1.
    - injection Hj as <-. apply andb_true_iff in E1.
      rewrite Z.leb_le, Z.ltb_lt in E1. lia.
    - destruct ((j <? 0)%Z && (- Z.of_nat (length row) <=? j)%Z) eqn:E2;
        [|discriminate].
      injection Hj as <-. apply andb_true_iff in E2.
      rewrite Z.leb_le, Z.ltb_lt in E2. lia. }
  rewrite list_set_length, Hi, nth_error_list_set_eq by assumption.
  rewrite list_set_length, Hj. now apply nth_error_list_set_eq.
Qed.

(** In any arithmetic, a call of [update_agent] that returns has written
    [1] into the cell of the position it leaves, and nothing else. *)
Lemma update_agent_writes (a a' : Agent) (w w' : World) :
  update_agent cfg a w = Some (a', w') ->
  exists i j,
    trunc (fst (pos a')) = Some i /\
    trunc (snd (pos a')) = Some j /\
    grid_set (DrawMap w) i j (of_int 1) = Some (DrawMap w') /\
    grid_get (DrawMap w') i j = Some (of_int 1).
Proof.
  intros Hrun. apply update_agent_sound in Hrun.
  inversion Hrun as [a0 w0 i j m' wF wL wR g a1 k Hi Hj Hset HF HL HR];
    subst.
  exists i, j. rewrite steer_angle_keeps_pos. cbn [DrawMap world_after].
  repeat split; try assumption. eapply grid_set_get; eauto.
Qed.

(** In any arithmetic, the draws a call consumes. *)
Lemma steer_draws (a a' : Agent) (w w' : World) :
  steer cfg a w = Some (a', w') -> w' = world_after w (DrawMap w) 1.
Proof.
  unfold steer, bind, get_map, lift, random, ret.
  destruct (sense cfg (DrawMap w) a (of_int 0)); [|discriminate].
  destruct (sense cfg (DrawMap w) a (sensorAngleSpacing cfg)); [|discriminate].
  destruct (sense cfg (DrawMap w) a (opp (sensorAngleSpacing cfg)));
    [|discriminate].
  intros H. injection H as _ <-. reflexivity.
Qed.

Lemma update_agent_draws (a a' : Agent) (w w' : World) :
  update_agent cfg a w = Some (a', w') ->
  generator w'
  = generator (world_after w (DrawMap w)
                 (if out_of_bounds cfg (tentative cfg a) then 2 else 1)).
Proof.
  intros Hrun. apply update_agent_sound in Hrun.
  inversion Hrun as [a0 w0 i j m' wF wL wR g a1 k Hi Hj Hset HF HL HR];
    subst.
  subst k. cbn [generator world_after].
  destruct (out_of_bounds cfg (tentative cfg a)); reflexivity.
Qed.

End SenseFacts.

(** ** Exact arithmetic: clipping, clamping, the sensor centre *)

Lemma Qtrunc_nonpos (x : Q) : (x < 0)%Q -> (Qtrunc x <= 0)%Z.
Proof.
  destruct x as [n d]. unfold Qlt, Qtrunc. simpl. intros H.
  replace n with (- (- n))%Z by lia.
  rewrite Z.quot_opp_l by lia.
  rewrite Z.quot_div_nonneg by lia.
  pose proof (Z.div_pos (- n) (Z.pos d)). lia.
Qed.

Lemma Qtrunc_clip (x : Q) (w : Z) :
  Qtrunc (np_clip x (of_int 0) (of_int (w - 1)))
  = Z.min (w - 1) (Z.max 0 (Qtrunc x)).
Proof.
  unfold np_clip. simpl.
  destruct (Qltb x (inject_Z 0)) eqn:Hx.
  - apply Qltb_lt in Hx. pose proof (Qtrunc_nonpos x Hx) as Ht.
    destruct (Qltb (inject_Z (w - 1)) (inject_Z 0)) eqn:Hw.
    + apply Qltb_lt in Hw. rewrite <- Zlt_Qlt in Hw.
      rewrite Qtrunc_inject. lia.
    + apply Qltb_ge in Hw. rewrite <- Zle_Qle in Hw.
      rewrite Qtrunc_inject. lia.
  - apply Qltb_ge in Hx.
    destruct (Qltb (inject_Z (w - 1)) x) eqn:Hw.
    + apply Qltb_lt in Hw. rewrite Qtrunc_inject.
      destruct x as [n d]. unfold Qle, Qlt, Qtrunc in *. simpl in *.
      rewrite Z.quot_div_nonneg by lia.
      assert (w - 1 <= n / Z.pos d)%Z by (apply Z.div_le_lower_bound; lia).
      lia.
    + apply Qltb_ge in Hw.
      destruct x as [n d]. unfold Qle, Qlt, Qtrunc in *. simpl in *.
      rewrite Z.quot_div_nonneg by lia.
      assert (0 <= n / Z.pos d)%Z by (apply Z.div_pos; lia).
      assert (n / Z.pos d <= w - 1)%Z.
      { destruct (Z.le_gt_cases (n / Z.pos d) (w - 1)) as [|Hgt]; [assumption|].
        assert (Z.pos d * (n / Z.pos d) <= n)%Z
          by (apply Z.mul_div_le; lia).
        nia. }
      lia.
Qed.

Section ExactAgent.

Context {EF : Externals Q}.
Variable cfg : Config (F:=Q).
Hypothesis width_pos : (1 <= width cfg)%Z.
Hypothesis height_pos : (1 <= height cfg)%Z.

Lemma sensor_cell_exact (a : Agent) (off : Q) :
  sensor_cell cfg a off
  = Some (Z.min (width cfg - 1) (Z.max 0 (Qtrunc (fst (sensor_center cfg a off)))),
          Z.min (height cfg - 1) (Z.max 0 (Qtrunc (snd (sensor_center cfg a off))))).
Proof.
  unfold sensor_cell. cbn [trunc Q_arith].
  now rewrite !Qtrunc_clip.
Qed.

Lemma sense_exact (m : Grid) (a : Agent) (off : Q) :
  grid_shape m (width cfg) (height cfg) ->
  exists v, sense cfg m a off = Some v.
Proof.
  intros Hs. eexists. apply sense_window_sum; [assumption|].
  apply sensor_cell_exact.
Qed.

(** One coordinate of [constrain]. *)
Lemma clamp_range (w : Z) (x : Q) :
  (1 <= w)%Z ->
  (0 <= py_min (of_int w - dec 1 100) (py_max (of_int 0) x) < of_int w)%Q.
Proof.
  intros Hw.
  assert (H1 : (1 <= inject_Z w)%Q)
    by (change 1%Q with (inject_Z 1); now rewrite <- Zle_Qle).
  assert (E : (dec 1 100 == 1 # 100)%Q) by reflexivity.
  unfold py_min, py_max. cbn [ltb of_int sub Q_arith] in *.
  destruct (Qltb (inject_Z 0) x) eqn:H0.
  - apply Qltb_lt in H0. change (inject_Z 0) with 0%Q in H0.
    destruct (Qltb x (inject_Z w - dec 1 100)) eqn:Hx.
    + apply Qltb_lt in Hx. rewrite E in Hx. lra.
    + rewrite E. lra.
  - destruct (Qltb (inject_Z 0) (inject_Z w - dec 1 100)) eqn:Hx.
    + change (inject_Z 0) with 0%Q. lra.
    + rewrite E. lra.
Qed.

Lemma in_bounds_range (p : Q * Q) :
  out_of_bounds cfg p = false ->
  (0 <= fst p < of_int (width cfg))%Q /\ (0 <= snd p < of_int (height cfg))%Q.
Proof.
  unfold out_of_bounds. rewrite !orb_false_iff.
  cbn [ltb leb of_int Q_arith].
  rewrite !Qltb_ge, !Qleb_gt. change (inject_Z 0) with 0%Q. tauto.
Qed.

Lemma moved_in_bounds (a : Agent) (r : Q) :
  (0 <= fst (pos (moved cfg a r)) < of_int (width cfg))%Q /\
  (0 <= snd (pos (moved cfg a r)) < of_int (height cfg))%Q.
Proof.
  unfold moved. destruct (out_of_bounds cfg (tentative cfg a)) eqn:Hb.
  - cbn [pos constrain fst snd]. split; now apply clamp_range.
  - now apply in_bounds_range.
Qed.

(** The whole of [update_agent] on an array of the right shape: it
    returns, and what it returns. *)
Lemma update_agent_exact (a : Agent) (w : World) :
  grid_shape (DrawMap w) (width cfg) (height cfg) ->
  let g := generator w in
  let a1 := moved cfg a (draws g (cursor g)) in
  let k := if out_of_bounds cfg (tentative cfg a) then 1%nat else 0%nat in
  exists m' wF wL wR,
    grid_set (DrawMap w) (Qtrunc (fst (pos a1))) (Qtrunc (snd (pos a1)))
             (of_int 1) = Some m' /\
    sense cfg m' a1 (of_int 0) = Some wF /\
    sense cfg m' a1 (sensorAngleSpacing cfg) = Some wL /\
    sense cfg m' a1 (opp (sensorAngleSpacing cfg)) = Some wR /\
    update_agent cfg a w
    = Some (steer_angle cfg a1 wF wL wR (draws g (k + cursor g)),
            world_after w m' (S k)).
Proof.
  intros Hs g a1 k.
  destruct (moved_in_bounds a (draws g (cursor g))) as [Hx Hy].
  fold a1 in Hx, Hy.
  pose proof (Qtrunc_range _ _ (proj1 Hx) (proj2 Hx)) as Hi.
  pose proof (Qtrunc_range _ _ (proj1 Hy) (proj2 Hy)) as Hj.
  destruct (grid_set_in _ _ _ _ _ (of_int 1) Hs Hi Hj) as (row & Hrow & Hset).
  set (m' := list_set _ _ _) in Hset.
  assert (Hs' : grid_shape m' (width cfg) (height cfg))
    by (eapply grid_set_shape; eauto).
  destruct (sense_exact m' a1 (of_int 0) Hs') as [wF HF].
  destruct (sense_exact m' a1 (sensorAngleSpacing cfg) Hs') as [wL HL].
  destruct (sense_exact m' a1 (opp (sensorAngleSpacing cfg)) Hs') as [wR HR].
  exists m', wF, wL, wR. repeat split; try assumption.
  unfold update_agent, steer, bind, ret.
  subst a1 k. unfold moved in *.
  destruct (out_of_bounds cfg (tentative cfg a)) eqn:Hb.
  - unfold random at 1. cbn [trunc Q_arith lift get_map put_map DrawMap generator].
    fold g. rewrite Hset. cbn [lift put_map get_map DrawMap generator].
    rewrite HF, HL, HR. reflexivity.
  - cbn [trunc Q_arith lift get_map put_map DrawMap generator].
    fold g. rewrite Hset. cbn [lift put_map get_map DrawMap generator].
    rewrite HF, HL, HR. reflexivity.
Qed.

Lemma clamp_nearest (w : Z) (x : Q) :
  (py_min (of_int w - dec 1 100) (py_max (of_int 0) x)
   == Qmin (inject_Z w - (1 # 100)) (Qmax 0 x))%Q.
Proof.
  assert (E : (dec 1 100 == 1 # 100)%Q) by reflexivity.
  unfold py_min, py_max. cbn [ltb of_int sub Q_arith].
  change (inject_Z 0) with 0%Q.
  destruct (Qltb 0 x) eqn:H0.
  - apply Qltb_lt in H0. rewrite (Q.max_r 0 x) by lra.
    destruct (Qltb x (inject_Z w - dec 1 100)) eqn:Hx.
    + apply Qltb_lt in Hx. rewrite E in Hx. rewrite Q.min_r by lra. reflexivity.
    + apply Qltb_ge in Hx. rewrite E in Hx. rewrite Q.min_l by lra.
      rewrite E. reflexivity.
  - apply Qltb_ge in H0. rewrite (Q.max_l 0 x) by lra.
    destruct (Qltb 0 (inject_Z w - dec 1 100)) eqn:Hx.
    + apply Qltb_lt in Hx. rewrite E in Hx. rewrite Q.min_r by lra. reflexivity.
    + apply Qltb_ge in Hx. rewrite E in Hx. rewrite Q.min_l by lra.
      rewrite E. reflexivity.
Qed.

(** [update_agent] seen from the array: one cell is written, the cell of
    the position the agent is left at. *)
Lemma update_agent_deposit (a : Agent) (w : World) :
  grid_shape (DrawMap w) (width cfg) (height cfg) ->
  exists a' m',
    update_agent cfg a w
    = Some (a', world_after w m'
                  (if out_of_bounds cfg (tentative cfg a) then 2 else 1)) /\
    pos a' = pos (moved cfg a (draws (generator w) (cursor (generator w)))) /\
    (0 <= fst (cell_of a') < width cfg)%Z /\
    (0 <= snd (cell_of a') < height cfg)%Z /\
    grid_set (DrawMap w) (fst (cell_of a')) (snd (cell_of a')) (of_int 1)
    = Some m' /\
    grid_shape m' (width cfg) (height cfg).
Proof.
  intros Hs.
  destruct (update_agent_exact a w Hs)
    as (m' & wF & wL & wR & Hset & _ & _ & _ & Hrun).
  destruct (moved_in_bounds a (draws (generator w) (cursor (generator w))))
    as [Hx Hy].
  cbv zeta in Hrun. revert Hrun.
  set (a' := steer_angle _ _ _ _ _ _). intros Hrun.
  exists a', m'. subst a'. unfold cell_of. rewrite steer_angle_keeps_pos.
  cbn [fst snd].
  split; [|split; [reflexivity|split; [|split; [|split]]]].
  - rewrite Hrun. destruct (out_of_bounds cfg (tentative cfg a)); reflexivity.
  - apply Qtrunc_range; apply Hx.
  - apply Qtrunc_range; apply Hy.
  - exact Hset.
  - eapply grid_set_shape; eauto.
Qed.

End ExactAgent.

(** ** [evaporate_map] *)

Section EvaporateFacts.

Context {F : Type} {AF : Arith F}.
Variable cfg : Config (F:=F).

Lemma list_set_twice {A : Type} (l : list A) k v v' :
  list_set (list_set l k v) k v' = list_set l k v'.
Proof.
  revert k. induction l as [|x t IH]; intros [|k]; simpl; auto.
  now rewrite IH.
Qed.

Lemma list_set_same {A : Type} (l : list A) k v :
  nth_error l k = Some v -> list_set l k v = l.
Proof.
  revert k. induction l as [|x t IH]; intros [|k]; simpl; intros H;
    try discriminate.
  - now injection H as ->.
  - now rewrite IH.
Qed.

Lemma list_set_middle {A : Type} (pre suf : list A) x v :
  list_set (pre ++ x :: suf) (length pre) v = pre ++ v :: suf.
Proof.
  induction pre as [|y pre IH]; simpl; [reflexivity|]. now rewrite IH.
Qed.

Lemma nth_error_middle {A : Type} (pre suf : list A) x :
  nth_error (pre ++ x :: suf) (length pre) = Some x.
Proof.
  induction pre as [|y pre IH]; simpl; auto.
Qed.

Lemma grid_get_map (f : F -> F) (m : Grid) i j :
  grid_get (map (map f) m) i j = option_map f (grid_get m i j).
Proof.
  unfold grid_get. rewrite length_map.
  destruct (axis_index (length m) i) as [r|]; [|reflexivity].
  rewrite nth_error_map.
  destruct (nth_error m r) as [row|]; [|reflexivity]. simpl.
  rewrite length_map.
  destruct (axis_index (length row) j) as [c|]; [|reflexivity].
  now rewrite nth_error_map.
Qed.

(** The inner loop, from column [length pre] on: the cells of [suf] are
    replaced one by one. *)
Lemma evaporate_row (suf pre : list F) (m : Grid) (r : nat) :
  nth_error m r = Some (pre ++ suf) ->
  fold_opt (fun m j =>
      match grid_get m (Z.of_nat r) j with
      | None => None
      | Some v => grid_set m (Z.of_nat r) j (evaporate_cell cfg v)
      end)
    (map (fun k => (0 + Z.of_nat k)%Z) (seq (length pre) (length suf))) m
  = Some (list_set m r (pre ++ map (evaporate_cell cfg) suf)).
Proof.
  revert pre m.
  induction suf as [|v suf IH]; intros pre m Hr;
    cbn [length seq map fold_opt].
  - rewrite list_set_same; [reflexivity|]. now rewrite app_nil_r in *.
  - assert (Hlt : (r < length m)%nat)
      by (apply nth_error_Some; congruence).
    assert (Hi : axis_index (length m) (Z.of_nat r) = Some r)
      by (rewrite axis_index_in by lia; now rewrite Nat2Z.id).
    assert (Hj : axis_index (length (pre ++ v :: suf)) (Z.of_nat (length pre))
                 = Some (length pre)).
    { rewrite axis_index_in, Nat2Z.id; [reflexivity|].
      rewrite length_app. simpl. lia. }
    change (0 + Z.of_nat (length pre))%Z with (Z.of_nat (length pre)).
    unfold grid_get at 1. rewrite Hi, Hr, Hj, nth_error_middle.
    unfold grid_set at 1. rewrite Hi, Hr, Hj, list_set_middle.
    specialize (IH (pre ++ [evaporate_cell cfg v])
                   (list_set m r (pre ++ evaporate_cell cfg v :: suf))).
    rewrite length_app, Nat.add_1_r in IH. rewrite IH.
    + now rewrite list_set_twice, <- app_assoc.
    + rewrite <- app_assoc. now apply nth_error_list_set_eq.
Qed.

(** The outer loop, from row [length done] on. *)
Lemma evaporate_rows (rest done : Grid) :
  Forall (fun row => length row = Z.to_nat (height cfg)) rest ->
  fold_opt (fun m i =>
      fold_opt (fun m j =>
          match grid_get m i j with
          | None => None
          | Some v => grid_set m i j (evaporate_cell cfg v)
          end)
        (range 0 (height cfg)) m)
    (map (fun k => (0 + Z.of_nat k)%Z) (seq (length done) (length rest)))
    (done ++ rest)
  = Some (done ++ map (map (evaporate_cell cfg)) rest).
Proof.
  revert done.
  induction rest as [|row rest IH]; intros done Hall;
    cbn [length seq map fold_opt]; [reflexivity|].
  inversion Hall as [|? ? Hrow Hrest]; subst.
  change (0 + Z.of_nat (length done))%Z with (Z.of_nat (length done)).
  pose proof (evaporate_row row [] (done ++ row :: rest) (length done)
                (nth_error_middle done rest row)) as E.
  cbn [length app] in E. rewrite Hrow, list_set_middle in E.
  unfold range at 1. rewrite Z.sub_0_r, E.
  specialize (IH (done ++ [map (evaporate_cell cfg) row]) Hrest).
  rewrite length_app, Nat.add_1_r, <- !app_assoc in IH. exact IH.
Qed.

(** The two loops replace every cell by [evaporate_cell] of itself. *)
Lemma evaporate_map_cellwise (m : Grid) :
  grid_shape m (width cfg) (height cfg) ->
  evaporate_map cfg m = Some (map (map (evaporate_cell cfg)) m).
Proof.
  intros [Hw Hall]. unfold evaporate_map.
  unfold range at 2. rewrite Z.sub_0_r, <- Hw.
  exact (evaporate_rows m [] Hall).
Qed.

Lemma evaporate_map_shape (m m' : Grid) :
  grid_shape m (width cfg) (height cfg) ->
  evaporate_map cfg m = Some m' ->
  grid_shape m' (width cfg) (height cfg).
Proof.
  intros Hs H. rewrite (evaporate_map_cellwise m Hs) in H.
  injection H as <-. destruct Hs as [Hw Hall]. split.
  - now rewrite length_map.
  - rewrite Forall_forall in *. intros row Hin.
    apply in_map_iff in Hin. destruct Hin as (row0 & <- & Hin).
    rewrite length_map. now apply Hall.
Qed.

(** Whatever the arithmetic, a cell comes out of [evaporate_cell] as [0]
    or as a value that tests larger than [0]. *)
Lemma evaporate_cell_cases (v : F) :
  evaporate_cell cfg v = of_int 0 \/
  ltb (of_int 0) (evaporate_cell cfg v) = true.
Proof.
  unfold evaporate_cell, py_max.
  destruct (ltb (of_int 0) (sub v (mul (evaporateSpeed cfg) (deltaTime cfg))))
    eqn:H; auto.
Qed.

Lemma evaporate_times_cellwise (n : nat) (m : Grid) :
  grid_shape m (width cfg) (height cfg) ->
  exists m',
    evaporate_times cfg n m = Some m' /\
    grid_shape m' (width cfg) (height cfg) /\
    forall i j,
      grid_get m' i j
      = option_map (fun v => Nat.iter n (evaporate_cell cfg) v) (grid_get m i j).
Proof.
  revert m. induction n as [|n IH]; intros m Hs.
  - exists m. split; [reflexivity|]. split; [assumption|].
    intros i j. simpl. now destruct (grid_get m i j).
  - cbn [evaporate_times]. rewrite (evaporate_map_cellwise m Hs).
    destruct (IH _ (evaporate_map_shape m _ Hs (evaporate_map_cellwise m Hs)))
      as (m' & Hrun & Hs' & Hget).
    exists m'. split; [assumption|]. split; [assumption|].
    intros i j. rewrite Hget, grid_get_map.
    destruct (grid_get m i j) as [v|]; [|reflexivity].
    cbn [option_map]. now rewrite Nat.iter_succ_r.
Qed.

Lemma nth_error_range (w i : Z) :
  (0 <= i < w)%Z -> nth_error (range 0 w) (Z.to_nat i) = Some i.
Proof.
  intros H. unfold range. rewrite nth_error_map, nth_error_seq.
  replace (Z.to_nat i <? Z.to_nat (w - 0))%nat with true
    by (symmetry; apply Nat.ltb_lt; lia).
  cbn [option_map]. f_equal. lia.
Qed.

Lemma length_range (w : Z) : length (range 0 w) = Z.to_nat w.
Proof.
  unfold range. now rewrite length_map, length_seq, Z.sub_0_r.
Qed.

Lemma single_cell_shape (w h i j : Z) :
  grid_shape (single_cell w h i j) w h.
Proof.
  split.
  - unfold single_cell. now rewrite length_map, length_range.
  - apply Forall_forall. intros row Hin. unfold single_cell in Hin.
    apply in_map_iff in Hin. destruct Hin as (r & <- & _).
    now rewrite length_map, length_range.
Qed.

Lemma single_cell_get (w h i j : Z) :
  (0 <= i < w)%Z -> (0 <= j < h)%Z ->
  grid_get (single_cell w h i j) i j = Some (of_int 1).
Proof.
  intros Hi Hj. unfold grid_get, single_cell.
  rewrite length_map, length_range, axis_index_in by lia.
  rewrite nth_error_map, nth_error_range by lia. cbn [option_map].
  rewrite length_map, length_range, axis_index_in by lia.
  rewrite nth_error_map, nth_error_range by lia. cbn [option_map].
  now rewrite !Z.eqb_refl.
Qed.

End EvaporateFacts.

(** ** Exact arithmetic: decay *)

Lemma evaporate_cell_max (cfg : Config) (v : Q) :
  (evaporate_cell cfg v == Qmax 0 (v - evaporateSpeed cfg * deltaTime cfg))%Q.
Proof.
  unfold evaporate_cell, py_max. cbn [ltb of_int sub mul Q_arith].
  change (inject_Z 0) with 0%Q.
  destruct (Qltb 0 (v - evaporateSpeed cfg * deltaTime cfg)) eqn:H.
  - apply Qltb_lt in H. rewrite Q.max_r by lra. reflexivity.
  - apply Qltb_ge in H. rewrite Q.max_l by lra. reflexivity.
Qed.

Lemma evaporate_cell_nonneg (cfg : Config) (v : Q) :
  (0 <= evaporate_cell cfg v)%Q.
Proof.
  rewrite evaporate_cell_max. apply Q.le_max_l.
Qed.

(** The value of the seeded cell after [n] evaporations, in closed form. *)
Lemma decay_closed_form (cfg : Config) (n : nat) :
  let c := (evaporateSpeed cfg * deltaTime cfg)%Q in
  let v := Nat.iter n (evaporate_cell cfg) 1%Q in
  (0 < c)%Q ->
  ((0 < 1 - inject_Z (Z.of_nat n) * c)%Q /\
   (v == 1 - inject_Z (Z.of_nat n) * c)%Q) \/
  ((1 - inject_Z (Z.of_nat n) * c <= 0)%Q /\ v = 0%Q).
Proof.
  intros c v Hc. subst v.
  induction n as [|n IH].
  - left. cbn [Nat.iter nat_rect Z.of_nat]. change (inject_Z 0) with 0%Q.
    split; lra.
  - assert (En : (inject_Z (Z.of_nat (S n)) == inject_Z (Z.of_nat n) + 1)%Q).
    { rewrite Nat2Z.inj_succ, <- Z.add_1_r, inject_Z_plus. reflexivity. }
    cbn [Nat.iter nat_rect].
    change (nat_rect _ 1%Q (fun _ => evaporate_cell cfg) n)
      with (Nat.iter n (evaporate_cell cfg) 1%Q).
    set (u := Nat.iter n (evaporate_cell cfg) 1%Q) in *.
    clearbody u. unfold evaporate_cell, py_max.
    cbn [ltb of_int sub mul Q_arith].
    fold c. change (inject_Z 0) with 0%Q.
    destruct IH as [[Hpos Hu]|[Hneg Hu]].
    + destruct (Qltb 0 (u - c)) eqn:Ht.
      * apply Qltb_lt in Ht. left. rewrite En. split; lra.
      * apply Qltb_ge in Ht. right. rewrite En. split; [lra|reflexivity].
    + rewrite Hu.
      destruct (Qltb 0 (0 - c)) eqn:Ht.
      * apply Qltb_lt in Ht. lra.
      * right. rewrite En. split; [lra|reflexivity].
Qed.

Lemma ceiling_steps (c : Q) (n : nat) :
  (0 < c)%Q ->
  ((Qceiling (1 / c) <= Z.of_nat n)%Z ->
   (1 - inject_Z (Z.of_nat n) * c <= 0)%Q) /\
  ((Z.of_nat n < Qceiling (1 / c))%Z ->
   (0 < 1 - inject_Z (Z.of_nat n) * c)%Q).
Proof.
  intros Hc.
  assert (E : (1 == (1 / c) * c)%Q) by (field; lra).
  split; intros H.
  - assert (H1 : (1 / c <= inject_Z (Z.of_nat n))%Q).
    { eapply Qle_trans; [apply Qle_ceiling|]. now rewrite <- Zle_Qle. }
    assert (H2 : ((1 / c) * c <= inject_Z (Z.of_nat n) * c)%Q)
      by (apply Qmult_le_compat_r; lra).
    lra.
  - assert (H1 : (inject_Z (Z.of_nat n) < 1 / c)%Q).
    { eapply Qle_lt_trans; [|apply Qceiling_lt]. rewrite <- Zle_Qle. lia. }
    assert (H2 : (inject_Z (Z.of_nat n) * c < (1 / c) * c)%Q)
      by (apply Qmult_lt_compat_r; lra).
    lra.
Qed.

(** ** The main loop in exact arithmetic *)

Section ExactRun.

Context {EF : Externals Q}.
Variable cfg : Config (F:=Q).
Hypothesis width_pos : (1 <= width cfg)%Z.
Hypothesis height_pos : (1 <= height cfg)%Z.
Hypothesis blur_shape :
  forall m sigma,
    grid_shape m (width cfg) (height cfg) ->
    grid_shape (gaussian_filter m sigma) (width cfg) (height cfg).

Lemma update_agent_turn (a : Agent) (w : World) :
  grid_shape (DrawMap w) (width cfg) (height cfg) ->
  exists a' w',
    update_agent cfg a w = Some (a', w') /\
    agent_turn cfg a w a' w' /\
    grid_shape (DrawMap w') (width cfg) (height cfg).
Proof.
  intros Hs.
  destruct (update_agent_exact cfg width_pos height_pos a w Hs)
    as (m' & wF & wL & wR & Hset & HF & HL & HR & Hrun).
  eexists _, _. split; [exact Hrun|]. split.
  - eapply turn_intro;
      [reflexivity | reflexivity | exact Hset | exact HF | exact HL | exact HR].
  - cbn [DrawMap world_after]. eapply grid_set_shape; eauto.
Qed.

Lemma for_each_update_pass (agents : list Agent) (w : World) :
  grid_shape (DrawMap w) (width cfg) (height cfg) ->
  exists agents' w',
    for_each (update_agent cfg) agents w = Some (agents', w') /\
    agent_pass cfg agents w agents' w' /\
    grid_shape (DrawMap w') (width cfg) (height cfg).
Proof.
  revert w. induction agents as [|a rest IH]; intros w Hs.
  - exists [], w. split; [reflexivity|]. split; [constructor | assumption].
  - destruct (update_agent_turn a w Hs) as (a' & w1 & Hrun & Hturn & Hs1).
    destruct (IH w1 Hs1) as (rest' & w2 & Hrest & Hpass & Hs2).
    exists (a' :: rest'), w2. split; [|split; [|assumption]].
    + cbn [for_each]. unfold bind. rewrite Hrun, Hrest. reflexivity.
    + econstructor; eauto.
Qed.

Lemma run_step_exact (agents : list Agent) (w : World) :
  grid_shape (DrawMap w) (width cfg) (height cfg) ->
  exists agents' w1,
    agent_pass cfg agents w agents' w1 /\
    run_step cfg agents w
    = Some (agents',
            {| DrawMap := map (map (evaporate_cell cfg))
                              (gaussian_filter (DrawMap w1) (diffuseFaktor cfg));
               generator := generator w1 |}) /\
    grid_shape (map (map (evaporate_cell cfg))
                    (gaussian_filter (DrawMap w1) (diffuseFaktor cfg)))
               (width cfg) (height cfg).
Proof.
  intros Hs.
  destruct (for_each_update_pass agents w Hs) as (agents' & w1 & Hrun & Hpass & Hs1).
  pose proof (blur_shape _ (diffuseFaktor cfg) Hs1) as Hb.
  pose proof (evaporate_map_cellwise cfg _ Hb) as He.
  exists agents', w1. split; [assumption|]. split.
  - unfold run_step, bind. rewrite Hrun.
    cbn [get_map put_map lift DrawMap generator]. unfold diffuse.
    rewrite He. reflexivity.
  - eapply evaporate_map_shape; eauto.
Qed.

Lemma agent_turn_in_grid (a a' : Agent) (w w' : World) :
  agent_turn cfg a w a' w' -> agent_in_grid cfg a'.
Proof.
  intros H. inversion H; subst. unfold agent_in_grid.
  rewrite steer_angle_keeps_pos. now apply moved_in_bounds.
Qed.

Lemma agent_pass_in_grid (agents agents' : list Agent) (w w' : World) :
  agent_pass cfg agents w agents' w' -> Forall (agent_in_grid cfg) agents'.
Proof.
  induction 1 as [|a a' rest rest' w w1 w2 Hturn _ IH]; constructor.
  - eapply agent_turn_in_grid; eauto.
  - exact IH.
Qed.

Lemma evaporated_nonneg (m : Grid) :
  grid_nonneg (map (map (evaporate_cell cfg)) m).
Proof.
  unfold grid_nonneg. rewrite Forall_map. apply Forall_forall. intros row _.
  rewrite Forall_map. apply Forall_forall. intros v _.
  apply evaporate_cell_nonneg.
Qed.

(** Every frame of the main loop: the agents are on the grid and no
    cell of the array is negative. *)
Lemma main_loop_frames (n : nat) (agents : list Agent) (w : World) :
  grid_shape (DrawMap w) (width cfg) (height cfg) ->
  exists frames w',
    main_loop cfg n agents w = Some (frames, w') /\
    length frames = n /\
    Forall (fun fr => Forall (agent_in_grid cfg) (fst fr) /\
                      grid_nonneg (snd fr)) frames.
Proof.
  revert agents w. induction n as [|n IH]; intros agents w Hs.
  - exists [], w. repeat split. constructor.
  - destruct (run_step_exact agents w Hs) as (agents' & w1 & Hpass & Hrun & Hs1).
    set (w2 := {| DrawMap := _; generator := generator w1 |}) in Hrun.
    destruct (IH agents' w2 Hs1) as (frames & w' & Hloop & Hlen & Hall).
    exists ((agents', DrawMap w2) :: frames), w'. split; [|split].
    + cbn [main_loop]. unfold bind. rewrite Hrun.
      cbn [get_map]. rewrite Hloop. reflexivity.
    + simpl. now rewrite Hlen.
    + constructor; [|exact Hall]. split.
      * eapply agent_pass_in_grid; eauto.
      * apply evaporated_nonneg.
Qed.

End ExactRun.

(** ** Initialization *)

Section InitFacts.

Context {F : Type} {AF : Arith F} {EF : Externals F}.
Variable cfg : Config (F:=F).

Lemma np_zeros_shape (w h : Z) (m : Grid) :
  np_zeros w h = Some m -> grid_shape m w h.
Proof.
  unfold np_zeros. destruct ((w <? 0)%Z || (h <? 0)%Z); [discriminate|].
  intros H. injection H as <-. split.
  - apply repeat_length.
  - apply Forall_forall. intros row Hin. apply repeat_spec in Hin.
    subst row. apply repeat_length.
Qed.

Lemma np_zeros_fails (w h : Z) :
  np_zeros (F:=F) w h = None <-> (w < 0)%Z \/ (h < 0)%Z.
Proof.
  unfold np_zeros. destruct ((w <? 0)%Z || (h <? 0)%Z) eqn:E.
  - apply orb_true_iff in E. rewrite !Z.ltb_lt in E. tauto.
  - apply orb_false_iff in E. rewrite !Z.ltb_ge in E.
    split; [discriminate | lia].
Qed.

Lemma for_each_new_agent (l : list Z) (w : World) :
  exists agents w',
    for_each (new_agent cfg) l w = Some (agents, w') /\
    DrawMap w' = DrawMap w /\ length agents = length l.
Proof.
  revert w. induction l as [|x l IH]; intros w.
  - exists [], w. repeat split.
  - cbn [for_each]. unfold bind at 1. unfold new_agent at 1.
    unfold bind, random, ret. cbn [DrawMap generator draws cursor].
    match goal with
    | |- context [for_each _ l ?w0] => destruct (IH w0) as (agents & w' & H & Hm & Hl)
    end.
    rewrite H. eexists _, _. split; [reflexivity|].
    split; [exact Hm | simpl; now rewrite Hl].
Qed.

Lemma initialize_fails (g : Rng) :
  initialize cfg g = None <-> (width cfg < 0)%Z \/ (height cfg < 0)%Z.
Proof.
  unfold initialize. rewrite <- np_zeros_fails.
  destruct (np_zeros (width cfg) (height cfg)) as [m0|] eqn:E.
  - unfold make_agents.
    destruct (for_each_new_agent (range 0 (nrAgents cfg))
                {| DrawMap := m0; generator := g |})
      as (agents & w' & H & _).
    rewrite H. split; discriminate.
  - tauto.
Qed.

Lemma initialize_shape (g : Rng) (agents : list Agent) (w : World) :
  initialize cfg g = Some (agents, w) ->
  grid_shape (DrawMap w) (width cfg) (height cfg).
Proof.
  unfold initialize.
  destruct (np_zeros (width cfg) (height cfg)) as [m0|] eqn:E; [|discriminate].
  unfold make_agents.
  destruct (for_each_new_agent (range 0 (nrAgents cfg))
              {| DrawMap := m0; generator := g |})
    as (agents0 & w' & H & Hm & _).
  rewrite H. intros Heq. injection Heq as <- <-.
  rewrite Hm. cbn [DrawMap]. now apply np_zeros_shape.
Qed.

End InitFacts.

Lemma construct_frames (EF : Externals Q) (cfg : Config) (g : Rng) :
  (1 <= width cfg)%Z -> (1 <= height cfg)%Z ->
  (forall m sigma,
     grid_shape m (width cfg) (height cfg) ->
     grid_shape (gaussian_filter m sigma) (width cfg) (height cfg)) ->
  exists agents w0 frames w,
    initialize cfg g = Some (agents, w0) /\
    construct cfg g = Some (frames, w) /\
    length frames = Z.to_nat (N cfg) /\
    Forall (fun fr => Forall (agent_in_grid cfg) (fst fr) /\
                      grid_nonneg (snd fr)) frames.
Proof.
  intros Hw Hh Hb.
  destruct (initialize cfg g) as [[agents w0]|] eqn:Hinit.
  - pose proof (initialize_shape cfg g agents w0 Hinit) as Hs.
    destruct (main_loop_frames cfg Hw Hh Hb (Z.to_nat (N cfg)) agents w0 Hs)
      as (frames & w & Hloop & Hlen & Hall).
    exists agents, w0, frames, w. split; [reflexivity|].
    split; [|split; assumption].
    unfold construct. now rewrite Hinit.
  - apply initialize_fails in Hinit. lia.
Qed.

(** ** Binary64: the order of the comparisons *)

Ltac cmp_cases :=
  repeat match goal with
  | |- context [PosDef.Pos.compare_cont Eq ?a ?b] =>
      change (PosDef.Pos.compare_cont Eq a b) with (Pos.compare a b)
  | H : context [PosDef.Pos.compare_cont Eq ?a ?b] |- _ =>
      change (PosDef.Pos.compare_cont Eq a b) with (Pos.compare a b) in H
  end;
  repeat match goal with
  | H : context [Z.compare ?a ?b] |- _ =>
      destruct (Z.compare_spec a b); simpl in H
  | |- context [Z.compare ?a ?b] =>
      destruct (Z.compare_spec a b); simpl
  | H : context [Pos.compare ?a ?b] |- _ =>
      destruct (Pos.compare_spec a b); simpl in H
  | |- context [Pos.compare ?a ?b] =>
      destruct (Pos.compare_spec a b); simpl
  end;
  subst; try congruence; try lia.

Lemma SFcompare_lt_trans (x y z : spec_float) :
  SFcompare x y = Some Lt -> SFcompare y z = Some Lt ->
  SFcompare x z = Some Lt.
Proof.
  destruct x as [sx|sx| |sx mx ex], y as [sy|sy| |sy my ey],
           z as [sz|sz| |sz mz ez]; simpl;
    try discriminate; try (destruct sx, sy, sz; simpl; congruence);
    try (destruct sx, sy; simpl; congruence);
    try (destruct sx, sz; simpl; congruence);
    try (destruct sy, sz; simpl; congruence).
  destruct sx, sy, sz; simpl; try congruence; intros H1 H2; cmp_cases.
Qed.

Lemma SFcompare_antisym (x y : spec_float) (c : comparison) :
  SFcompare x y = Some c -> SFcompare y x = Some (CompOpp c).
Proof.
  destruct x as [sx|sx| |sx mx ex], y as [sy|sy| |sy my ey]; simpl;
    try discriminate; intros H; injection H as <-; f_equal;
    try destruct sx; try destruct sy; simpl; try reflexivity; cmp_cases.
Qed.

Lemma SFcompare_lt_number (x y : spec_float) :
  SFcompare x y = Some Lt -> SFeqb x x = true /\ SFeqb y y = true.
Proof.
  unfold SFeqb.
  destruct x as [sx|sx| |sx mx ex], y as [sy|sy| |sy my ey]; simpl;
    try discriminate; intros _; split;
    try destruct sx; try destruct sy; simpl; try reflexivity;
    rewrite ?Z.compare_refl;
    change (PosDef.Pos.compare_cont Eq ?a ?b) with (Pos.compare a b);
    rewrite ?Pos.compare_refl; reflexivity.
Qed.

Lemma float_ltb_leb (x y : float) :
  PrimFloat.ltb x y = true -> PrimFloat.leb x y = true.
Proof.
  rewrite ltb_spec, leb_spec. unfold SFltb, SFleb.
  destruct (SFcompare (Prim2SF x) (Prim2SF y)) as [[| |]|]; congruence.
Qed.

Lemma float_ltb_trans (x y z : float) :
  PrimFloat.ltb x y = true -> PrimFloat.ltb y z = true ->
  PrimFloat.ltb x z = true.
Proof.
  rewrite !ltb_spec. unfold SFltb. intros H1 H2.
  destruct (SFcompare (Prim2SF x) (Prim2SF y)) as [[| |]|] eqn:E1;
    try discriminate.
  destruct (SFcompare (Prim2SF y) (Prim2SF z)) as [[| |]|] eqn:E2;
    try discriminate.
  now rewrite (SFcompare_lt_trans _ _ _ E1 E2).
Qed.

Lemma float_ltb_number (x y : float) :
  PrimFloat.ltb x y = true -> is_number x = true /\ is_number y = true.
Proof.
  unfold is_number. rewrite ltb_spec, !FloatAxioms.eqb_spec. unfold SFltb.
  destruct (SFcompare (Prim2SF x) (Prim2SF y)) as [[| |]|] eqn:E;
    try discriminate.
  intros _. now apply SFcompare_lt_number.
Qed.

Lemma float_number_compare (x y : float) :
  is_number x = true -> is_number y = true ->
  exists c, SFcompare (Prim2SF x) (Prim2SF y) = Some c.
Proof.
  unfold is_number. rewrite !FloatAxioms.eqb_spec. unfold SFeqb.
  destruct (Prim2SF x), (Prim2SF y); simpl; try discriminate; eauto.
Qed.

Lemma float_not_ltb (x y : float) :
  is_number x = true -> is_number y = true ->
  PrimFloat.ltb x y = false -> PrimFloat.leb y x = true.
Proof.
  intros Hx Hy. destruct (float_number_compare x y Hx Hy) as [c Hc].
  rewrite ltb_spec, leb_spec. unfold SFltb, SFleb.
  rewrite Hc, (SFcompare_antisym _ _ _ Hc).
  destruct c; simpl; congruence.
Qed.

Lemma float_not_leb (x y : float) :
  is_number x = true -> is_number y = true ->
  PrimFloat.leb x y = false -> PrimFloat.ltb y x = true.
Proof.
  intros Hx Hy. destruct (float_number_compare x y Hx Hy) as [c Hc].
  rewrite ltb_spec, leb_spec. unfold SFltb, SFleb.
  rewrite Hc, (SFcompare_antisym _ _ _ Hc).
  destruct c; simpl; congruence.
Qed.

(** One coordinate of lines 50-52 in binary64, for a grid size [w] whose
    [w - 0.01] rounds between [0] and [w]. *)
Lemma clamp_range_binary64 (w : Z) (x : float) :
  let W := of_int (F:=float) w in
  ltb (of_int 0) (sub W (dec 1 100)) = true ->
  ltb (sub W (dec 1 100)) W = true ->
  let c := py_min (sub W (dec 1 100)) (py_max (of_int 0) x) in
  leb (of_int 0) c = true /\ ltb c W = true.
Proof.
  intros W H0 H1 c. subst c. unfold py_min, py_max.
  cbn [ltb leb float_arith] in *.
  destruct (PrimFloat.ltb (of_int 0) x) eqn:Hx.
  - destruct (PrimFloat.ltb x (sub W (dec 1 100))) eqn:Hx'.
    + split; [now apply float_ltb_leb | eapply float_ltb_trans; eauto].
    + split; [now apply float_ltb_leb | assumption].
  - destruct (PrimFloat.ltb (of_int 0) (sub W (dec 1 100))) eqn:H0'.
    + split; [reflexivity | eapply float_ltb_trans; eauto].
    + discriminate.
Qed.

Lemma in_bounds_range_binary64 (w : Z) (x : float) :
  let W := of_int (F:=float) w in
  is_number x = true -> is_number W = true ->
  ltb x (of_int 0) = false -> leb W x = false ->
  leb (of_int 0) x = true /\ ltb x W = true.
Proof.
  intros W Hx HW H0 H1. cbn [ltb leb float_arith] in *. split.
  - apply float_not_ltb; auto.
  - apply float_not_leb; auto.
Qed.

(** The position lines 46-55 leave, in binary64: on the grid whenever
    the tentative position is made of numbers. *)
Lemma moved_in_bounds_binary64
    (EF : Externals float) (cfg : Config (F:=float)) (a : Agent) (r : float) :
  let W := of_int (F:=float) (width cfg) in
  let H := of_int (F:=float) (height cfg) in
  ltb (of_int 0) (sub W (dec 1 100)) = true ->
  ltb (sub W (dec 1 100)) W = true ->
  ltb (of_int 0) (sub H (dec 1 100)) = true ->
  ltb (sub H (dec 1 100)) H = true ->
  is_number (fst (tentative cfg a)) = true ->
  is_number (snd (tentative cfg a)) = true ->
  let p := pos (moved cfg a r) in
  (leb (of_int 0) (fst p) = true /\ ltb (fst p) W = true) /\
  (leb (of_int 0) (snd p) = true /\ ltb (snd p) H = true).
Proof.
  intros W H HW0 HW1 HH0 HH1 Nx Ny p. subst p. unfold moved.
  destruct (out_of_bounds cfg (tentative cfg a)) eqn:Hb; cbn [pos].
  - unfold constrain. cbn [fst snd].
    split; now apply clamp_range_binary64.
  - unfold out_of_bounds in Hb. rewrite !orb_false_iff in Hb.
    destruct Hb as [[[Hx0 Hx1] Hy0] Hy1].
    destruct (float_ltb_number _ _ HW1) as [_ NW].
    destruct (float_ltb_number _ _ HH1) as [_ NH].
    split; now apply in_bounds_range_binary64.
Qed.

Lemma evaporate_cell_nonneg_binary64 (cfg : Config (F:=float)) (v : float) :
  leb (of_int 0) (evaporate_cell cfg v) = true.
Proof.
  destruct (evaporate_cell_cases cfg v) as [-> | H].
  - reflexivity.
  - now apply float_ltb_leb.
Qed.

Lemma float_eqb_not_ltb (x y : float) :
  PrimFloat.eqb x y = true ->
  PrimFloat.ltb x y = false /\ PrimFloat.ltb y x = false.
Proof.
  rewrite FloatAxioms.eqb_spec, !ltb_spec. unfold SFeqb, SFltb.
  destruct (SFcompare (Prim2SF x) (Prim2SF y)) as [c|] eqn:E; [|discriminate].
  rewrite (SFcompare_antisym _ _ _ E). destruct c; simpl; try discriminate.
  auto.
Qed.

(** ** The code at work in binary64 *)

(** An agent at (10, 10) heading along x moves to (11, 10), leaves a [1]
    there and, all weights being equal, keeps its heading; one draw is
    consumed. *)
Example simple_move_binary64 :
  exists a' w',
    update_agent (EF:=example_externals) (sized_config 20 20 1 1)
      {| pos := (of_int 10, of_int 10); angle := of_int 0 |}
      example_world_binary64 = Some (a', w') /\
    a' = {| pos := (of_int 11, of_int 10); angle := of_int 0 |} /\
    grid_get (DrawMap w') 11 10 = Some (of_int 1) /\
    cursor (generator w') = 1%nat.
Proof.
  eexists _, _. split; [vm_compute; reflexivity|].
  repeat split; vm_compute; reflexivity.
Qed.

(** An agent at (19.95, 10) heading along x would leave the grid: it is
    put at [20 - 0.01], writes the cell (19, 10) and consumes two
    draws. *)
Example boundary_move_binary64 :
  exists a' w',
    update_agent (EF:=example_externals) (sized_config 20 20 1 1)
      {| pos := (sub (of_int 20) (dec 5 100), of_int 10); angle := of_int 0 |}
      example_world_binary64 = Some (a', w') /\
    pos a' = (sub (of_int 20) (dec 1 100), of_int 10) /\
    ltb (fst (pos a')) (of_int 20) = true /\
    grid_get (DrawMap w') 19 10 = Some (of_int 1) /\
    cursor (generator w') = 2%nat.
Proof.
  eexists _, _. split; [vm_compute; reflexivity|].
  repeat split; vm_compute; reflexivity.
Qed.

(** ** Binary64: a nan *)

Lemma not_number_nan (x : float) :
  is_number x = false -> Prim2SF x = S754_nan.
Proof.
  unfold is_number. rewrite FloatAxioms.eqb_spec. unfold SFeqb, SFcompare.
  destruct (Prim2SF x) as [s|s| |s m e]; try reflexivity.
  - discriminate.
  - destruct s; discriminate.
  - destruct s; rewrite Z.compare_refl, Pos.compare_cont_refl; discriminate.
Qed.

Lemma float_trunc_nan (x : float) :
  is_number x = false -> float_trunc x = None.
Proof.
  intros H. unfold float_trunc. now rewrite (not_number_nan x H).
Qed.

Lemma float_ltb_nan (x y : float) :
  is_number y = false -> PrimFloat.ltb x y = false.
Proof.
  intros H. destruct (PrimFloat.ltb x y) eqn:E; [|reflexivity].
  apply float_ltb_number in E. destruct E as [_ E]. congruence.
Qed.

Lemma not_number_is_nan (x : float) :
  is_number x = false -> x = PrimFloat.nan.
Proof.
  intros H. apply Prim2SF_inj. now rewrite (not_number_nan x H).
Qed.

Lemma float_nan_mul (y : float) : PrimFloat.mul PrimFloat.nan y = PrimFloat.nan.
Proof. apply Prim2SF_inj. rewrite mul_spec. reflexivity. Qed.

Lemma float_add_nan (x : float) : PrimFloat.add x PrimFloat.nan = PrimFloat.nan.
Proof.
  apply Prim2SF_inj. rewrite add_spec.
  change (Prim2SF PrimFloat.nan) with S754_nan.
  destruct (Prim2SF x); reflexivity.
Qed.

Lemma float_nan_ltb (y : float) : PrimFloat.ltb PrimFloat.nan y = false.
Proof.
  rewrite ltb_spec. change (Prim2SF PrimFloat.nan) with S754_nan. reflexivity.
Qed.

Lemma float_leb_nan (x : float) : PrimFloat.leb x PrimFloat.nan = false.
Proof.
  rewrite leb_spec. change (Prim2SF PrimFloat.nan) with S754_nan.
  unfold SFleb, SFcompare. destruct (Prim2SF x); reflexivity.
Qed.

(** An agent whose heading has neither a cosine nor a sine, as an
    infinite heading in numpy: the tentative position is made of
    nans, the test of line 49 does not fire, and the conversion of the
    position to a cell raises. *)
Lemma update_agent_nan_heading
    (EF : Externals float) (cfg : Config) (a : Agent) (w : World) :
  is_number (cos (angle a)) = false ->
  is_number (sin (angle a)) = false ->
  update_agent cfg a w = None.
Proof.
  intros Hcos Hsin.
  assert (Ht : tentative cfg a = (PrimFloat.nan, PrimFloat.nan)).
  { unfold tentative. cbn [add mul float_arith].
    rewrite (not_number_is_nan _ Hcos), (not_number_is_nan _ Hsin).
    now rewrite !float_nan_mul, !float_add_nan. }
  unfold update_agent. cbv zeta. rewrite Ht.
  unfold out_of_bounds. cbn [fst snd ltb leb float_arith].
  rewrite !float_nan_ltb, !float_leb_nan. cbn [orb].
  unfold bind at 1, ret at 1. cbn [pos fst snd].
  unfold bind at 1, lift at 1. cbn [trunc float_arith].
  reflexivity.
Qed.

(** ** The draws a run takes *)

Section Reads.

Context {F : Type} {AF : Arith F} {EF : Externals F}.
Variable cfg : Config (F:=F).

Lemma world_agree_before_refl (b : nat) (w : World (F:=F)) :
  world_agree_before b w w.
Proof. repeat split. Qed.

Lemma reads_ret {A : Type} (a : A) : reads_between (F:=F) 0 0 (ret a).
Proof.
  intros w1 w2 b H Hb. unfold ret.
  split; [reflexivity|]. split; [exact H|]. lia.
Qed.

Lemma reads_weaken {A : Type} (lo hi lo' hi' : nat) (c : M (F:=F) A) :
  (lo' <= lo)%nat -> (hi <= hi')%nat ->
  reads_between lo hi c -> reads_between lo' hi' c.
Proof.
  intros Hlo Hhi Hc w1 w2 b H Hb.
  assert (Hb' : (cursor (generator w1) + hi <= b)%nat) by lia.
  specialize (Hc w1 w2 b H Hb').
  destruct (c w1) as [[a1 w1']|], (c w2) as [[a2 w2']|]; try exact Hc.
  destruct Hc as (E & Hw & H1 & H2). repeat split; try assumption; try apply Hw; lia.
Qed.

(** The continuation need only behave on the values the first part
    returns. *)
Lemma reads_bind_post {A B : Type} (P : A -> Prop) (l1 h1 l2 h2 : nat)
    (c : M (F:=F) A) (k : A -> M (F:=F) B) :
  reads_between l1 h1 c ->
  (forall w a w', c w = Some (a, w') -> P a) ->
  (forall a, P a -> reads_between l2 h2 (k a)) ->
  reads_between (l1 + l2) (h1 + h2) (bind c k).
Proof.
  intros Hc HP Hk w1 w2 b H Hb. unfold bind.
  assert (Hb1 : (cursor (generator w1) + h1 <= b)%nat) by lia.
  specialize (Hc w1 w2 b H Hb1). pose proof (HP w1) as HP1.
  destruct (c w1) as [[a1 w1']|], (c w2) as [[a2 w2']|];
    try contradiction; [|exact I].
  destruct Hc as (<- & Hw & Hlo & Hhi).
  assert (Hb2 : (cursor (generator w1') + h2 <= b)%nat) by lia.
  specialize (Hk a1 (HP1 _ _ eq_refl) w1' w2' b Hw Hb2).
  destruct (k a1 w1') as [[b1 w1'']|], (k a1 w2') as [[b2 w2'']|];
    try contradiction; [|exact I].
  destruct Hk as (E & Hw' & Hlo' & Hhi').
  split; [exact E|]. split; [exact Hw'|]. lia.
Qed.

Lemma reads_bind {A B : Type} (l1 h1 l2 h2 : nat)
    (c : M (F:=F) A) (k : A -> M (F:=F) B) :
  reads_between l1 h1 c ->
  (forall a, reads_between l2 h2 (k a)) ->
  reads_between (l1 + l2) (h1 + h2) (bind c k).
Proof.
  intros Hc Hk. apply (reads_bind_post (fun _ => True)); auto.
Qed.

Lemma reads_lift {A : Type} (o : option A) : reads_between (F:=F) 0 0 (lift o).
Proof.
  intros w1 w2 b H Hb. unfold lift. destruct o; [|exact I].
  split; [reflexivity|]. split; [exact H|]. lia.
Qed.

Lemma reads_random : reads_between (F:=F) (A:=F) 1 1 random.
Proof.
  intros w1 w2 b (Hm & Hc & Hd) Hb. unfold random.
  cbn [DrawMap generator draws cursor].
  split; [rewrite <- Hc; apply Hd; lia|].
  split; [|lia].
  split; [exact Hm|]. split; [cbn; now rewrite Hc|].
  intros k Hk. cbn [generator cursor] in Hk. apply Hd. lia.
Qed.

Lemma reads_get_map {A : Type} (lo hi : nat)
    (k : Grid (F:=F) -> M (F:=F) A) :
  (forall m, reads_between lo hi (k m)) ->
  reads_between lo hi (bind get_map k).
Proof.
  intros Hk w1 w2 b H Hb. unfold bind, get_map.
  destruct H as (Hm & Hg). rewrite <- Hm.
  apply (Hk (DrawMap w1) w1 w2 b); [split; assumption | exact Hb].
Qed.

Lemma reads_put_map (m : Grid (F:=F)) : reads_between 0 0 (put_map m).
Proof.
  intros w1 w2 b (_ & Hc & Hd) Hb. unfold put_map.
  cbn [DrawMap generator draws cursor].
  split; [reflexivity|]. split; [|lia].
  split; [reflexivity|]. split; assumption.
Qed.

Lemma for_each_length {A B : Type} (f : A -> M (F:=F) B) (l : list A)
    (w : World (F:=F)) (l' : list B) (w' : World (F:=F)) :
  for_each f l w = Some (l', w') -> length l' = length l.
Proof.
  revert w l' w'. induction l as [|x l IH]; intros w l' w'; cbn [for_each].
  - unfold ret. intros H. injection H as <- _. reflexivity.
  - unfold bind at 1. destruct (f x w) as [[y w1]|]; [|discriminate].
    unfold bind. destruct (for_each f l w1) as [[ys w2]|] eqn:E; [|discriminate].
    unfold ret. intros H. injection H as <- _.
    cbn [length]. f_equal. eapply IH; eauto.
Qed.

Lemma reads_for_each {A B : Type} (lo hi : nat) (f : A -> M (F:=F) B)
    (l : list A) :
  (forall a, reads_between lo hi (f a)) ->
  reads_between (lo * length l) (hi * length l) (for_each f l).
Proof.
  intros Hf. induction l as [|x l IH]; cbn [for_each length].
  - rewrite !Nat.mul_0_r. apply reads_ret.
  - apply (reads_weaken (lo + (lo * length l + 0)) (hi + (hi * length l + 0)));
      [lia | lia |].
    apply reads_bind; [apply Hf|]. intros y.
    apply reads_bind; [apply IH|]. intros ys. apply reads_ret.
Qed.

Lemma reads_steer (a : Agent (F:=F)) : reads_between 1 1 (steer cfg a).
Proof.
  unfold steer. apply reads_get_map. intros m.
  apply (reads_bind 0 0 1 1); [apply reads_lift|]. intros wF.
  apply (reads_bind 0 0 1 1); [apply reads_lift|]. intros wL.
  apply (reads_bind 0 0 1 1); [apply reads_lift|]. intros wR.
  apply (reads_bind 1 1 0 0); [apply reads_random|]. intros r.
  apply reads_ret.
Qed.

Lemma reads_update_agent (a : Agent (F:=F)) :
  reads_between 1 2 (update_agent cfg a).
Proof.
  unfold update_agent. cbv zeta.
  apply (reads_bind 0 1 1 1).
  - destruct (out_of_bounds cfg (tentative cfg a)).
    + apply (reads_weaken 1 1); [lia | lia |].
      apply (reads_bind 1 1 0 0); [apply reads_random|].
      intros r. apply reads_ret.
    + apply (reads_weaken 0 0); [lia | lia | apply reads_ret].
  - intros a1.
    apply (reads_bind 0 0 1 1); [apply reads_lift|]. intros i.
    apply (reads_bind 0 0 1 1); [apply reads_lift|]. intros j.
    apply reads_get_map. intros m.
    apply (reads_bind 0 0 1 1); [apply reads_lift|]. intros m'.
    apply (reads_bind 0 0 1 1); [apply reads_put_map|]. intros _.
    apply reads_steer.
Qed.

Lemma run_step_length (agents agents' : list (Agent (F:=F)))
    (w w' : World (F:=F)) :
  run_step cfg agents w = Some (agents', w') ->
  length agents' = length agents.
Proof.
  unfold run_step. unfold bind at 1.
  destruct (for_each (update_agent cfg) agents w) as [[agents1 w1]|] eqn:Hrun;
    [|discriminate].
  unfold bind, get_map, put_map, lift, ret.
  destruct (evaporate_map cfg _) as [m2|]; [|discriminate].
  intros H. injection H as <- _. eapply for_each_length; eauto.
Qed.

Lemma reads_run_step (agents : list (Agent (F:=F))) :
  reads_between (length agents) (2 * length agents) (run_step cfg agents).
Proof.
  unfold run_step.
  apply (reads_weaken (1 * length agents + 0) (2 * length agents + 0));
    [lia | lia |].
  apply reads_bind; [apply reads_for_each, reads_update_agent|].
  intros agents'. apply reads_get_map. intros m.
  apply (reads_bind 0 0 0 0); [apply reads_put_map|]. intros _.
  apply reads_get_map. intros m1.
  apply (reads_bind 0 0 0 0); [apply reads_lift|]. intros m2.
  apply (reads_bind 0 0 0 0); [apply reads_put_map|]. intros _.
  apply reads_ret.
Qed.

Lemma reads_main_loop (n : nat) (agents : list (Agent (F:=F))) :
  reads_between (n * length agents) (2 * n * length agents)
                (main_loop cfg n agents).
Proof.
  revert agents. induction n as [|n IH]; intros agents; cbn [main_loop].
  - apply reads_ret.
  - apply (reads_weaken (length agents + (n * length agents + 0))
                        (2 * length agents + (2 * n * length agents + 0)));
      [lia | lia |].
    apply (reads_bind_post (fun agents' => length agents' = length agents));
      [apply reads_run_step
      | intros w a w'; apply run_step_length |].
    intros agents' <-. apply reads_get_map. intros m.
    apply reads_bind; [apply IH|]. intros frames. apply reads_ret.
Qed.

Lemma main_loop_population (n : nat) (agents : list (Agent (F:=F)))
    (w : World (F:=F)) (frames : list (Frame (F:=F))) (w' : World (F:=F)) :
  main_loop cfg n agents w = Some (frames, w') ->
  length frames = n /\
  Forall (fun fr => length (fst fr) = length agents) frames.
Proof.
  revert agents w frames w'.
  induction n as [|n IH]; intros agents w frames w'; cbn [main_loop].
  - unfold ret. intros H. injection H as <- _. split; [reflexivity | constructor].
  - unfold bind at 1.
    destruct (run_step cfg agents w) as [[agents1 w1]|] eqn:Hrun; [|discriminate].
    unfold bind, get_map.
    destruct (main_loop cfg n agents1 w1) as [[frames1 w2]|] eqn:Hloop;
      [|discriminate].
    unfold ret. intros H. injection H as <- _.
    apply run_step_length in Hrun. apply IH in Hloop.
    destruct Hloop as [Hlen Hall]. split; [cbn; now rewrite Hlen|].
    constructor; [exact Hrun|]. now rewrite <- Hrun.
Qed.

Lemma reads_make_agents :
  reads_between (3 * Z.to_nat (nrAgents cfg)) (3 * Z.to_nat (nrAgents cfg))
                (make_agents cfg).
Proof.
  unfold make_agents.
  rewrite <- (length_range (nrAgents cfg)) at 1 2.
  apply reads_for_each. intros z. unfold new_agent.
  apply (reads_bind 1 1 2 2); [apply reads_random|]. intros x.
  apply (reads_bind 1 1 1 1); [apply reads_random|]. intros y.
  apply (reads_bind 1 1 0 0); [apply reads_random|]. intros t.
  apply reads_ret.
Qed.

Lemma make_agents_length (w : World (F:=F)) (agents : list (Agent (F:=F)))
    (w' : World (F:=F)) :
  make_agents cfg w = Some (agents, w') ->
  length agents = Z.to_nat (nrAgents cfg).
Proof.
  unfold make_agents. intros H. apply for_each_length in H.
  now rewrite length_range in H.
Qed.

(** The draws [construct] takes: three for each agent at the start,
    then between one and two for each agent in each step. *)
Lemma reads_construct_world :
  reads_between
    ((3 + Z.to_nat (N cfg)) * Z.to_nat (nrAgents cfg))
    ((3 + 2 * Z.to_nat (N cfg)) * Z.to_nat (nrAgents cfg))
    (agents <- make_agents cfg ;; main_loop cfg (Z.to_nat (N cfg)) agents).
Proof.
  apply (reads_weaken
           (3 * Z.to_nat (nrAgents cfg)
            + Z.to_nat (N cfg) * Z.to_nat (nrAgents cfg))
           (3 * Z.to_nat (nrAgents cfg)
            + 2 * Z.to_nat (N cfg) * Z.to_nat (nrAgents cfg)));
    [lia | lia |].
  apply (reads_bind_post
           (fun agents => length agents = Z.to_nat (nrAgents cfg)));
    [apply reads_make_agents | apply make_agents_length |].
  intros agents <-. apply reads_main_loop.
Qed.

Lemma construct_as_bind (g : Rng (F:=F)) :
  construct cfg g
  = match np_zeros (width cfg) (height cfg) with
    | None => None
    | Some m0 =>
        (agents <- make_agents cfg ;; main_loop cfg (Z.to_nat (N cfg)) agents)
          {| DrawMap := m0; generator := g |}
    end.
Proof.
  unfold construct, initialize, bind.
  destruct (np_zeros (width cfg) (height cfg)) as [m0|]; [|reflexivity].
  destruct (make_agents cfg _) as [[agents w]|]; reflexivity.
Qed.

End Reads.

(** * The claims *)

(** C1.  In exact arithmetic, with [width] and [height] at least 1: on
    an array of the shape [(width, height)], [update_agent] returns, and
    the position it leaves satisfies [0 <= x < width] and [0 <= y <
    height].  When the tentative position is off the grid on some axis,
    the position is the tentative one clamped into [[0, width - 0.01] x
    [0, height - 0.01]] (so [0] on the low side and [width - 0.01] on
    the high side); otherwise it is the tentative position itself.
    Hence in every frame of a run every agent is on the grid.  In
    binary64 the same bounds hold for the position [update_agent]
    leaves, whenever the tentative position is made of numbers and
    [width - 0.01], [height - 0.01] round between [0] and [width],
    [height]. *)
Theorem update_agent_position_in_grid :
  (forall (EF : Externals Q) (cfg : Config),
     (1 <= width cfg)%Z -> (1 <= height cfg)%Z ->
     (forall (a : Agent) (w : World),
        grid_shape (DrawMap w) (width cfg) (height cfg) ->
        exists a' w',
          update_agent cfg a w = Some (a', w') /\
          agent_in_grid cfg a' /\
          (if out_of_bounds cfg (tentative cfg a)
           then (fst (pos a') == Qmin (inject_Z (width cfg) - (1 # 100))
                                      (Qmax 0 (fst (tentative cfg a))))%Q /\
                (snd (pos a') == Qmin (inject_Z (height cfg) - (1 # 100))
                                      (Qmax 0 (snd (tentative cfg a))))%Q
           else pos a' = tentative cfg a))
     /\
     ((forall m sigma,
         grid_shape m (width cfg) (height cfg) ->
         grid_shape (gaussian_filter m sigma) (width cfg) (height cfg)) ->
      forall g : Rng,
      exists frames w,
        construct cfg g = Some (frames, w) /\
        Forall (fun fr => Forall (agent_in_grid cfg) (fst fr)) frames))
  /\
  (forall (EF : Externals float) (cfg : Config) (a a' : Agent) (w w' : World),
     let W := of_int (F:=float) (width cfg) in
     let H := of_int (F:=float) (height cfg) in
     ltb (of_int 0) (sub W (dec 1 100)) = true ->
     ltb (sub W (dec 1 100)) W = true ->
     ltb (of_int 0) (sub H (dec 1 100)) = true ->
     ltb (sub H (dec 1 100)) H = true ->
     is_number (fst (tentative cfg a)) = true ->
     is_number (snd (tentative cfg a)) = true ->
     update_agent cfg a w = Some (a', w') ->
     (leb (of_int 0) (fst (pos a')) = true /\ ltb (fst (pos a')) W = true) /\
     (leb (of_int 0) (snd (pos a')) = true /\ ltb (snd (pos a')) H = true)).
Proof.
  split.
  - intros EF cfg Hw Hh. split.
    + intros a w Hs.
      destruct (update_agent_exact cfg Hw Hh a w Hs)
        as (m' & wF & wL & wR & _ & _ & _ & _ & Hrun).
      eexists _, _. split; [exact Hrun|].
      unfold agent_in_grid. rewrite steer_angle_keeps_pos.
      split;
        [exact (moved_in_bounds cfg Hw Hh a
                  (draws (generator w) (cursor (generator w))))|].
      unfold moved. destruct (out_of_bounds cfg (tentative cfg a)).
      * cbn [pos constrain fst snd]. split; apply clamp_nearest.
      * reflexivity.
    + intros Hb g.
      destruct (construct_frames EF cfg g Hw Hh Hb)
        as (agents & w0 & frames & w & _ & Hrun & _ & Hall).
      exists frames, w. split; [exact Hrun|].
      eapply Forall_impl; [|exact Hall]. intros fr [H _]. exact H.
  - intros EF cfg a a' w w' W H HW0 HW1 HH0 HH1 Nx Ny Hrun.
    rewrite (update_agent_pos cfg a a' w w' Hrun).
    now apply moved_in_bounds_binary64.
Qed.

(** C1 at an agent about to cross the high x side of its grid, in exact
    arithmetic on the 8 x 6 grid and in binary64 on the 20 x 20 grid,
    and on a run of two steps with two agents. *)
Lemma update_agent_position_in_grid_witness :
  (exists a' w',
     update_agent (EF:=example_externals) (sized_config 8 6 2 2)
                  example_agent_at_edge example_world = Some (a', w') /\
     (0 <= fst (pos a') < 8)%Q /\ (0 <= snd (pos a') < 6)%Q)
  /\
  (exists frames w,
     construct (EF:=example_externals) (sized_config 8 6 2 2) example_rng
     = Some (frames, w) /\
     Forall (fun fr => Forall (agent_in_grid (sized_config 8 6 2 2)) (fst fr))
            frames)
  /\
  (exists a' w',
     update_agent (EF:=example_externals) (sized_config 20 20 1 1)
       {| pos := (sub (of_int 20) (dec 5 100), of_int 10); angle := of_int 0 |}
       example_world_binary64 = Some (a', w') /\
     leb (of_int 0) (fst (pos a')) = true /\
     ltb (fst (pos a')) (of_int 20) = true).
Proof.
  destruct (proj1 update_agent_position_in_grid example_externals
              (sized_config 8 6 2 2)) as [Hcall Hrun].
  - vm_compute. discriminate.
  - vm_compute. discriminate.
  - split; [|split].
    + destruct (Hcall example_agent_at_edge example_world)
        as (a' & w' & H & [Hx Hy] & _).
      * split; [reflexivity|]. repeat constructor.
      * exists a', w'. repeat split; try exact H; try apply Hx; try apply Hy.
    + apply Hrun. intros m sigma H. exact H.
    + eexists _, _. split; [vm_compute; reflexivity|].
      eapply (proj2 update_agent_position_in_grid example_externals
                (sized_config 20 20 1 1)
                {| pos := (sub (of_int 20) (dec 5 100), of_int 10);
                   angle := of_int 0 |} _ example_world_binary64);
        vm_compute; reflexivity.
Defined.




(** C3.  The deposit of [update_agent] writes the value [1] into the
    cell obtained by truncating the final position, whatever the cell
    held.  When two agents are updated one after the other, the cell of
    each holds exactly [1] afterwards, also when it is the same cell
    for both.  The first part is in exact arithmetic, where the calls
    are shown to return; the second holds in any arithmetic for calls
    that return. *)
Theorem deposit_overwrites :
  (forall (EF : Externals Q) (cfg : Config) (a1 a2 : Agent) (w : World),
     (1 <= width cfg)%Z -> (1 <= height cfg)%Z ->
     grid_shape (DrawMap w) (width cfg) (height cfg) ->
     exists a1' w1 a2' w2,
       update_agent cfg a1 w = Some (a1', w1) /\
       update_agent cfg a2 w1 = Some (a2', w2) /\
       grid_set (DrawMap w) (fst (cell_of a1')) (snd (cell_of a1')) 1%Q
       = Some (DrawMap w1) /\
       grid_set (DrawMap w1) (fst (cell_of a2')) (snd (cell_of a2')) 1%Q
       = Some (DrawMap w2) /\
       grid_get (DrawMap w1) (fst (cell_of a1')) (snd (cell_of a1'))
       = Some 1%Q /\
       grid_get (DrawMap w2) (fst (cell_of a2')) (snd (cell_of a2'))
       = Some 1%Q /\
       grid_get (DrawMap w2) (fst (cell_of a1')) (snd (cell_of a1'))
       = Some 1%Q)
  /\
  (forall (F : Type) (AF : Arith F) (EF : Externals F) (cfg : Config)
          (a1 a2 a1' a2' : Agent) (w w1 w2 : World),
     update_agent cfg a1 w = Some (a1', w1) ->
     update_agent cfg a2 w1 = Some (a2', w2) ->
     exists i1 j1 i2 j2,
       trunc (fst (pos a1')) = Some i1 /\ trunc (snd (pos a1')) = Some j1 /\
       trunc (fst (pos a2')) = Some i2 /\ trunc (snd (pos a2')) = Some j2 /\
       grid_set (DrawMap w) i1 j1 (of_int 1) = Some (DrawMap w1) /\
       grid_set (DrawMap w1) i2 j2 (of_int 1) = Some (DrawMap w2) /\
       grid_get (DrawMap w1) i1 j1 = Some (of_int 1) /\
       grid_get (DrawMap w2) i2 j2 = Some (of_int 1)).
Proof.
  split.
  - intros EF cfg a1 a2 w Hw Hh Hs.
    destruct (update_agent_deposit cfg Hw Hh a1 w Hs)
      as (a1' & m1 & Hrun1 & _ & Hi1 & Hj1 & Hset1 & Hs1).
    set (w1 := world_after w m1 _) in Hrun1.
    destruct (update_agent_deposit cfg Hw Hh a2 w1 Hs1)
      as (a2' & m2 & Hrun2 & _ & Hi2 & Hj2 & Hset2 & Hs2).
    set (w2 := world_after w1 m2 _) in Hrun2.
    assert (G1 : grid_get m1 (fst (cell_of a1')) (snd (cell_of a1'))
                 = Some 1%Q)
      by exact (grid_get_set_same (DrawMap w) m1 _ _ _ _ _ Hs Hi1 Hj1 Hset1).
    assert (G2 : grid_get m2 (fst (cell_of a2')) (snd (cell_of a2'))
                 = Some 1%Q)
      by exact (grid_get_set_same m1 m2 _ _ _ _ _ Hs1 Hi2 Hj2 Hset2).
    exists a1', w1, a2', w2. cbn [DrawMap w1 w2 world_after] in *.
    repeat split; try assumption.
    destruct (Z.eq_dec (fst (cell_of a1')) (fst (cell_of a2'))) as [Ei|Ni];
      [destruct (Z.eq_dec (snd (cell_of a1')) (snd (cell_of a2'))) as [Ej|Nj]|].
    + rewrite Ei, Ej. exact G2.
    + rewrite <- G1.
      apply (grid_get_set_other m1 m2 _ _ _ _ _ _ 1%Q Hs1 Hi2 Hj2 Hi1 Hj1);
        [congruence | exact Hset2].
    + rewrite <- G1.
      apply (grid_get_set_other m1 m2 _ _ _ _ _ _ 1%Q Hs1 Hi2 Hj2 Hi1 Hj1);
        [congruence | exact Hset2].
  - intros F AF EF cfg a1 a2 a1' a2' w w1 w2 Hrun1 Hrun2.
    destruct (update_agent_writes cfg a1 a1' w w1 Hrun1)
      as (i1 & j1 & Hi1 & Hj1 & Hset1 & Hget1).
    destruct (update_agent_writes cfg a2 a2' w1 w2 Hrun2)
      as (i2 & j2 & Hi2 & Hj2 & Hset2 & Hget2).
    exists i1, j1, i2, j2. repeat split; assumption.
Qed.

(** C3 with two agents landing on the same cell, in exact arithmetic on
    the 8 x 6 grid and in binary64 on the 20 x 20 grid. *)
Lemma deposit_overwrites_witness :
  (exists a1' w1 a2' w2,
     update_agent (EF:=example_externals) (sized_config 8 6 2 2)
                  example_agent example_world = Some (a1', w1) /\
     update_agent (EF:=example_externals) (sized_config 8 6 2 2)
                  example_agent w1 = Some (a2', w2) /\
     grid_get (DrawMap w2) (fst (cell_of a1')) (snd (cell_of a1')) = Some 1%Q)
  /\
  (exists a1' w1 a2' w2,
     update_agent (EF:=example_externals) (sized_config 20 20 1 1)
                  example_agent_binary64 example_world_binary64
     = Some (a1', w1) /\
     update_agent (EF:=example_externals) (sized_config 20 20 1 1)
                  example_agent_binary64 w1 = Some (a2', w2) /\
     grid_get (DrawMap w1) 11 10 = Some (of_int 1) /\
     grid_get (DrawMap w2) 11 10 = Some (of_int 1)).
Proof.
  split.
  - destruct (proj1 deposit_overwrites example_externals
                (sized_config 8 6 2 2) example_agent example_agent
                example_world)
      as (a1' & w1 & a2' & w2 & H1 & H2 & _ & _ & _ & _ & H3).
    + vm_compute. discriminate.
    + vm_compute. discriminate.
    + split; [reflexivity|]. repeat constructor.
    + exists a1', w1, a2', w2. auto.
  - destruct (update_agent (EF:=example_externals) (sized_config 20 20 1 1)
                example_agent_binary64 example_world_binary64)
      as [[a1' w1]|] eqn:H1; [|vm_compute in H1; discriminate].
    destruct (update_agent (EF:=example_externals) (sized_config 20 20 1 1)
                example_agent_binary64 w1)
      as [[a2' w2]|] eqn:H2;
      [|vm_compute in H1; injection H1 as <- <-; vm_compute in H2;
        discriminate].
    destruct (proj2 deposit_overwrites float float_arith example_externals
                (sized_config 20 20 1 1) _ _ _ _ _ _ _ H1 H2)
      as (i1 & j1 & i2 & j2 & Hi1 & Hj1 & Hi2 & Hj2 & _ & _ & G1 & G2).
    exists a1', w1, a2', w2. split; [reflexivity|]. split; [exact H2|].
    vm_compute in H1. injection H1 as <- <-.
    vm_compute in H2. injection H2 as <- <-.
    vm_compute in Hi1, Hj1, Hi2, Hj2.
    injection Hi1 as <-. injection Hj1 as <-.
    injection Hi2 as <-. injection Hj2 as <-.
    split; [exact G1 | exact G2].
Defined.

(** C4.  One pass of the main loop.  In exact arithmetic, on an array of
    the right shape, it returns, and: the agents take their turns one
    at a time in list order, each one moving, depositing and then
    steering on the array as the agents before it and its own deposit
    left it; when all are done the array is blurred, and the blurred
    array is evaporated cell by cell.  In any arithmetic, a pass that
    returns went through these phases in this order. *)
Theorem run_step_order :
  (forall (EF : Externals Q) (cfg : Config) (agents : list Agent) (w : World),
     (1 <= width cfg)%Z -> (1 <= height cfg)%Z ->
     (forall m sigma,
        grid_shape m (width cfg) (height cfg) ->
        grid_shape (gaussian_filter m sigma) (width cfg) (height cfg)) ->
     grid_shape (DrawMap w) (width cfg) (height cfg) ->
     exists agents' w1,
       agent_pass cfg agents w agents' w1 /\
       evaporate_map cfg (diffuse cfg (DrawMap w1))
       = Some (map (map (evaporate_cell cfg))
                   (gaussian_filter (DrawMap w1) (diffuseFaktor cfg))) /\
       run_step cfg agents w
       = Some (agents',
               {| DrawMap := map (map (evaporate_cell cfg))
                                 (gaussian_filter (DrawMap w1)
                                                  (diffuseFaktor cfg));
                  generator := generator w1 |}))
  /\
  (forall (F : Type) (AF : Arith F) (EF : Externals F) (cfg : Config)
          (agents agents' : list Agent) (w w' : World),
     run_step cfg agents w = Some (agents', w') ->
     exists w1,
       agent_pass cfg agents w agents' w1 /\
       evaporate_map cfg (gaussian_filter (DrawMap w1) (diffuseFaktor cfg))
       = Some (DrawMap w') /\
       generator w' = generator w1).
Proof.
  split.
  - intros EF cfg agents w Hw Hh Hb Hs.
    destruct (for_each_update_pass cfg Hw Hh agents w Hs)
      as (agents' & w1 & Hrun & Hpass & Hs1).
    pose proof (evaporate_map_cellwise cfg _ (Hb _ (diffuseFaktor cfg) Hs1))
      as He.
    exists agents', w1. split; [assumption|]. split; [exact He|].
    unfold run_step, bind. rewrite Hrun.
    cbn [get_map put_map lift DrawMap generator].
    unfold diffuse in *. rewrite He. reflexivity.
  - intros F AF EF cfg agents agents' w w'. apply run_step_sound.
Qed.

(** C4 for two agents on the 8 x 6 grid in exact arithmetic, and for one
    agent on the 20 x 20 grid in binary64. *)
Lemma run_step_order_witness :
  (exists agents' w1,
     agent_pass (EF:=example_externals) (sized_config 8 6 2 2)
                [example_agent; example_agent_at_edge] example_world
                agents' w1 /\
     run_step (EF:=example_externals) (sized_config 8 6 2 2)
              [example_agent; example_agent_at_edge] example_world
     = Some (agents',
             {| DrawMap := map (map (evaporate_cell (sized_config 8 6 2 2)))
                               (DrawMap w1);
                generator := generator w1 |}))
  /\
  (exists agents' w' w1,
     run_step (EF:=example_externals) (sized_config 20 20 1 1)
              [example_agent_binary64] example_world_binary64
     = Some (agents', w') /\
     agent_pass (EF:=example_externals) (sized_config 20 20 1 1)
                [example_agent_binary64] example_world_binary64 agents' w1 /\
     evaporate_map (sized_config 20 20 1 1) (DrawMap w1) = Some (DrawMap w')).
Proof.
  split.
  - destruct (proj1 run_step_order example_externals (sized_config 8 6 2 2)
                [example_agent; example_agent_at_edge] example_world)
      as (agents' & w1 & Hpass & _ & Hstep).
    + vm_compute. discriminate.
    + vm_compute. discriminate.
    + intros m sigma H. exact H.
    + split; [reflexivity|]. repeat constructor.
    + exists agents', w1. split; [exact Hpass | exact Hstep].
  - destruct (run_step (EF:=example_externals) (sized_config 20 20 1 1)
                [example_agent_binary64] example_world_binary64)
      as [[agents' w']|] eqn:H; [|vm_compute in H; discriminate].
    destruct (proj2 run_step_order float float_arith example_externals
                (sized_config 20 20 1 1) _ _ _ _ H)
      as (w1 & Hpass & He & _).
    exists agents', w', w1. split; [reflexivity|]. split; assumption.
Defined.

(** C5.  On an array of the shape [(width, height)], [evaporate_map]
    returns and every cell of the result is [evaporate_cell] of the same
    cell before, in exact arithmetic and in binary64.  [evaporate_cell]
    is [max(0, v - evaporateSpeed * deltaTime)] and is never negative,
    again in both.  Hence, in exact arithmetic, in every frame of a run
    no cell of the array is negative. *)
Theorem evaporate_map_decays :
  (forall (cfg : Config) (m : Grid (F:=Q)),
     grid_shape m (width cfg) (height cfg) ->
     exists m',
       evaporate_map cfg m = Some m' /\
       (forall i j,
          grid_get m' i j = option_map (evaporate_cell cfg) (grid_get m i j)) /\
       (forall v,
          (evaporate_cell cfg v
           == Qmax 0 (v - evaporateSpeed cfg * deltaTime cfg))%Q) /\
       grid_nonneg m')
  /\
  (forall (EF : Externals Q) (cfg : Config) (g : Rng),
     (1 <= width cfg)%Z -> (1 <= height cfg)%Z ->
     (forall m sigma,
        grid_shape m (width cfg) (height cfg) ->
        grid_shape (gaussian_filter m sigma) (width cfg) (height cfg)) ->
     exists frames w,
       construct cfg g = Some (frames, w) /\
       Forall (fun fr => grid_nonneg (snd fr)) frames)
  /\
  (forall (cfg : Config) (m : Grid (F:=float)),
     grid_shape m (width cfg) (height cfg) ->
     evaporate_map cfg m = Some (map (map (evaporate_cell cfg)) m) /\
     (forall i j,
        grid_get (map (map (evaporate_cell cfg)) m) i j
        = option_map (evaporate_cell cfg) (grid_get m i j)) /\
     (forall v, leb (of_int 0) (evaporate_cell cfg v) = true)).
Proof.
  split; [|split].
  - intros cfg m Hs. exists (map (map (evaporate_cell cfg)) m).
    split; [now apply evaporate_map_cellwise|].
    split; [intros i j; apply grid_get_map|].
    split; [apply evaporate_cell_max | apply evaporated_nonneg].
  - intros EF cfg g Hw Hh Hb.
    destruct (construct_frames EF cfg g Hw Hh Hb)
      as (agents & w0 & frames & w & _ & Hrun & _ & Hall).
    exists frames, w. split; [exact Hrun|].
    eapply Forall_impl; [|exact Hall]. intros fr [_ H]. exact H.
  - intros cfg m Hs.
    split; [now apply evaporate_map_cellwise|].
    split; [intros i j; apply grid_get_map|].
    apply evaporate_cell_nonneg_binary64.
Qed.

(** C5 on a 2 x 2 array with the program's rate and tick, in exact
    arithmetic and in binary64, and on a run of two steps. *)
Lemma evaporate_map_decays_witness :
  (exists m',
     evaporate_map (sized_config 2 2 0 0) [[1; 1 # 20]; [0; 1 # 2]]%Q
     = Some m' /\
     grid_nonneg m')
  /\
  (exists frames w,
     construct (EF:=example_externals) (sized_config 8 6 2 2) example_rng
     = Some (frames, w) /\
     Forall (fun fr => grid_nonneg (snd fr)) frames)
  /\
  (exists m',
     evaporate_map (sized_config (F:=float) 2 2 0 0)
                   [[of_int 1; dec 1 200]; [of_int 0; dec 1 2]]
     = Some m' /\
     grid_get m' 0 1 = Some (of_int 0) /\
     forallb (forallb (leb (of_int 0))) m' = true).
Proof.
  split; [|split].
  - destruct (proj1 evaporate_map_decays (sized_config 2 2 0 0)
                [[1; 1 # 20]; [0; 1 # 2]]%Q)
      as (m' & H & _ & _ & Hpos).
    + split; [reflexivity|]. repeat constructor.
    + exists m'. split; assumption.
  - apply (proj1 (proj2 evaporate_map_decays) example_externals
             (sized_config 8 6 2 2) example_rng).
    + vm_compute. discriminate.
    + vm_compute. discriminate.
    + intros m sigma H. exact H.
  - destruct (proj2 (proj2 evaporate_map_decays)
                (sized_config (F:=float) 2 2 0 0)
                [[of_int 1; dec 1 200]; [of_int 0; dec 1 2]])
      as (H & _).
    + split; [reflexivity|]. repeat constructor.
    + eexists. split; [exact H|]. split; vm_compute; reflexivity.
Defined.

(** C6.  When the three weights [steer] senses are equal, none of the
    four tests of lines 122-129 holds and the agent comes back as it
    was, heading included; the draw is still consumed.  In exact
    arithmetic and in binary64. *)
Theorem steer_tie_keeps_heading :
  (forall (EF : Externals Q) (cfg : Config) (a : Agent) (w : World)
          (wF wL wR : Q),
     sense cfg (DrawMap w) a (of_int 0) = Some wF ->
     sense cfg (DrawMap w) a (sensorAngleSpacing cfg) = Some wL ->
     sense cfg (DrawMap w) a (opp (sensorAngleSpacing cfg)) = Some wR ->
     (wF == wL)%Q -> (wL == wR)%Q ->
     steer cfg a w = Some (a, world_after w (DrawMap w) 1))
  /\
  (forall (EF : Externals float) (cfg : Config) (a : Agent) (w : World)
          (wF wL wR : float),
     sense cfg (DrawMap w) a (of_int 0) = Some wF ->
     sense cfg (DrawMap w) a (sensorAngleSpacing cfg) = Some wL ->
     sense cfg (DrawMap w) a (opp (sensorAngleSpacing cfg)) = Some wR ->
     PrimFloat.eqb wF wL = true -> PrimFloat.eqb wL wR = true ->
     steer cfg a w = Some (a, world_after w (DrawMap w) 1)).
Proof.
  split.
  - intros EF cfg a w wF wL wR HF HL HR E1 E2.
    rewrite (steer_run cfg a w wF wL wR HF HL HR). do 2 f_equal.
    unfold steer_angle. cbn [ltb Q_arith].
    assert (H1 : Qltb wL wF = false) by (apply Qltb_ge; lra).
    assert (H2 : Qltb wF wL = false) by (apply Qltb_ge; lra).
    assert (H3 : Qltb wL wR = false) by (apply Qltb_ge; lra).
    assert (H4 : Qltb wR wL = false) by (apply Qltb_ge; lra).
    now rewrite H1, H2, H3, H4.
  - intros EF cfg a w wF wL wR HF HL HR E1 E2.
    rewrite (steer_run cfg a w wF wL wR HF HL HR). do 2 f_equal.
    unfold steer_angle. cbn [ltb float_arith].
    destruct (float_eqb_not_ltb wF wL E1) as [H2 H1].
    destruct (float_eqb_not_ltb wL wR E2) as [H3 H4].
    now rewrite H1, H2, H3, H4.
Qed.

(** C6 on a uniform grid, 8 x 6 in exact arithmetic and 20 x 20 in
    binary64. *)
Lemma steer_tie_keeps_heading_witness :
  steer (EF:=example_externals) (sized_config 8 6 2 2) example_agent
        example_world
  = Some (example_agent, world_after example_world example_grid 1)
  /\
  steer (EF:=example_externals) (sized_config 20 20 1 1)
        example_agent_binary64 example_world_binary64
  = Some (example_agent_binary64,
          world_after example_world_binary64
                      (DrawMap example_world_binary64) 1).
Proof.
  split.
  - apply (proj1 steer_tie_keeps_heading example_externals
             (sized_config 8 6 2 2) example_agent example_world
             0%Q 0%Q 0%Q);
      reflexivity.
  - apply (proj2 steer_tie_keeps_heading example_externals
             (sized_config 20 20 1 1) example_agent_binary64
             example_world_binary64 (of_int 0) (of_int 0) (of_int 0));
      vm_compute; reflexivity.
Defined.

(** C7.  [sense] returns the sum of the array over the square window of
    half-size [sensorSize] around the sensor cell; the window cells
    outside the grid are left out of the sum, and nothing is divided
    out.  In exact arithmetic the sensor cell is the sensor centre
    truncated and clamped into the grid; in any arithmetic it is
    [sensor_cell], the centre clipped and then truncated. *)
Theorem sense_sums_window :
  (forall (EF : Externals Q) (cfg : Config) (m : Grid) (a : Agent) (off : Q),
     grid_shape m (width cfg) (height cfg) ->
     sense cfg m a off
     = Some (window_sum cfg m
               (Z.min (width cfg - 1)
                  (Z.max 0 (Qtrunc (fst (sensor_center cfg a off)))))
               (Z.min (height cfg - 1)
                  (Z.max 0 (Qtrunc (snd (sensor_center cfg a off)))))))
  /\
  (forall (F : Type) (AF : Arith F) (EF : Externals F) (cfg : Config)
          (m : Grid) (a : Agent) (off : F) (cx cy : Z),
     grid_shape m (width cfg) (height cfg) ->
     sensor_cell cfg a off = Some (cx, cy) ->
     sense cfg m a off = Some (window_sum cfg m cx cy)).
Proof.
  split.
  - intros EF cfg m a off Hs. apply sense_window_sum; [assumption|].
    apply sensor_cell_exact.
  - intros F AF EF cfg m a off cx cy. apply sense_window_sum.
Qed.

(** C7 where the window of half-size 4 sticks out of the 8 x 6 grid, in
    exact arithmetic, and inside the 20 x 20 grid in binary64. *)
Lemma sense_sums_window_witness :
  sense (EF:=example_externals) (sized_config 8 6 2 2) example_grid
        example_agent 0%Q
  = Some (window_sum (sized_config 8 6 2 2) example_grid 7 3)
  /\
  sense (EF:=example_externals) (sized_config 20 20 1 1)
        (DrawMap example_world_binary64) example_agent_binary64 (of_int 0)
  = Some (window_sum (sized_config 20 20 1 1)
            (DrawMap example_world_binary64) 15 10).
Proof.
  split.
  - rewrite (proj1 sense_sums_window example_externals (sized_config 8 6 2 2)
               example_grid example_agent 0%Q).
    + vm_compute. reflexivity.
    + split; [reflexivity|]. repeat constructor.
  - apply (proj2 sense_sums_window float float_arith example_externals
             (sized_config 20 20 1 1)).
    + split; [reflexivity|]. apply Forall_forall. intros row Hin.
      apply repeat_spec in Hin. subst row. reflexivity.
    + vm_compute. reflexivity.
Defined.

(** C8, amended.  In exact arithmetic, for a positive
    [evaporateSpeed * deltaTime], the cell seeded with [1] is never
    negative, stays positive before step [ceil(1 / (evaporateSpeed *
    deltaTime))] and is exactly [0] from that step on.  In any
    arithmetic a cell comes out of an evaporation as [0] or as a value
    that tests larger than [0].  In binary64, for the program's own
    rate [0.1] and tick [0.1], the step count is 100, the cell is
    positive after each of the first 99 evaporations and exactly [0]
    after the hundredth. *)
Theorem decay_reaches_zero :
  (forall (cfg : Config (F:=Q)) (i j : Z) (n : nat),
     (0 < evaporateSpeed cfg * deltaTime cfg)%Q ->
     (0 <= i < width cfg)%Z -> (0 <= j < height cfg)%Z ->
     exists m' v,
       evaporate_times cfg n (single_cell (width cfg) (height cfg) i j)
       = Some m' /\
       grid_get m' i j = Some v /\
       (0 <= v)%Q /\
       ((Qceiling (1 / (evaporateSpeed cfg * deltaTime cfg)) <= Z.of_nat n)%Z ->
        v = 0%Q) /\
       ((Z.of_nat n < Qceiling (1 / (evaporateSpeed cfg * deltaTime cfg)))%Z ->
        (0 < v)%Q))
  /\
  (forall (F : Type) (AF : Arith F) (cfg : Config (F:=F)) (v : F),
     evaporate_cell cfg v = of_int 0 \/
     ltb (of_int 0) (evaporate_cell cfg v) = true)
  /\
  (exact_steps (evaporateSpeed (F:=float) default_config)
               (deltaTime (F:=float) default_config) = Some 100%Z /\
   forallb (cell_positive_after (sized_config (F:=float) 2 2 0 0)
              (single_cell 2 2 0 0) 0 0) (seq 0 100) = true /\
   evaporate_times (sized_config (F:=float) 2 2 0 0) 100 (single_cell 2 2 0 0)
   = Some (repeat (repeat (of_int 0) 2) 2)).
Proof.
  split.
  - intros cfg i j n Hc Hi Hj.
    destruct (evaporate_times_cellwise cfg n _
                (single_cell_shape (width cfg) (height cfg) i j))
      as (m' & Hrun & _ & Hget).
    specialize (Hget i j).
    rewrite (single_cell_get _ _ _ _ Hi Hj) in Hget. cbn [option_map] in Hget.
    exists m', (Nat.iter n (evaporate_cell cfg) (of_int 1)).
    split; [assumption|]. split; [assumption|].
    destruct (ceiling_steps _ n Hc) as [Hge Hlt].
    destruct (decay_closed_form cfg n Hc) as [[Hpos Hv]|[Hneg Hv]];
      change (of_int 1) with 1%Q.
    + split; [lra|]. split.
      * intros H. specialize (Hge H). lra.
      * intros _. lra.
    + rewrite Hv. split; [lra|]. split.
      * reflexivity.
      * intros H. specialize (Hlt H). lra.
  - split; [intros F AF cfg v; apply evaporate_cell_cases|].
    split; [vm_compute; reflexivity|]. split; vm_compute; reflexivity.
Qed.

(** C8 in exact arithmetic at rate 1 and tick 1/10: ten steps. *)
Lemma decay_reaches_zero_witness :
  exists m',
    evaporate_times (decay_config 2 2 10 1%Q (1 # 10)%Q) 10 (single_cell 2 2 0 0)
    = Some m' /\
    grid_get m' 0 0 = Some 0%Q.
Proof.
  destruct (proj1 decay_reaches_zero (decay_config 2 2 10 1%Q (1 # 10)%Q)
              0%Z 0%Z 10%nat)
    as (m' & v & Hrun & Hget & _ & Hzero & _).
  - reflexivity.
  - cbn. lia.
  - cbn. lia.
  - exists m'. split; [assumption|]. rewrite Hget. f_equal.
    apply Hzero. vm_compute. discriminate.
Defined.

(** Against C8 as stated: in binary64, at rate 1 and tick 0.1, the step
    count is 10 and the cell seeded with [1] holds [0x1.4p-53], about
    1.39e-16, after the tenth evaporation. *)
Lemma binary64_decay_leaves_residue :
  exact_steps (of_int 1) (dec 1 10) = Some 10%Z /\
  div (of_int 1) (mul (of_int 1) (dec 1 10)) = of_int (F:=float) 10 /\
  evaporate_times (decay_config (F:=float) 2 2 10 (of_int 1) (dec 1 10)) 10
                  (single_cell 2 2 0 0)
  = Some [[0x1.4p-53%float; of_int 0]; [of_int 0; of_int 0]] /\
  ltb (of_int 0) 0x1.4p-53%float = true.
Proof.
  repeat split; vm_compute; reflexivity.
Qed.

(** C9, amended.  [initialize] checks nothing: in any arithmetic it
    raises exactly when [width] or [height] is negative, where the
    array cannot be allocated.  In exact arithmetic, with [width] and
    [height] at least 1 and a blur that keeps the shape of the array,
    [initialize] returns and so does every one of the [N] steps of the
    main loop.  In binary64 the main loop has a failure path:
    [update_agent] raises, at the conversion of the position to a cell,
    for an agent whose heading has neither a cosine nor a sine, as an
    infinite heading in numpy.  A heading becomes infinite under a
    configuration that is valid in the spec's sense: with a turn speed
    of [2^1023] and a tick of 4 the second agent senses the deposit of
    the first on its left and turns by [0.5 * 2^1023 * 4], which
    overflows; the run shows one frame and raises in the second
    step. *)
Theorem construct_never_fails :
  (forall (F : Type) (AF : Arith F) (EF : Externals F) (cfg : Config)
          (g : Rng),
     initialize cfg g = None <-> (width cfg < 0)%Z \/ (height cfg < 0)%Z)
  /\
  (forall (EF : Externals Q) (cfg : Config) (g : Rng),
     (1 <= width cfg)%Z -> (1 <= height cfg)%Z ->
     (forall m sigma,
        grid_shape m (width cfg) (height cfg) ->
        grid_shape (gaussian_filter m sigma) (width cfg) (height cfg)) ->
     exists agents w0 frames w,
       initialize cfg g = Some (agents, w0) /\
       construct cfg g = Some (frames, w) /\
       length frames = Z.to_nat (N cfg))
  /\
  (forall (EF : Externals float) (cfg : Config) (a : Agent) (w : World),
     is_number (cos (angle a)) = false ->
     is_number (sin (angle a)) = false ->
     update_agent cfg a w = None)
  /\
  (~ invalid_configuration (overflow_config 2) /\
   (exists frames w,
      construct (EF:=example_externals) (overflow_config 1)
                example_rng_overflow = Some (frames, w) /\
      map (fun fr => map angle (fst fr)) frames
      = [[of_int 0; PrimFloat.infinity]]) /\
   is_number (cos (Externals:=example_externals) PrimFloat.infinity) = false /\
   is_number (sin (Externals:=example_externals) PrimFloat.infinity) = false /\
   construct (EF:=example_externals) (overflow_config 2) example_rng_overflow
   = None).
Proof.
  split; [|split; [|split]].
  - intros F AF EF cfg g. apply initialize_fails.
  - intros EF cfg g Hw Hh Hb.
    destruct (construct_frames EF cfg g Hw Hh Hb)
      as (agents & w0 & frames & w & Hinit & Hrun & Hlen & _).
    now exists agents, w0, frames, w.
  - exact update_agent_nan_heading.
  - split; [|split; [|split; [|split]]].
    + unfold invalid_configuration.
      intros [H | [H | [H | [H | [H | [H | H]]]]]];
        vm_compute in H; first [discriminate | apply H; reflexivity].
    + eexists _, _. split; vm_compute; reflexivity.
    + vm_compute. reflexivity.
    + vm_compute. reflexivity.
    + vm_compute. reflexivity.
Qed.

(** C9, amended: on the 8 x 6 grid with two agents and two steps the
    run returns in exact arithmetic; in binary64 an agent with an
    infinite heading makes [update_agent] raise. *)
Lemma construct_never_fails_witness :
  (exists frames w,
     construct (EF:=example_externals) (sized_config 8 6 2 2) example_rng
     = Some (frames, w) /\
     length frames = 2%nat) /\
  update_agent (EF:=example_externals) (sized_config 20 20 1 1)
               {| pos := (of_int 10, of_int 10); angle := PrimFloat.infinity |}
               example_world_binary64 = None.
Proof.
  split.
  - destruct (proj1 (proj2 construct_never_fails) example_externals
                (sized_config 8 6 2 2) example_rng)
      as (agents & w0 & frames & w & _ & Hrun & Hlen).
    + vm_compute. discriminate.
    + vm_compute. discriminate.
    + intros m sigma H. exact H.
    + exists frames, w. split; [exact Hrun | exact Hlen].
  - apply (proj1 (proj2 (proj2 construct_never_fails)) example_externals).
    + vm_compute. reflexivity.
    + vm_compute. reflexivity.
Defined.

(** Against C9 as stated: with no agent at all and a negative
    evaporation rate the configuration is invalid in the spec's sense,
    yet [initialize] returns, with an empty list of agents, and the run
    goes through; in exact arithmetic and in binary64. *)
Lemma initialize_accepts_invalid_configuration :
  (let cfg := decay_config (F:=Q) 8 6 2 (- (1))%Q (1 # 10)%Q in
   invalid_configuration cfg /\
   ltb (evaporateSpeed cfg) (of_int 0) = true /\
   initialize (EF:=example_externals) cfg example_rng
   = Some ([], {| DrawMap := example_grid; generator := example_rng |}) /\
   exists frames w,
     construct (EF:=example_externals) cfg example_rng = Some (frames, w))
  /\
  (let cfg := decay_config (F:=float) 20 20 2 (opp (of_int 1)) (dec 1 10) in
   invalid_configuration cfg /\
   ltb (evaporateSpeed cfg) (of_int 0) = true /\
   initialize (EF:=example_externals) cfg (generator example_world_binary64)
   = Some ([], example_world_binary64) /\
   exists frames w,
     construct (EF:=example_externals) cfg (generator example_world_binary64)
     = Some (frames, w)).
Proof.
  split.
  - split; [left; vm_compute; discriminate|].
    split; [reflexivity|].
    split; [reflexivity|].
    eexists _, _. vm_compute. reflexivity.
  - split; [left; vm_compute; discriminate|].
    split; [vm_compute; reflexivity|].
    split; [vm_compute; reflexivity|].
    eexists _, _. vm_compute. reflexivity.
Qed.

(** C10, amended.  [steer] takes exactly one draw, whatever weights it
    senses and whichever branch it ends in: the draw precedes the
    tests.  A whole [update_agent] takes that draw and, when the
    tentative position is off the grid, one more before it, for the new
    heading.  In exact arithmetic, where both are shown to return, and
    in any arithmetic for calls that return. *)
Theorem steer_draws_once :
  (forall (EF : Externals Q) (cfg : Config) (a : Agent) (w : World),
     (1 <= width cfg)%Z -> (1 <= height cfg)%Z ->
     grid_shape (DrawMap w) (width cfg) (height cfg) ->
     (exists wF wL wR,
        steer cfg a w
        = Some (steer_angle cfg a wF wL wR
                  (draws (generator w) (cursor (generator w))),
                world_after w (DrawMap w) 1)) /\
     (exists a' m',
        update_agent cfg a w
        = Some (a', world_after w m'
                      (if out_of_bounds cfg (tentative cfg a) then 2 else 1))))
  /\
  (forall (F : Type) (AF : Arith F) (EF : Externals F) (cfg : Config)
          (a a' : Agent) (w w' : World),
     (steer cfg a w = Some (a', w') -> w' = world_after w (DrawMap w) 1) /\
     (update_agent cfg a w = Some (a', w') ->
      generator w'
      = generator (world_after w (DrawMap w)
                     (if out_of_bounds cfg (tentative cfg a) then 2 else 1)))).
Proof.
  split.
  - intros EF cfg a w Hw Hh Hs. split.
    + destruct (sense_exact cfg (DrawMap w) a (of_int 0) Hs) as [wF HF].
      destruct (sense_exact cfg (DrawMap w) a (sensorAngleSpacing cfg) Hs)
        as [wL HL].
      destruct (sense_exact cfg (DrawMap w) a (opp (sensorAngleSpacing cfg)) Hs)
        as [wR HR].
      exists wF, wL, wR. now apply steer_run.
    + destruct (update_agent_deposit cfg Hw Hh a w Hs) as (a' & m' & Hrun & _).
      now exists a', m'.
  - intros F AF EF cfg a a' w w'. split.
    + apply steer_draws.
    + apply update_agent_draws.
Qed.

(** C10 at an agent in the middle of the grid, 8 x 6 in exact arithmetic
    and 20 x 20 in binary64. *)
Lemma steer_draws_once_witness :
  (exists a' w',
     steer (EF:=example_externals) (sized_config 8 6 2 2) example_agent
           example_world = Some (a', w') /\
     cursor (generator w') = S (cursor (generator example_world)))
  /\
  (exists a' w',
     steer (EF:=example_externals) (sized_config 20 20 1 1)
           example_agent_binary64 example_world_binary64 = Some (a', w') /\
     cursor (generator w') = S (cursor (generator example_world_binary64))).
Proof.
  split.
  - destruct (proj1 steer_draws_once example_externals (sized_config 8 6 2 2)
                example_agent example_world)
      as [(wF & wL & wR & H) _].
    + vm_compute. discriminate.
    + vm_compute. discriminate.
    + split; [reflexivity|]. repeat constructor.
    + eexists _, _. split; [exact H|reflexivity].
  - destruct (steer (EF:=example_externals) (sized_config 20 20 1 1)
                example_agent_binary64 example_world_binary64)
      as [[a' w']|] eqn:H; [|vm_compute in H; discriminate].
    exists a', w'. split; [reflexivity|].
    rewrite (proj1 (proj2 steer_draws_once float float_arith
                      example_externals (sized_config 20 20 1 1)
                      example_agent_binary64 a' example_world_binary64 w') H).
    reflexivity.
Defined.

(** Against C10 as stated: an agent about to leave the grid consumes two
    draws in its tick, one at line 53 and one in [steer]; in exact
    arithmetic on the 8 x 6 grid and in binary64 on the 20 x 20 grid. *)
Lemma update_agent_at_edge_draws_twice :
  (exists a' w',
     update_agent (EF:=example_externals) (sized_config 8 6 2 2)
                  example_agent_at_edge example_world = Some (a', w') /\
     cursor (generator example_world) = 0%nat /\
     cursor (generator w') = 2%nat)
  /\
  (exists a' w',
     update_agent (EF:=example_externals) (sized_config 20 20 1 1)
       {| pos := (sub (of_int 20) (dec 5 100), of_int 10); angle := of_int 0 |}
       example_world_binary64 = Some (a', w') /\
     cursor (generator example_world_binary64) = 0%nat /\
     cursor (generator w') = 2%nat).
Proof.
  split; eexists _, _;
    (split; [vm_compute; reflexivity|]); split; reflexivity.
Qed.

(** * Further properties *)

(** ** [draw_draw_map] *)

Lemma map_opt_total {A B : Type} (f : A -> option B) (g : A -> B)
    (l : list A) :
  (forall x, In x l -> f x = Some (g x)) -> map_opt f l = Some (map g l).
Proof.
  induction l as [|x t IH]; intros H; cbn [map_opt map]; [reflexivity|].
  rewrite (H x (or_introl eq_refl)), IH; [reflexivity|].
  intros y Hy. apply H. now right.
Qed.

Lemma combine_same3 {A : Type} (l : list A) :
  combine l (combine l l) = map (fun x => (x, (x, x))) l.
Proof.
  induction l as [|x t IH]; cbn; [reflexivity|]. now rewrite IH.
Qed.

Lemma stack_channels_same (c : list (list Z)) :
  stack_channels c c c = map (map (fun z => (z, z, z))) c.
Proof.
  unfold stack_channels. rewrite combine_same3, map_map.
  apply map_ext. intros row. cbn [fst snd].
  rewrite combine_same3, map_map. reflexivity.
Qed.

Lemma entry_map {A B : Type} (f : A -> B) (l : list (list A)) (i j : nat) :
  entry (map (map f) l) i j = option_map f (entry l i j).
Proof.
  unfold entry. rewrite nth_error_map.
  destruct (nth_error l i) as [row|]; [|reflexivity].
  cbn [option_map]. apply nth_error_map.
Qed.

(** The grey level of a cell, in exact arithmetic. *)
Lemma draw_draw_map_exact (m : Grid (F:=Q)) :
  draw_draw_map m
  = Some (map (map (fun v =>
                 let p := Qtrunc (np_clip v (of_int 0) (of_int 1) * 255)%Q in
                 (p, p, p))) m).
Proof.
  unfold draw_draw_map, astype_uint8. cbv zeta.
  rewrite (map_opt_total _ (map Qtrunc)).
  - rewrite stack_channels_same, !map_map. f_equal.
    apply map_ext. intros row. rewrite !map_map. reflexivity.
  - intros row _. apply map_opt_total. reflexivity.
Qed.

Lemma clip_unit (v : Q) :
  (0 <= np_clip v (of_int 0) (of_int 1) <= 1)%Q /\
  ((v <= 0)%Q -> (np_clip v (of_int 0) (of_int 1) == 0)%Q) /\
  ((1 <= v)%Q -> (np_clip v (of_int 0) (of_int 1) == 1)%Q) /\
  ((0 <= v <= 1)%Q -> np_clip v (of_int 0) (of_int 1) = v).
Proof.
  unfold np_clip. cbn [ltb of_int Q_arith].
  change (inject_Z 0) with 0%Q. change (inject_Z 1) with 1%Q.
  destruct (Qltb v 0) eqn:H0.
  - apply Qltb_lt in H0.
    destruct (Qltb 1 0) eqn:H1; [apply Qltb_lt in H1; lra|].
    repeat split; intros; try lra.
  - apply Qltb_ge in H0.
    destruct (Qltb 1 v) eqn:H1.
    + apply Qltb_lt in H1. repeat split; intros; lra.
    + apply Qltb_ge in H1. repeat split; intros; try lra.
Qed.

Lemma Qtrunc_floor (x : Q) :
  (0 <= x)%Q -> (inject_Z (Qtrunc x) <= x < inject_Z (Qtrunc x) + 1)%Q.
Proof.
  intros H. assert (E : Qtrunc x = Qfloor x).
  { destruct x as [n d]. unfold Qle in H. cbn in H.
    unfold Qtrunc, Qfloor. cbn. apply Z.quot_div_nonneg; lia. }
  rewrite E. split; [apply Qfloor_le|].
  pose proof (Qlt_floor x) as Hlt. rewrite inject_Z_plus in Hlt. exact Hlt.
Qed.

Lemma Qtrunc_monotone (x y : Q) :
  (0 <= x)%Q -> (x <= y)%Q -> (Qtrunc x <= Qtrunc y)%Z.
Proof.
  intros Hx Hxy.
  destruct (Qtrunc_floor x Hx) as [Hx1 _].
  destruct (Qtrunc_floor y (Qle_trans _ _ _ Hx Hxy)) as [_ Hy2].
  assert (H : (inject_Z (Qtrunc x) < inject_Z (Qtrunc y + 1))%Q)
    by (rewrite inject_Z_plus; change (inject_Z 1) with 1%Q; lra).
  rewrite <- Zlt_Qlt in H. lia.
Qed.

Lemma map_opt_length {A B : Type} (f : A -> option B) (l : list A)
    (l' : list B) :
  map_opt f l = Some l' -> length l' = length l.
Proof.
  revert l'. induction l as [|x t IH]; intros l'; cbn [map_opt].
  - intros H. injection H as <-. reflexivity.
  - destruct (f x); [|discriminate].
    destruct (map_opt f t) as [ys|]; [|discriminate].
    intros H. injection H as <-. cbn. now rewrite (IH ys).
Qed.

Lemma map_opt_nth {A B : Type} (f : A -> option B) (l : list A)
    (l' : list B) (i : nat) (x : A) :
  map_opt f l = Some l' -> nth_error l i = Some x ->
  exists y, f x = Some y /\ nth_error l' i = Some y.
Proof.
  revert l' i. induction l as [|h t IH]; intros l' i; cbn [map_opt].
  - destruct i; discriminate.
  - destruct (f h) as [y|] eqn:Hy; [|discriminate].
    destruct (map_opt f t) as [ys|]; [|discriminate].
    intros H. injection H as <-. destruct i as [|i]; cbn [nth_error].
    + intros H. injection H as <-. eauto.
    + intros H. exact (IH ys i eq_refl H).
Qed.

Lemma map_opt_entry {A B : Type} (f : A -> option B) (m : list (list A))
    (c : list (list B)) (i j : nat) (v : A) :
  map_opt (map_opt f) m = Some c -> entry m i j = Some v ->
  exists p, f v = Some p /\ entry c i j = Some p.
Proof.
  intros Hc. unfold entry.
  destruct (nth_error m i) as [row|] eqn:Hrow; [|discriminate].
  destruct (map_opt_nth _ _ _ _ _ Hc Hrow) as (crow & Hcrow & Hi).
  rewrite Hi. intros Hv. exact (map_opt_nth _ _ _ _ _ Hcrow Hv).
Qed.

(** The level of a pixel, in any arithmetic. *)
Lemma draw_draw_map_level {F : Type} {AF : Arith F} (m : Grid (F:=F))
    (img : list (list (Z * Z * Z))) (i j : nat) (v : F) :
  draw_draw_map m = Some img -> entry m i j = Some v ->
  exists p,
    trunc (mul (np_clip v (of_int 0) (of_int 1)) (of_int 255)) = Some p /\
    entry img i j = Some (p, p, p).
Proof.
  unfold draw_draw_map. cbv zeta.
  destruct (astype_uint8 _) as [c|] eqn:Hc; [|discriminate].
  intros H Hv. injection H as <-. unfold astype_uint8 in Hc.
  assert (Hs : entry (map (map (fun v => mul v (of_int 255)))
                        (map (map (fun v => np_clip v (of_int 0) (of_int 1))) m))
                     i j
               = Some (mul (np_clip v (of_int 0) (of_int 1)) (of_int 255)))
    by (now rewrite !entry_map, Hv).
  destruct (map_opt_entry _ _ _ _ _ _ Hc Hs) as (p & Hp & Hcp).
  exists p. split; [exact Hp|].
  rewrite stack_channels_same, entry_map, Hcp. reflexivity.
Qed.

(** Binary64: the numbers that compare equal to 0, and those that are
    1 or more. *)
Lemma float_zero_cases (v : float) :
  PrimFloat.leb v (of_int 0) = true -> PrimFloat.ltb v (of_int 0) = false ->
  v = of_int 0 \/ v = PrimFloat.opp (of_int 0).
Proof.
  rewrite leb_spec, ltb_spec. intros Hle Hlt.
  rewrite <- (SF2Prim_Prim2SF v).
  change (Prim2SF (of_int 0)) with (S754_zero false) in *.
  destruct (Prim2SF v) as [s|s| |s m e]; try destruct s;
    try discriminate; [right | left]; reflexivity.
Qed.

Lemma float_one_cases (v : float) :
  PrimFloat.leb (of_int 1) v = true ->
  PrimFloat.ltb v (of_int 0) = false /\
  (PrimFloat.ltb (of_int 1) v = true \/ v = of_int 1).
Proof.
  rewrite leb_spec, !ltb_spec. intros Hle.
  change (Prim2SF (of_int 0)) with (S754_zero false) in *.
  change (Prim2SF (of_int 1))
    with (S754_finite false 4503599627370496 (-52)) in *.
  assert (E : v = of_int 1
              <-> Prim2SF v = S754_finite false 4503599627370496 (-52)).
  { split; [intros ->; reflexivity | intros H; apply Prim2SF_inj; exact H]. }
  rewrite E. clear E.
  destruct (Prim2SF v) as [s|s| |s m e]; try destruct s; try discriminate.
  - split; [reflexivity | left; reflexivity].
  - split; [reflexivity|].
    unfold SFleb, SFltb, SFcompare in *.
    destruct (Z.compare (-52) e) eqn:Ee; try discriminate.
    + apply Z.compare_eq in Ee. subst e.
      destruct (Pos.compare_cont Eq 4503599627370496 m) eqn:Em;
        try discriminate.
      * right. apply Pos.compare_eq in Em. now subst m.
      * left. reflexivity.
    + left. reflexivity.
Qed.

Lemma float_level_low (v : float) :
  PrimFloat.leb v (of_int 0) = true ->
  trunc (mul (np_clip v (of_int 0) (of_int 1)) (of_int 255)) = Some 0%Z.
Proof.
  intros Hle. unfold np_clip. cbn [ltb float_arith].
  destruct (PrimFloat.ltb v (of_int 0)) eqn:Hlt.
  - vm_compute. reflexivity.
  - destruct (float_zero_cases v Hle Hlt) as [-> | ->]; vm_compute; reflexivity.
Qed.

Lemma float_level_high (v : float) :
  PrimFloat.leb (of_int 1) v = true ->
  trunc (mul (np_clip v (of_int 0) (of_int 1)) (of_int 255)) = Some 255%Z.
Proof.
  intros Hle. destruct (float_one_cases v Hle) as [H0 [H1 | ->]].
  - unfold np_clip. cbn [ltb float_arith]. rewrite H0, H1.
    vm_compute. reflexivity.
  - vm_compute. reflexivity.
Qed.

(** X1.  In any arithmetic, an image [draw_draw_map] returns has as
    many rows as the array, and the pixel of a cell [v] is grey (its
    three channels are equal) at the level obtained by truncating
    [clip(v, 0, 1) * 255] as that arithmetic computes it.  In binary64
    a cell that is 0 or less is drawn at level 0 and a cell that is 1
    or more at level 255.  In exact arithmetic [draw_draw_map] always
    returns, with one pixel for each cell, row by row; the level lies
    between 0 and 255, is 0 for a cell that is 0 or less, 255 for a
    cell that is 1 or more, and within 1 of [255 * v] in between.  The
    product is rounded before it is truncated: the cell
    [0x1.9191919191919p-2], the binary64 number next to 100/255 and
    below it, is drawn at level 100 in binary64, where its exact
    product with 255 truncates to 99. *)
Theorem draw_draw_map_image :
  (forall (F : Type) (AF : Arith F) (m : Grid (F:=F)) img,
     draw_draw_map m = Some img ->
     length img = length m /\
     forall i j v,
       entry m i j = Some v ->
       exists p,
         trunc (mul (np_clip v (of_int 0) (of_int 1)) (of_int 255)) = Some p /\
         entry img i j = Some (p, p, p))
  /\
  (forall (m : Grid (F:=float)) img i j v,
     draw_draw_map m = Some img ->
     entry m i j = Some v ->
     (leb v (of_int 0) = true -> entry img i j = Some (0, 0, 0)%Z) /\
     (leb (of_int 1) v = true -> entry img i j = Some (255, 255, 255)%Z))
  /\
  (forall m : Grid (F:=Q),
     exists img,
       draw_draw_map m = Some img /\
       length img = length m /\
       (forall i row,
          nth_error m i = Some row ->
          exists irow, nth_error img i = Some irow /\ length irow = length row) /\
       (forall i j v,
          entry m i j = Some v ->
          exists p,
            entry img i j = Some (p, p, p) /\
            (0 <= p <= 255)%Z /\
            ((v <= 0)%Q -> p = 0%Z) /\
            ((1 <= v)%Q -> p = 255%Z) /\
            ((0 <= v <= 1)%Q ->
             (255 * v - 1 < inject_Z p < 255 * v + 1)%Q)))
  /\
  (draw_draw_map (F:=float) [[0x1.9191919191919p-2%float]]
   = Some [[(100, 100, 100)%Z]] /\
   float_to_Q 0x1.9191919191919p-2%float
   = Some (7064470003718425 # 18014398509481984)%Q /\
   draw_draw_map (F:=Q) [[(7064470003718425 # 18014398509481984)%Q]]
   = Some [[(99, 99, 99)%Z]]).
Proof.
  split; [|split; [|split]].
  - intros F AF m img Himg. split.
    + revert Himg. unfold draw_draw_map. cbv zeta.
      destruct (astype_uint8 _) as [c|] eqn:Hc; [|discriminate].
      intros H. injection H as <-. rewrite stack_channels_same.
      rewrite length_map. unfold astype_uint8 in Hc.
      apply map_opt_length in Hc. now rewrite Hc, !length_map.
    + intros i j v Hv. exact (draw_draw_map_level m img i j v Himg Hv).
  - intros m img i j v Himg Hv.
    destruct (draw_draw_map_level m img i j v Himg Hv) as (p & Hp & Hpx).
    split; intros Hle.
    + rewrite (float_level_low v Hle) in Hp. injection Hp as <-. exact Hpx.
    + rewrite (float_level_high v Hle) in Hp. injection Hp as <-. exact Hpx.
  - intros m. eexists. split; [apply draw_draw_map_exact|].
    split; [now rewrite length_map|]. split.
    + intros i row Hrow. eexists. split.
      * rewrite nth_error_map, Hrow. reflexivity.
      * now rewrite length_map.
    + intros i j v Hv. eexists. split.
      * rewrite entry_map, Hv. reflexivity.
      * destruct (clip_unit v) as (Hc & Hlo & Hhi & Hmid).
        set (c := np_clip v (of_int 0) (of_int 1)) in *.
        assert (H0 : (0 <= c * 255)%Q) by lra.
        destruct (Qtrunc_floor (c * 255) H0) as [Hf1 Hf2].
        assert (Hp : (0 <= Qtrunc (c * 255) <= 255)%Z).
        { split.
          - rewrite Zle_Qle.
            apply (Qtrunc_monotone 0 (c * 255)) in H0; [|lra].
            change (Qtrunc 0) with 0%Z in H0. now rewrite <- Zle_Qle.
          - assert (H : (inject_Z (Qtrunc (c * 255)) < inject_Z 256)%Q)
              by (change (inject_Z 256) with 256%Q; lra).
            rewrite <- Zlt_Qlt in H. lia. }
        split; [exact Hp|]. split; [|split].
        -- intros Hle. specialize (Hlo Hle).
           assert (H : (inject_Z (Qtrunc (c * 255)) < inject_Z 1)%Q)
             by (change (inject_Z 1) with 1%Q; lra).
           rewrite <- Zlt_Qlt in H. lia.
        -- intros Hge. specialize (Hhi Hge).
           assert (H : (inject_Z 254 < inject_Z (Qtrunc (c * 255)))%Q)
             by (change (inject_Z 254) with 254%Q; lra).
           rewrite <- Zlt_Qlt in H. lia.
        -- intros Hin. assert (E := Hmid Hin). clearbody c. subst v. lra.
  - repeat split; vm_compute; reflexivity.
Qed.

(** X1 on a row of three cells, in binary64. *)
Lemma draw_draw_map_image_witness :
  exists img,
    draw_draw_map (F:=float) [[opp (of_int 1); dec 1 2; of_int 3]] = Some img /\
    entry img 0 0 = Some (0, 0, 0)%Z /\
    entry img 0 2 = Some (255, 255, 255)%Z.
Proof.
  destruct (draw_draw_map (F:=float) [[opp (of_int 1); dec 1 2; of_int 3]])
    as [img|] eqn:Himg; [|vm_compute in Himg; discriminate].
  exists img. split; [reflexivity|]. split.
  - apply (proj1 (proj2 draw_draw_map_image) _ img 0%nat 0%nat
             (opp (of_int 1)) Himg); reflexivity.
  - apply (proj1 (proj2 draw_draw_map_image) _ img 0%nat 2%nat
             (of_int 3) Himg); reflexivity.
Defined.

(** X2.  In exact arithmetic a larger cell is never drawn darker: of
    two cells of an array, the one with the larger value gets the
    larger grey level, or the same. *)
Theorem draw_draw_map_monotone
    (m : Grid (F:=Q)) (i j i' j' : nat) (v v' : Q) :
  entry m i j = Some v -> entry m i' j' = Some v' -> (v <= v')%Q ->
  exists img p p',
    draw_draw_map m = Some img /\
    entry img i j = Some (p, p, p) /\
    entry img i' j' = Some (p', p', p') /\
    (p <= p')%Z.
Proof.
  intros Hv Hv' Hle. eexists _, _, _.
  split; [apply draw_draw_map_exact|].
  rewrite !entry_map, Hv, Hv'. cbn [option_map].
  split; [reflexivity|]. split; [reflexivity|].
  destruct (clip_unit v) as (Hc & _). destruct (clip_unit v') as (Hc' & _).
  apply Qtrunc_monotone; [lra|].
  assert (H : (np_clip v (of_int 0) (of_int 1)
               <= np_clip v' (of_int 0) (of_int 1))%Q).
  { unfold np_clip in *. cbn [ltb of_int Q_arith] in *.
    change (inject_Z 0) with 0%Q in *. change (inject_Z 1) with 1%Q in *.
    destruct (Qltb v 0) eqn:A, (Qltb v' 0) eqn:A';
      rewrite ?Qltb_lt, ?Qltb_ge in A, A';
      repeat match goal with
             | |- context [Qltb ?a ?b] =>
                 let E := fresh in
                 destruct (Qltb a b) eqn:E; rewrite ?Qltb_lt, ?Qltb_ge in E
             | H : context [Qltb ?a ?b] |- _ =>
                 let E := fresh in
                 destruct (Qltb a b) eqn:E; rewrite ?Qltb_lt, ?Qltb_ge in E
             end; lra. }
  lra.
Qed.

(** X2 on a 1 x 3 array. *)
Lemma draw_draw_map_monotone_witness :
  exists img p p',
    draw_draw_map [[1 # 4; 3; 1 # 2]]%Q = Some img /\
    entry img 0 0 = Some (p, p, p) /\
    entry img 0 2 = Some (p', p', p') /\
    (p <= p')%Z.
Proof.
  apply (draw_draw_map_monotone [[1 # 4; 3; 1 # 2]]%Q 0 0 0 2
           (1 # 4)%Q (1 # 2)%Q); [reflexivity | reflexivity |].
  vm_compute. discriminate.
Defined.

(** ** [evaporate_map], further *)

Lemma fold_opt_app {A B : Type} (f : B -> A -> option B) (l1 l2 : list A)
    (b : B) :
  fold_opt f (l1 ++ l2) b
  = match fold_opt f l1 b with
    | Some b' => fold_opt f l2 b'
    | None => None
    end.
Proof.
  revert b. induction l1 as [|x t IH]; intros b; cbn [fold_opt app];
    [reflexivity|].
  destruct (f b x); [apply IH | reflexivity].
Qed.

Lemma range_split (w : Z) (k : nat) :
  (k < Z.to_nat w)%nat ->
  range 0 w
  = map (fun n => (0 + Z.of_nat n)%Z) (seq 0 k)
    ++ Z.of_nat k :: map (fun n => (0 + Z.of_nat n)%Z)
                         (seq (S k) (Z.to_nat w - S k)).
Proof.
  intros H. unfold range. rewrite Z.sub_0_r.
  replace (Z.to_nat w) with (k + S (Z.to_nat w - S k))%nat at 1 by lia.
  rewrite seq_app, map_app. cbn [seq map Nat.add]. reflexivity.
Qed.

Lemma axis_index_out (n : nat) : axis_index n (Z.of_nat n) = None.
Proof.
  unfold axis_index.
  replace ((0 <=? Z.of_nat n)%Z && (Z.of_nat n <? Z.of_nat n)%Z) with false
    by (symmetry; apply andb_false_iff; right; apply Z.ltb_ge; lia).
  replace ((Z.of_nat n <? 0)%Z && (- Z.of_nat n <=? Z.of_nat n)%Z) with false
    by (symmetry; apply andb_false_iff; left; apply Z.ltb_ge; lia).
  reflexivity.
Qed.

(** X3.  In exact arithmetic, with a rate and a tick whose product is
    not negative, evaporation never raises a cell of an array without
    negative cells: every cell of the result lies between 0 and the
    cell it replaces, and strictly below it when the product and the
    cell are positive. *)
Theorem evaporate_map_shrinks (cfg : Config) (m : Grid (F:=Q)) :
  grid_shape m (width cfg) (height cfg) ->
  (0 <= evaporateSpeed cfg * deltaTime cfg)%Q ->
  grid_nonneg m ->
  exists m',
    evaporate_map cfg m = Some m' /\
    forall i j v,
      grid_get m i j = Some v ->
      exists v',
        grid_get m' i j = Some v' /\
        (0 <= v' <= v)%Q /\
        ((0 < evaporateSpeed cfg * deltaTime cfg)%Q -> (0 < v)%Q ->
         (v' < v)%Q).
Proof.
  intros Hs Hc Hpos. eexists. split; [now apply evaporate_map_cellwise|].
  intros i j v Hv. rewrite grid_get_map, Hv. cbn [option_map].
  eexists. split; [reflexivity|].
  assert (H0 : (0 <= v)%Q).
  { unfold grid_get in Hv.
    destruct (axis_index (length m) i) as [r|]; [|discriminate].
    destruct (nth_error m r) as [row|] eqn:Hr; [|discriminate].
    destruct (axis_index (length row) j) as [c|]; [|discriminate].
    unfold grid_nonneg in Hpos. rewrite Forall_forall in Hpos.
    specialize (Hpos row (nth_error_In _ _ Hr)).
    rewrite Forall_forall in Hpos. apply Hpos. eapply nth_error_In; eauto. }
  pose proof (evaporate_cell_max cfg v) as E.
  destruct (Q.max_spec 0 (v - evaporateSpeed cfg * deltaTime cfg))
    as [[Hlt Hm]|[Hle Hm]]; rewrite Hm in E; rewrite E;
    split; try lra; intros; lra.
Qed.

(** X3 on a 2 x 2 array with the program's rate and tick. *)
Lemma evaporate_map_shrinks_witness :
  exists m',
    evaporate_map (sized_config 2 2 0 0) [[1; 1 # 200]; [0; 1 # 2]]%Q
    = Some m' /\
    exists v', grid_get m' 0 0 = Some v' /\ (0 <= v' <= 1)%Q.
Proof.
  destruct (evaporate_map_shrinks (sized_config 2 2 0 0)
              [[1; 1 # 200]; [0; 1 # 2]]%Q)
    as (m' & H & Hcell).
  - split; [reflexivity|]. repeat constructor.
  - vm_compute. discriminate.
  - repeat constructor; vm_compute; discriminate.
  - exists m'. split; [exact H|].
    destruct (Hcell 0%Z 0%Z 1%Q eq_refl) as (v' & Hv' & Hb & _).
    exists v'. split; assumption.
Defined.

Lemma evaporate_iter_closed (cfg : Config) (n : nat) (v : Q) :
  (0 <= evaporateSpeed cfg * deltaTime cfg)%Q ->
  (Nat.iter (S n) (evaporate_cell cfg) v
   == Qmax 0 (v - inject_Z (Z.of_nat (S n))
                  * (evaporateSpeed cfg * deltaTime cfg)))%Q.
Proof.
  intros Hc. set (c := (evaporateSpeed cfg * deltaTime cfg)%Q) in *.
  induction n as [|n IH].
  - cbn [Nat.iter nat_rect]. rewrite evaporate_cell_max. fold c.
    change (inject_Z (Z.of_nat 1)) with 1%Q.
    destruct (Q.max_spec 0 (v - c)) as [[H E]|[H E]],
             (Q.max_spec 0 (v - 1 * c)) as [[H' E']|[H' E']];
      rewrite E, E'; lra.
  - assert (En : (inject_Z (Z.of_nat (S (S n)))
                  == inject_Z (Z.of_nat (S n)) + 1)%Q).
    { rewrite (Nat2Z.inj_succ (S n)), <- Z.add_1_r, inject_Z_plus.
      reflexivity. }
    change (Nat.iter (S (S n)) (evaporate_cell cfg) v)
      with (evaporate_cell cfg (Nat.iter (S n) (evaporate_cell cfg) v)).
    set (u := Nat.iter (S n) (evaporate_cell cfg) v) in *. clearbody u.
    rewrite evaporate_cell_max. fold c. rewrite En.
    set (k := inject_Z (Z.of_nat (S n))) in *. clearbody k.
    destruct (Q.max_spec 0 (v - k * c)) as [[H E]|[H E]]; rewrite E in IH;
      destruct (Q.max_spec 0 (u - c)) as [[H1 E1]|[H1 E1]]; rewrite E1;
      destruct (Q.max_spec 0 (v - (k + 1) * c)) as [[H2 E2]|[H2 E2]];
      rewrite E2; lra.
Qed.

(** X4.  In any arithmetic, [n] evaporations in a row of an array of
    the shape [(width, height)] return, and every cell of the result is
    [evaporate_cell] applied [n] times to the cell it replaces.  In
    exact arithmetic, with a rate and a tick whose product is not
    negative and [n >= 1], that is one evaporation with [n] times the
    rate: the cell [v] ends at [max(0, v - n * evaporateSpeed *
    deltaTime)].  In binary64 every evaporation rounds, and the result
    is not the closed form as binary64 evaluates it: at the rate and
    tick of the source, 99 evaporations of a cell of 1 leave
    [0x1.47ae147ae1298p-7], where [max(0, 1 - 99 * (evaporateSpeed *
    deltaTime))] is [0x1.47ae147ae14p-7]. *)
Theorem evaporate_times_closed_form :
  (forall (F : Type) (AF : Arith F) (cfg : Config) (m : Grid (F:=F))
          (n : nat),
     grid_shape m (width cfg) (height cfg) ->
     exists m',
       evaporate_times cfg n m = Some m' /\
       grid_shape m' (width cfg) (height cfg) /\
       forall i j,
         grid_get m' i j
         = option_map (fun v => Nat.iter n (evaporate_cell cfg) v)
                      (grid_get m i j))
  /\
  (forall (cfg : Config) (m : Grid (F:=Q)) (n : nat),
     grid_shape m (width cfg) (height cfg) ->
     (0 <= evaporateSpeed cfg * deltaTime cfg)%Q ->
     (1 <= n)%nat ->
     exists m',
       evaporate_times cfg n m = Some m' /\
       grid_shape m' (width cfg) (height cfg) /\
       forall i j v,
         grid_get m i j = Some v ->
         exists v',
           grid_get m' i j = Some v' /\
           (v' == Qmax 0 (v - inject_Z (Z.of_nat n)
                              * (evaporateSpeed cfg * deltaTime cfg)))%Q)
  /\
  (evaporate_times (F:=float) (sized_config 1 1 0 0) 99 [[of_int 1]]
   = Some [[0x1.47ae147ae1298p-7%float]] /\
   py_max (F:=float) (of_int 0)
          (sub (of_int 1)
               (mul (of_int 99)
                    (mul (evaporateSpeed default_config)
                         (deltaTime default_config))))
   = 0x1.47ae147ae14p-7%float /\
   ltb 0x1.47ae147ae1298p-7%float 0x1.47ae147ae14p-7%float = true).
Proof.
  split; [|split].
  - intros F AF cfg m n Hs. exact (evaporate_times_cellwise cfg n m Hs).
  - intros cfg m n Hs Hc Hn.
    destruct (evaporate_times_cellwise cfg n m Hs) as (m' & Hrun & Hs' & Hget).
    exists m'. split; [exact Hrun|]. split; [exact Hs'|].
    intros i j v Hv. rewrite Hget, Hv. cbn [option_map].
    eexists. split; [reflexivity|].
    destruct n as [|n]; [lia|]. now apply evaporate_iter_closed.
  - repeat split; vm_compute; reflexivity.
Qed.

(** X4 for three evaporations of a 2 x 2 array. *)
Lemma evaporate_times_closed_form_witness :
  exists m' v',
    evaporate_times (sized_config 2 2 0 0) 3 [[1; 1 # 200]; [0; 1 # 2]]%Q
    = Some m' /\
    grid_get m' 0 0 = Some v' /\ (v' == 97 # 100)%Q.
Proof.
  destruct (proj1 (proj2 evaporate_times_closed_form) (sized_config 2 2 0 0)
              [[1; 1 # 200]; [0; 1 # 2]]%Q 3%nat)
    as (m' & H & _ & Hcell).
  - split; [reflexivity|]. repeat constructor.
  - vm_compute. discriminate.
  - lia.
  - destruct (Hcell 0%Z 0%Z 1%Q eq_refl) as (v' & Hv' & E).
    exists m', v'. split; [exact H|]. split; [exact Hv'|].
    rewrite E. reflexivity.
Defined.

(** X5.  [evaporate_map] walks the cells [(i, j)] with [i < width] and
    [j < height] whatever array it is given.  In any arithmetic, it
    raises on an array with fewer than [width] rows (all of [height]
    columns, [height >= 1]), and on an array whose first row has fewer
    than [height] columns ([width >= 1]). *)
Theorem evaporate_map_raises_on_small_array
    (F : Type) (AF : Arith F) (cfg : Config) :
  (forall m : Grid (F:=F),
     Forall (fun row => length row = Z.to_nat (height cfg)) m ->
     (length m < Z.to_nat (width cfg))%nat ->
     (1 <= height cfg)%Z ->
     evaporate_map cfg m = None)
  /\
  (forall (row : list F) (rest : Grid (F:=F)),
     (length row < Z.to_nat (height cfg))%nat ->
     (1 <= width cfg)%Z ->
     evaporate_map cfg (row :: rest) = None).
Proof.
  split.
  - intros m Hall Hlen Hh. unfold evaporate_map.
    rewrite (range_split (width cfg) (length m) Hlen), fold_opt_app.
    pose proof (evaporate_rows cfg m [] Hall) as E.
    cbn [length app] in E. rewrite E. cbn [fold_opt].
    rewrite (range_split (height cfg) 0) by lia.
    cbn [seq map app fold_opt].
    unfold grid_get at 1. rewrite length_map, axis_index_out. reflexivity.
  - intros row rest Hlen Hw. unfold evaporate_map.
    rewrite (range_split (width cfg) 0) by lia.
    cbn [seq map app fold_opt].
    rewrite (range_split (height cfg) (length row) Hlen), fold_opt_app.
    pose proof (evaporate_row cfg row [] (row :: rest) 0 eq_refl) as E.
    cbn [length app Z.of_nat] in E. change (Z.of_nat 0) with 0%Z.
    rewrite E. cbn [fold_opt list_set].
    unfold grid_get at 1. cbn [length nth_error].
    rewrite axis_index_in by lia. cbn [Z.to_nat nth_error].
    rewrite length_map, axis_index_out. reflexivity.
Qed.

(** X5 with the program's 200 x 355 grid on arrays that are too small,
    in binary64. *)
Lemma evaporate_map_raises_on_small_array_witness :
  evaporate_map (default_config (F:=float))
                (repeat (repeat (of_int 0) 355) 3) = None
  /\
  evaporate_map (default_config (F:=float))
                [[of_int 1; of_int 0]; [of_int 0; of_int 0]] = None.
Proof.
  split.
  - apply (proj1 (evaporate_map_raises_on_small_array float float_arith
                    default_config)).
    + apply Forall_forall. intros row Hin. apply repeat_spec in Hin.
      subst row. rewrite repeat_length. reflexivity.
    + rewrite repeat_length. vm_compute. lia.
    + vm_compute. discriminate.
  - apply (proj2 (evaporate_map_raises_on_small_array float float_arith
                    default_config)).
    + vm_compute. lia.
    + vm_compute. discriminate.
Defined.

(** ** [sense], further *)

Lemma sum_between (l : list Q) (a M : Q) :
  Forall (fun x => (0 <= x <= M)%Q) l ->
  (a <= fold_left Qplus l a <= a + inject_Z (Z.of_nat (length l)) * M)%Q.
Proof.
  revert a. induction l as [|x t IH]; intros a Hall.
  - cbn [fold_left length Z.of_nat]. change (inject_Z 0) with 0%Q. lra.
  - inversion Hall as [|? ? Hx Ht]; subst. cbn [fold_left].
    specialize (IH (a + x)%Q Ht).
    assert (E : (inject_Z (Z.of_nat (length (x :: t)))
                 == inject_Z (Z.of_nat (length t)) + 1)%Q).
    { cbn [length]. rewrite Nat2Z.inj_succ, <- Z.add_1_r, inject_Z_plus.
      reflexivity. }
    rewrite E. lra.
Qed.

Lemma grid_at_between (m : Grid (F:=Q)) (M : Q) (p : Z * Z) :
  (0 <= M)%Q ->
  Forall (Forall (fun v => (0 <= v <= M)%Q)) m ->
  (0 <= grid_at m p <= M)%Q.
Proof.
  intros HM Hall. unfold grid_at.
  destruct (grid_get m (fst p) (snd p)) as [v|] eqn:Hv.
  - unfold grid_get in Hv.
    destruct (axis_index (length m) (fst p)) as [r|]; [|discriminate].
    destruct (nth_error m r) as [row|] eqn:Hr; [|discriminate].
    destruct (axis_index (length row) (snd p)) as [c|]; [|discriminate].
    rewrite Forall_forall in Hall.
    specialize (Hall row (nth_error_In _ _ Hr)).
    rewrite Forall_forall in Hall. apply Hall. eapply nth_error_In; eauto.
  - change (of_int 0) with 0%Q. lra.
Qed.

Lemma length_range_any (lo hi : Z) :
  length (range lo hi) = Z.to_nat (hi - lo).
Proof. unfold range. now rewrite length_map, length_seq. Qed.

Lemma length_window (s cx cy : Z) :
  length (window s cx cy) = (Z.to_nat (2 * s + 1) * Z.to_nat (2 * s + 1))%nat.
Proof.
  unfold window.
  assert (H : forall (l l' : list Z),
             length (flat_map (fun ox =>
                       map (fun oy => ((cx + ox)%Z, (cy + oy)%Z)) l') l)
             = (length l * length l')%nat).
  { intros l l'. induction l as [|x t IH]; cbn [flat_map length];
      [reflexivity|].
    rewrite length_app, length_map, IH. reflexivity. }
  rewrite H, length_range_any. f_equal; f_equal; lia.
Qed.

(** X6.  In exact arithmetic, on an array of the right shape whose
    cells all lie between 0 and a whole number [M], as the cells of a
    run lie between 0 and 1, the value [sense] returns lies between 0
    and [(2 * sensorSize + 1)^2 * M], the number of cells of the window
    times [M].  For a bound that is no whole number the sum as binary64
    rounds it can pass the product: on a 20 x 20 array of cells 0.3,
    [sense] adds 81 cells to [0x1.84cccccccccd7p+4], above [81 * 0.3]
    as binary64 evaluates it. *)
Theorem sense_between :
  (forall (EF : Externals Q) (cfg : Config) (m : Grid) (a : Agent) (off : Q)
          (M : Z),
     grid_shape m (width cfg) (height cfg) ->
     (0 <= sensorSize cfg)%Z ->
     Forall (Forall (fun v => (0 <= v <= inject_Z M)%Q)) m ->
     (0 <= M)%Z ->
     exists t,
       sense cfg m a off = Some t /\
       (0 <= t
        <= inject_Z ((2 * sensorSize cfg + 1) * (2 * sensorSize cfg + 1) * M))%Q)
  /\
  (sense (EF:=example_externals) (sized_config 20 20 1 1)
         (repeat (repeat (dec 3 10) 20) 20) example_agent_binary64 (of_int 0)
   = Some 0x1.84cccccccccd7p+4%float /\
   ltb (mul (of_int 81) (dec 3 10)) 0x1.84cccccccccd7p+4%float = true).
Proof.
  split; [|split; vm_compute; reflexivity].
  intros EF cfg m a off M Hs Hsize Hall HM.
  assert (HMq : (0 <= inject_Z M)%Q)
    by (change 0%Q with (inject_Z 0); now rewrite <- Zle_Qle).
  eexists. split.
  - apply sense_window_sum; [exact Hs | apply sensor_cell_exact].
  - unfold window_sum. cbn [add of_int Q_arith]. change (inject_Z 0) with 0%Q.
    set (l := map (grid_at m) _).
    assert (Hl : Forall (fun x => (0 <= x <= inject_Z M)%Q) l).
    { subst l. apply Forall_forall. intros x Hin.
      apply in_map_iff in Hin. destruct Hin as (p & <- & _).
      now apply grid_at_between. }
    pose proof (sum_between l 0 (inject_Z M) Hl) as [H1 H2].
    split; [exact H1|].
    assert (Hlen : (length l
                    <= Z.to_nat (2 * sensorSize cfg + 1)
                       * Z.to_nat (2 * sensorSize cfg + 1))%nat).
    { subst l. rewrite length_map.
      etransitivity; [apply filter_length_le|].
      now rewrite length_window. }
    assert (Hq : (inject_Z (Z.of_nat (length l))
                  <= inject_Z ((2 * sensorSize cfg + 1)
                               * (2 * sensorSize cfg + 1)))%Q).
    { rewrite <- Zle_Qle. nia. }
    rewrite inject_Z_mult. nra.
Qed.

(** X6 on the 8 x 6 grid of cells between 0 and 1. *)
Lemma sense_between_witness :
  exists t,
    sense (EF:=example_externals) (sized_config 8 6 2 2) example_grid
          example_agent 0%Q = Some t /\
    (0 <= t <= 81)%Q.
Proof.
  destruct (proj1 sense_between example_externals (sized_config 8 6 2 2)
              example_grid example_agent 0%Q 1%Z)
    as (t & H & Hb).
  - split; [reflexivity|]. repeat constructor.
  - vm_compute. discriminate.
  - repeat constructor; vm_compute; discriminate.
  - lia.
  - exists t. split; [exact H|]. exact Hb.
Defined.

Lemma range_empty (lo hi : Z) : (hi <= lo)%Z -> range lo hi = [].
Proof.
  intros H. unfold range. replace (Z.to_nat (hi - lo)) with 0%nat by lia.
  reflexivity.
Qed.

(** X7.  With a negative [sensorSize] the loops of [sense] are empty:
    [sense] returns 0 without reading the array, whatever its shape,
    and [steer], finding three equal weights, returns the agent as it
    was.  In any arithmetic once the sensor cell is defined, and always
    in exact arithmetic. *)
Theorem sense_negative_size :
  (forall (F : Type) (AF : Arith F) (EF : Externals F) (cfg : Config)
          (m : Grid) (a : Agent) (off : F) (c : Z * Z),
     (sensorSize cfg < 0)%Z ->
     sensor_cell cfg a off = Some c ->
     sense cfg m a off = Some (of_int 0))
  /\
  (forall (EF : Externals Q) (cfg : Config) (a : Agent) (w : World) (off : Q),
     (sensorSize cfg < 0)%Z ->
     sense cfg (DrawMap w) a off = Some 0%Q /\
     steer cfg a w = Some (a, world_after w (DrawMap w) 1)).
Proof.
  assert (G : forall (F : Type) (AF : Arith F) (EF : Externals F)
                     (cfg : Config) (m : Grid) (a : Agent) (off : F)
                     (c : Z * Z),
             (sensorSize cfg < 0)%Z ->
             sensor_cell cfg a off = Some c ->
             sense cfg m a off = Some (of_int 0)).
  { intros F AF EF cfg m a off [cx cy] Hneg Hc. unfold sense.
    rewrite Hc, range_empty by lia. reflexivity. }
  split; [exact G|].
  intros EF cfg a w off Hneg.
  assert (S0 : forall o, sense cfg (DrawMap w) a o = Some 0%Q).
  { intros o. apply (G Q Q_arith EF cfg (DrawMap w) a o _ Hneg
                       (sensor_cell_exact cfg a o)). }
  split; [apply S0|].
  rewrite (steer_run cfg a w 0%Q 0%Q 0%Q (S0 _) (S0 _) (S0 _)).
  reflexivity.
Qed.

(** X7 with half-size -1 on the 8 x 6 grid. *)
Lemma sense_negative_size_witness :
  sense (EF:=example_externals)
        {| moveSpeed := 10; deltaTime := 1 # 10; N := 2; width := 8;
           height := 6; nrAgents := 2; evaporateSpeed := 1 # 10;
           sensorOffsetDst := 5; sensorSize := -1;
           sensorAngleSpacing := 78 # 100; turnSpeed := 5 # 2;
           diffuseFaktor := 4 # 10 |}%Q
        example_grid example_agent 0%Q
  = Some 0%Q.
Proof.
  apply (proj1 sense_negative_size Q Q_arith example_externals _
           example_grid example_agent 0%Q (7, 3)%Z).
  - vm_compute. reflexivity.
  - vm_compute. reflexivity.
Defined.

(** X8.  With [sensorSize = 0] the window is the sensor cell alone: in
    exact arithmetic, on an array of the right shape with [width] and
    [height] at least 1, [sense] returns [0 + v] for the value [v] of
    the cell obtained from the sensor centre by truncation and clamping
    into the grid. *)
Theorem sense_zero_size
    (EF : Externals Q) (cfg : Config) (m : Grid) (a : Agent) (off : Q) :
  grid_shape m (width cfg) (height cfg) ->
  (1 <= width cfg)%Z -> (1 <= height cfg)%Z ->
  sensorSize cfg = 0%Z ->
  exists v,
    grid_get m
      (Z.min (width cfg - 1)
         (Z.max 0 (Qtrunc (fst (sensor_center cfg a off)))))
      (Z.min (height cfg - 1)
         (Z.max 0 (Qtrunc (snd (sensor_center cfg a off)))))
    = Some v /\
    sense cfg m a off = Some (0 + v)%Q.
Proof.
  intros Hs Hw Hh Hz.
  set (cx := Z.min (width cfg - 1) _). set (cy := Z.min (height cfg - 1) _).
  assert (Hin : in_grid cfg cx cy = true).
  { unfold in_grid. rewrite !andb_true_iff, !Z.leb_le, !Z.ltb_lt.
    subst cx cy. lia. }
  exists (grid_at m (cx, cy)). split.
  - exact (in_grid_get cfg m cx cy Hs Hin).
  - rewrite (sense_window_sum cfg m a off cx cy Hs (sensor_cell_exact cfg a off)).
    unfold window_sum, window. rewrite Hz.
    change (range (- 0) (0 + 1)) with [0%Z].
    cbn [flat_map map app]. rewrite !Z.add_0_r.
    cbn [filter fst snd]. rewrite Hin. reflexivity.
Qed.

(** X8 on the 8 x 6 grid. *)
Lemma sense_zero_size_witness :
  exists v,
    sense (EF:=example_externals)
          {| moveSpeed := 10; deltaTime := 1 # 10; N := 2; width := 8;
             height := 6; nrAgents := 2; evaporateSpeed := 1 # 10;
             sensorOffsetDst := 5; sensorSize := 0;
             sensorAngleSpacing := 78 # 100; turnSpeed := 5 # 2;
             diffuseFaktor := 4 # 10 |}%Q
          example_grid example_agent 0%Q
    = Some (0 + v)%Q.
Proof.
  destruct (sense_zero_size example_externals
              {| moveSpeed := 10; deltaTime := 1 # 10; N := 2; width := 8;
                 height := 6; nrAgents := 2; evaporateSpeed := 1 # 10;
                 sensorOffsetDst := 5; sensorSize := 0;
                 sensorAngleSpacing := 78 # 100; turnSpeed := 5 # 2;
                 diffuseFaktor := 4 # 10 |}%Q
              example_grid example_agent 0%Q)
    as (v & _ & H).
  - split; [reflexivity|]. repeat constructor.
  - vm_compute. discriminate.
  - vm_compute. discriminate.
  - reflexivity.
  - exists v. exact H.
Defined.

(** ** [steer], further *)

Lemma steer_angle_turn (cfg : Config) (a : Agent) (wF wL wR r : Q) :
  let T := (turnSpeed cfg * deltaTime cfg)%Q in
  let a' := steer_angle cfg a wF wL wR r in
  (0 <= T)%Q -> (0 <= r < 1)%Q ->
  (angle a - T <= angle a' <= angle a + T)%Q /\
  ((wL < wF)%Q -> (wR < wF)%Q -> (angle a' == angle a)%Q) /\
  (~ ((wL < wF)%Q /\ (wR < wF)%Q) -> ~ ((wF < wL)%Q /\ (wF < wR)%Q) ->
   (wL < wR)%Q -> (angle a - T <= angle a' <= angle a)%Q) /\
  (~ ((wL < wF)%Q /\ (wR < wF)%Q) -> ~ ((wF < wL)%Q /\ (wF < wR)%Q) ->
   (wR < wL)%Q -> (angle a <= angle a' <= angle a + T)%Q).
Proof.
  intros T a' HT Hr. subst a'. unfold steer_angle.
  cbn [ltb add sub mul of_int Q_arith].
  assert (E5 : (dec 5 10 == 1 # 2)%Q) by reflexivity.
  assert (E1 : ((r - dec 5 10) * inject_Z 2 * turnSpeed cfg * deltaTime cfg
                == (2 * r - 1) * T)%Q)
    by (rewrite E5; change (inject_Z 2) with 2%Q; unfold T; ring).
  assert (E2 : (r * turnSpeed cfg * deltaTime cfg == r * T)%Q)
    by (unfold T; ring).
  change (inject_Z 0) with 0%Q.
  clearbody T.
  destruct (Qltb wL wF) eqn:A1; destruct (Qltb wR wF) eqn:A2;
    destruct (Qltb wF wL) eqn:A3; destruct (Qltb wF wR) eqn:A4;
    destruct (Qltb wL wR) eqn:A5; destruct (Qltb wR wL) eqn:A6;
    first [apply Qltb_lt in A1 | apply Qltb_ge in A1];
    first [apply Qltb_lt in A2 | apply Qltb_ge in A2];
    first [apply Qltb_lt in A3 | apply Qltb_ge in A3];
    first [apply Qltb_lt in A4 | apply Qltb_ge in A4];
    first [apply Qltb_lt in A5 | apply Qltb_ge in A5];
    first [apply Qltb_lt in A6 | apply Qltb_ge in A6];
    try lra;
    cbn [andb angle]; rewrite ?E1, ?E2;
    repeat split; intros; try lra; try nra; try tauto.
Qed.

(** X9.  In exact arithmetic, for a draw in [[0, 1)] and
    [turnSpeed * deltaTime >= 0], one call of [steer] on an array of the
    right shape returns, leaves the position and the array alone, and
    turns the heading by at most [turnSpeed * deltaTime] in either
    direction. *)
Theorem steer_turn_bounded
    (EF : Externals Q) (cfg : Config) (a : Agent) (w : World) :
  grid_shape (DrawMap w) (width cfg) (height cfg) ->
  (0 <= turnSpeed cfg * deltaTime cfg)%Q ->
  (0 <= draws (generator w) (cursor (generator w)) < 1)%Q ->
  exists a',
    steer cfg a w = Some (a', world_after w (DrawMap w) 1) /\
    pos a' = pos a /\
    (angle a - turnSpeed cfg * deltaTime cfg
     <= angle a'
     <= angle a + turnSpeed cfg * deltaTime cfg)%Q.
Proof.
  intros Hs HT Hr.
  destruct (sense_exact cfg (DrawMap w) a (of_int 0) Hs) as [wF HF].
  destruct (sense_exact cfg (DrawMap w) a (sensorAngleSpacing cfg) Hs)
    as [wL HL].
  destruct (sense_exact cfg (DrawMap w) a (opp (sensorAngleSpacing cfg)) Hs)
    as [wR HR].
  eexists. split; [exact (steer_run cfg a w wF wL wR HF HL HR)|].
  split; [apply steer_angle_keeps_pos|].
  apply (steer_angle_turn cfg a wF wL wR _ HT Hr).
Qed.

(** X9 at the agent in the middle of the 8 x 6 grid. *)
Lemma steer_turn_bounded_witness :
  exists a',
    steer (EF:=example_externals) (sized_config 8 6 2 2) example_agent
          example_world
    = Some (a', world_after example_world example_grid 1) /\
    (- (1 # 4) <= angle a' <= 1 # 4)%Q.
Proof.
  destruct (steer_turn_bounded example_externals (sized_config 8 6 2 2)
              example_agent example_world)
    as (a' & H & _ & Hb).
  - split; [reflexivity|]. repeat constructor.
  - vm_compute. discriminate.
  - split; vm_compute; [discriminate | reflexivity].
  - exists a'. split; [exact H|].
    change (angle example_agent) with 0%Q in Hb.
    assert (E : (turnSpeed (sized_config 8 6 2 2)
                 * deltaTime (sized_config 8 6 2 2) == 1 # 4)%Q)
      by reflexivity.
    rewrite E in Hb. lra.
Defined.

(** X10.  In exact arithmetic, for a draw in [[0, 1)] and
    [turnSpeed * deltaTime >= 0], [steer] turns toward the larger
    weight.  When the forward weight is the largest of the three the
    heading keeps its value.  Otherwise, unless the forward weight is
    the smallest of the three, the heading does not increase when the
    right weight (sensed at a lower angle) is larger than the left one,
    and does not decrease when the left weight is larger. *)
Theorem steer_turns_toward_larger_weight
    (EF : Externals Q) (cfg : Config) (a : Agent) (w : World)
    (wF wL wR : Q) :
  sense cfg (DrawMap w) a (of_int 0) = Some wF ->
  sense cfg (DrawMap w) a (sensorAngleSpacing cfg) = Some wL ->
  sense cfg (DrawMap w) a (opp (sensorAngleSpacing cfg)) = Some wR ->
  (0 <= turnSpeed cfg * deltaTime cfg)%Q ->
  (0 <= draws (generator w) (cursor (generator w)) < 1)%Q ->
  exists a',
    steer cfg a w = Some (a', world_after w (DrawMap w) 1) /\
    ((wL < wF)%Q -> (wR < wF)%Q -> (angle a' == angle a)%Q) /\
    (~ ((wL < wF)%Q /\ (wR < wF)%Q) -> ~ ((wF < wL)%Q /\ (wF < wR)%Q) ->
     (wL < wR)%Q ->
     (angle a - turnSpeed cfg * deltaTime cfg <= angle a' <= angle a)%Q) /\
    (~ ((wL < wF)%Q /\ (wR < wF)%Q) -> ~ ((wF < wL)%Q /\ (wF < wR)%Q) ->
     (wR < wL)%Q ->
     (angle a <= angle a' <= angle a + turnSpeed cfg * deltaTime cfg)%Q).
Proof.
  intros HF HL HR HT Hr.
  eexists. split; [exact (steer_run cfg a w wF wL wR HF HL HR)|].
  apply (steer_angle_turn cfg a wF wL wR _ HT Hr).
Qed.

(** X10 with trail on the left of the agent only: the heading does not
    decrease. *)
Lemma steer_turns_toward_larger_weight_witness :
  exists a',
    steer (EF:=example_externals) point_sensor_config example_agent
          example_world_trail
    = Some (a', world_after example_world_trail
                  (DrawMap example_world_trail) 1) /\
    (angle example_agent <= angle a')%Q.
Proof.
  destruct (steer_turns_toward_larger_weight example_externals
              point_sensor_config example_agent example_world_trail
              0%Q 1%Q 0%Q)
    as (a' & H & _ & _ & Hleft).
  - vm_compute. reflexivity.
  - vm_compute. reflexivity.
  - vm_compute. reflexivity.
  - vm_compute. discriminate.
  - split; vm_compute; [discriminate | reflexivity].
  - exists a'. split; [exact H|]. apply Hleft; lra.
Defined.

(** ** [update_agent], further *)

(** X11.  In exact arithmetic, with draws in [[0, 1)] and
    [turnSpeed * deltaTime >= 0], the heading [update_agent] leaves is
    within [turnSpeed * deltaTime] of the old heading when the
    tentative position is on the grid, and within [turnSpeed *
    deltaTime] of the fresh heading [r * 2 * PI] of line 53 when it is
    not: after a bounce the old heading plays no part, and the fresh
    one has already been steered once. *)
Theorem update_agent_heading
    (EF : Externals Q) (cfg : Config) (a : Agent) (w : World) :
  (1 <= width cfg)%Z -> (1 <= height cfg)%Z ->
  grid_shape (DrawMap w) (width cfg) (height cfg) ->
  (0 <= turnSpeed cfg * deltaTime cfg)%Q ->
  unit_draws (generator w) ->
  exists a' w',
    update_agent cfg a w = Some (a', w') /\
    let h := if out_of_bounds cfg (tentative cfg a)
             then (draws (generator w) (cursor (generator w)) * 2 * PI)%Q
             else angle a in
    (h - turnSpeed cfg * deltaTime cfg
     <= angle a'
     <= h + turnSpeed cfg * deltaTime cfg)%Q.
Proof.
  intros Hw Hh Hs HT Hd.
  destruct (update_agent_exact cfg Hw Hh a w Hs)
    as (m' & wF & wL & wR & _ & _ & _ & _ & Hrun).
  eexists _, _. split; [exact Hrun|]. cbv zeta.
  pose proof (steer_angle_turn cfg
                (moved cfg a (draws (generator w) (cursor (generator w))))
                wF wL wR
                (draws (generator w)
                   ((if out_of_bounds cfg (tentative cfg a)
                     then 1%nat else 0%nat) + cursor (generator w)))
                HT (Hd _)) as [Hb _].
  unfold moved in Hb at 1 4.
  destruct (out_of_bounds cfg (tentative cfg a)); exact Hb.
Qed.

(** X11 at the agent about to leave the 8 x 6 grid. *)
Lemma update_agent_heading_witness :
  exists a' w',
    update_agent (EF:=example_externals) (sized_config 8 6 2 2)
                 example_agent_at_edge example_world = Some (a', w') /\
    ((1 # 2) * 2 * (355 # 113) - (1 # 4)
     <= angle a'
     <= (1 # 2) * 2 * (355 # 113) + (1 # 4))%Q.
Proof.
  destruct (update_agent_heading example_externals (sized_config 8 6 2 2)
              example_agent_at_edge example_world)
    as (a' & w' & H & Hb).
  - vm_compute. discriminate.
  - vm_compute. discriminate.
  - split; [reflexivity|]. repeat constructor.
  - vm_compute. discriminate.
  - intros k. split; vm_compute; [discriminate | reflexivity].
  - exists a', w'. split; [exact H|].
    assert (E : out_of_bounds (sized_config 8 6 2 2)
                  (tentative (EF:=example_externals) (sized_config 8 6 2 2)
                             example_agent_at_edge)
                = true) by (vm_compute; reflexivity).
    rewrite E in Hb. cbv zeta in Hb.
    assert (ET : (turnSpeed (sized_config 8 6 2 2)
                  * deltaTime (sized_config 8 6 2 2) == 1 # 4)%Q)
      by reflexivity.
    assert (EP : (@PI Q example_externals == 355 # 113)%Q) by reflexivity.
    rewrite ET, EP in Hb. exact Hb.
Defined.

(** ** The agents at the start *)

Lemma for_each_new_agent_closed
    {F : Type} {AF : Arith F} {EF : Externals F} (cfg : Config (F:=F))
    (l : list Z) (w : World (F:=F)) :
  for_each (new_agent cfg) l w
  = Some (map (fun k => agent_from cfg (draws (generator w))
                          (cursor (generator w) + 3 * k))
              (seq 0 (length l)),
          world_after w (DrawMap w) (3 * length l)).
Proof.
  revert w. induction l as [|x l IH]; intros w.
  - cbn. unfold ret, world_after. destruct w as [m [d c]]. reflexivity.
  - cbn [for_each]. unfold bind at 1. unfold new_agent at 1.
    unfold bind at 1 2 3, random, ret at 1. cbn [DrawMap generator draws cursor].
    unfold bind at 1. rewrite IH. unfold bind, ret.
    cbn [DrawMap generator draws cursor world_after length seq map].
    rewrite <- seq_shift, map_map.
    rewrite (map_ext
               (fun k => agent_from cfg (draws (generator w))
                           (cursor (generator w) + 3 * S k)%nat)
               (fun k => agent_from cfg (draws (generator w))
                           (S (S (S (cursor (generator w)))) + 3 * k)%nat))
      by (intros k; f_equal; lia).
    rewrite Nat.mul_0_r, Nat.add_0_r. unfold agent_from at 3, world_after.
    cbn [DrawMap generator draws cursor].
    replace (3 * length l + S (S (S (cursor (generator w)))))%nat
      with (3 * S (length l) + cursor (generator w))%nat by lia.
    reflexivity.
Qed.

Lemma initialize_closed_form
    {F : Type} {AF : Arith F} {EF : Externals F} (cfg : Config (F:=F))
    (g : Rng (F:=F)) :
  (0 <= width cfg)%Z -> (0 <= height cfg)%Z ->
  initialize cfg g
  = Some (map (initial_agent cfg g) (seq 0 (Z.to_nat (nrAgents cfg))),
          {| DrawMap := repeat (repeat (of_int 0) (Z.to_nat (height cfg)))
                               (Z.to_nat (width cfg));
             generator := {| draws := draws g;
                             cursor := 3 * Z.to_nat (nrAgents cfg)
                                       + cursor g |} |}).
Proof.
  intros Hw Hh. unfold initialize, np_zeros.
  replace ((width cfg <? 0)%Z || (height cfg <? 0)%Z) with false
    by (symmetry; apply orb_false_iff; split; apply Z.ltb_ge; lia).
  unfold make_agents. rewrite for_each_new_agent_closed.
  rewrite length_range. reflexivity.
Qed.

(** X12.  In any arithmetic, with [width] and [height] not negative,
    [initialize] returns [max(0, nrAgents)] agents and an array of zeros
    of the shape [(width, height)].  It consumes three draws for each
    agent, in the order x, y, heading: the [k]-th agent has position
    [(r0 * width, r1 * height)] and heading [r2 * 2 * PI] for the draws
    [r0], [r1], [r2] at positions [3k], [3k + 1], [3k + 2] from the
    start. *)
Theorem initialize_agents
    (F : Type) (AF : Arith F) (EF : Externals F) (cfg : Config) (g : Rng) :
  (0 <= width cfg)%Z -> (0 <= height cfg)%Z ->
  initialize cfg g
  = Some (map (initial_agent cfg g) (seq 0 (Z.to_nat (nrAgents cfg))),
          {| DrawMap := repeat (repeat (of_int 0) (Z.to_nat (height cfg)))
                               (Z.to_nat (width cfg));
             generator := {| draws := draws g;
                             cursor := 3 * Z.to_nat (nrAgents cfg)
                                       + cursor g |} |}).
Proof.
  intros Hw Hh. unfold initialize, np_zeros.
  replace ((width cfg <? 0)%Z || (height cfg <? 0)%Z) with false
    by (symmetry; apply orb_false_iff; split; apply Z.ltb_ge; lia).
  unfold make_agents. rewrite for_each_new_agent_closed.
  rewrite length_range. reflexivity.
Qed.

(** X12 for two agents on the 8 x 6 grid, in binary64. *)
Lemma initialize_agents_witness :
  exists agents w,
    initialize (EF:=example_externals) (sized_config 8 6 2 2)
               (generator example_world_binary64) = Some (agents, w) /\
    length agents = 2%nat /\
    cursor (generator w) = 6%nat.
Proof.
  eexists _, _. split.
  - apply (initialize_agents float float_arith example_externals
             (sized_config 8 6 2 2) (generator example_world_binary64)).
    + vm_compute. discriminate.
    + vm_compute. discriminate.
  - split; reflexivity.
Defined.

(** X13.  In exact arithmetic, with draws in [[0, 1)], [width] and
    [height] at least 1 and a positive [PI], every agent [initialize]
    builds is on the grid and has a heading in [[0, 2 * PI)]. *)
Theorem initialize_agents_in_grid
    (EF : Externals Q) (cfg : Config) (g : Rng) :
  (1 <= width cfg)%Z -> (1 <= height cfg)%Z ->
  (0 < PI)%Q ->
  unit_draws g ->
  exists agents w,
    initialize cfg g = Some (agents, w) /\
    Forall (fun a => agent_in_grid cfg a /\ (0 <= angle a < 2 * PI)%Q) agents.
Proof.
  intros Hw Hh Hpi Hd. eexists _, _. split.
  - apply initialize_closed_form; lia.
  - apply Forall_forall. intros a Hin. apply in_map_iff in Hin.
    destruct Hin as (k & <- & _).
    unfold initial_agent, agent_from, agent_in_grid. cbn [pos angle fst snd].
    cbn [mul of_int Q_arith]. change (inject_Z 2) with 2%Q.
    pose proof (Hd (cursor g + 3 * k)%nat) as H0.
    pose proof (Hd (S (cursor g + 3 * k))) as H1.
    pose proof (Hd (S (S (cursor g + 3 * k)))) as H2.
    assert (HW : (1 <= inject_Z (width cfg))%Q)
      by (change 1%Q with (inject_Z 1); now rewrite <- Zle_Qle).
    assert (HH : (1 <= inject_Z (height cfg))%Q)
      by (change 1%Q with (inject_Z 1); now rewrite <- Zle_Qle).
    repeat split; nra.
Qed.

(** X13 for two agents on the 8 x 6 grid. *)
Lemma initialize_agents_in_grid_witness :
  exists agents w,
    initialize (EF:=example_externals) (sized_config 8 6 2 2) example_rng
    = Some (agents, w) /\
    Forall (agent_in_grid (sized_config 8 6 2 2)) agents.
Proof.
  destruct (initialize_agents_in_grid example_externals
              (sized_config 8 6 2 2) example_rng)
    as (agents & w & H & Hall).
  - vm_compute. discriminate.
  - vm_compute. discriminate.
  - vm_compute. reflexivity.
  - intros k. split; vm_compute; [discriminate | reflexivity].
  - exists agents, w. split; [exact H|].
    eapply Forall_impl; [|exact Hall]. intros a [Ha _]. exact Ha.
Defined.

(** X14.  In any arithmetic, a run of [construct] that returns has
    shown [max(0, N)] frames with [max(0, nrAgents)] agents in each, and
    has taken three draws for each agent at the start and then between
    one and two draws for each agent in each step.  In exact arithmetic,
    on a grid of at least one cell with a blur that keeps the shape,
    the run does return. *)
Theorem construct_population :
  (forall (F : Type) (AF : Arith F) (EF : Externals F) (cfg : Config)
          (g : Rng) (frames : list Frame) (w : World),
     construct cfg g = Some (frames, w) ->
     length frames = Z.to_nat (N cfg) /\
     Forall (fun fr => length (fst fr) = Z.to_nat (nrAgents cfg)) frames /\
     (cursor g + (3 + Z.to_nat (N cfg)) * Z.to_nat (nrAgents cfg)
      <= cursor (generator w))%nat /\
     (cursor (generator w)
      <= cursor g + (3 + 2 * Z.to_nat (N cfg)) * Z.to_nat (nrAgents cfg))%nat) /\
  (forall (EF : Externals Q) (cfg : Config) (g : Rng),
     (1 <= width cfg)%Z -> (1 <= height cfg)%Z ->
     (forall m sigma,
        grid_shape m (width cfg) (height cfg) ->
        grid_shape (gaussian_filter m sigma) (width cfg) (height cfg)) ->
     exists frames w,
       construct cfg g = Some (frames, w) /\
       length frames = Z.to_nat (N cfg) /\
       Forall (fun fr => length (fst fr) = Z.to_nat (nrAgents cfg)) frames).
Proof.
  assert (G : forall (F : Type) (AF : Arith F) (EF : Externals F)
                     (cfg : Config) (g : Rng) (frames : list Frame) (w : World),
             construct cfg g = Some (frames, w) ->
             length frames = Z.to_nat (N cfg) /\
             Forall (fun fr => length (fst fr) = Z.to_nat (nrAgents cfg)) frames /\
             (cursor g + (3 + Z.to_nat (N cfg)) * Z.to_nat (nrAgents cfg)
              <= cursor (generator w))%nat /\
             (cursor (generator w)
              <= cursor g + (3 + 2 * Z.to_nat (N cfg)) * Z.to_nat (nrAgents cfg))%nat).
  { intros F AF EF cfg g frames w Hrun.
    assert (Hpop : length frames = Z.to_nat (N cfg) /\
                   Forall (fun fr => length (fst fr) = Z.to_nat (nrAgents cfg))
                          frames).
    { unfold construct in Hrun.
      destruct (initialize cfg g) as [[agents w0]|] eqn:Hinit; [|discriminate].
      unfold initialize in Hinit.
      destruct (np_zeros (width cfg) (height cfg)) as [m0|]; [|discriminate].
      apply make_agents_length in Hinit. rewrite <- Hinit.
      eapply main_loop_population; eauto. }
    destruct Hpop as [Hlen Hall]. split; [exact Hlen|]. split; [exact Hall|].
    rewrite construct_as_bind in Hrun.
    destruct (np_zeros (width cfg) (height cfg)) as [m0|]; [|discriminate].
    pose proof (reads_construct_world cfg
                  {| DrawMap := m0; generator := g |}
                  {| DrawMap := m0; generator := g |}
                  (cursor g + (3 + 2 * Z.to_nat (N cfg)) * Z.to_nat (nrAgents cfg))%nat
                  (world_agree_before_refl _ _) (Nat.le_refl _)) as H.
    rewrite Hrun in H. cbn [generator cursor] in H.
    destruct H as (_ & _ & Hlo & Hhi). split; assumption. }
  split; [exact G|].
  intros EF cfg g Hw Hh Hb.
  destruct (construct_frames EF cfg g Hw Hh Hb)
    as (agents & w0 & frames & w & _ & Hrun & _).
  exists frames, w. split; [exact Hrun|].
  destruct (G _ _ _ _ _ _ _ Hrun) as (Hlen & Hall & _). split; assumption.
Qed.

(** X14 on the 8 x 6 grid with two agents and two steps, in exact
    arithmetic and in binary64. *)
Lemma construct_population_witness :
  (exists frames w,
     construct (EF:=example_externals) (sized_config 8 6 2 2) example_rng
     = Some (frames, w) /\
     length frames = 2%nat /\
     Forall (fun fr => length (fst fr) = 2%nat) frames) /\
  (exists frames w,
     construct (EF:=example_externals) (sized_config 8 6 2 2)
               (generator example_world_binary64) = Some (frames, w) /\
     (10 <= cursor (generator w) <= 14)%nat).
Proof.
  split.
  - apply (proj2 construct_population example_externals
             (sized_config 8 6 2 2) example_rng).
    + vm_compute. discriminate.
    + vm_compute. discriminate.
    + intros m sigma H. exact H.
  - destruct (construct (EF:=example_externals) (sized_config 8 6 2 2)
                        (generator example_world_binary64))
      as [[frames w]|] eqn:Hrun; [|vm_compute in Hrun; discriminate].
    exists frames, w. split; [reflexivity|].
    destruct (proj1 construct_population float float_arith example_externals
                (sized_config 8 6 2 2) (generator example_world_binary64)
                frames w Hrun) as (_ & _ & Hlo & Hhi).
    split; [exact Hlo | exact Hhi].
Defined.



(** ** The array stays between 0 and 1 *)

Lemma list_set_Forall {A : Type} (P : A -> Prop) (l : list A) (k : nat) (v : A) :
  Forall P l -> P v -> Forall P (list_set l k v).
Proof.
  intros Hl Hv. revert k. induction Hl as [|x l Hx Hl IH]; intros k.
  - destruct k; constructor.
  - destruct k; cbn [list_set]; constructor; auto.
Qed.

Lemma grid_set_unit (m m' : Grid (F:=Q)) (i j : Z) :
  grid_unit m -> grid_set m i j (of_int 1) = Some m' -> grid_unit m'.
Proof.
  unfold grid_set. intros Hu H.
  destruct (axis_index (length m) i) as [r|]; [|discriminate].
  destruct (nth_error m r) as [row|] eqn:Hr; [|discriminate].
  destruct (axis_index (length row) j) as [c|]; [|discriminate].
  injection H as <-. apply list_set_Forall; [exact Hu|].
  apply list_set_Forall.
  - unfold grid_unit in Hu. rewrite Forall_forall in Hu.
    apply Hu. eapply nth_error_In; eauto.
  - cbn [of_int Q_arith]. change (inject_Z 1) with 1%Q. lra.
Qed.

Lemma clip_unit_grid (m : Grid (F:=Q)) :
  grid_unit m ->
  map (map (fun v => np_clip v (of_int 0) (of_int 1))) m = m.
Proof.
  intros Hu. rewrite <- (map_id m) at 2.
  apply map_ext_in. intros row Hrow. rewrite <- (map_id row) at 2.
  apply map_ext_in. intros v Hv.
  unfold grid_unit in Hu. rewrite Forall_forall in Hu.
  specialize (Hu row Hrow). rewrite Forall_forall in Hu.
  exact (proj2 (proj2 (proj2 (clip_unit v))) (Hu v Hv)).
Qed.

Section UnitRun.

Context {EF : Externals Q}.
Variable cfg : Config (F:=Q).
Hypothesis width_pos : (1 <= width cfg)%Z.
Hypothesis height_pos : (1 <= height cfg)%Z.
Hypothesis blur_shape :
  forall m sigma,
    grid_shape m (width cfg) (height cfg) ->
    grid_shape (gaussian_filter m sigma) (width cfg) (height cfg).
Hypothesis blur_unit :
  forall m sigma,
    grid_shape m (width cfg) (height cfg) -> grid_unit m ->
    grid_unit (gaussian_filter m sigma).
Hypothesis decay_nonneg : (0 <= evaporateSpeed cfg * deltaTime cfg)%Q.

Lemma agent_turn_unit (a a' : Agent) (w w' : World) :
  agent_turn cfg a w a' w' ->
  grid_shape (DrawMap w) (width cfg) (height cfg) -> grid_unit (DrawMap w) ->
  grid_shape (DrawMap w') (width cfg) (height cfg) /\ grid_unit (DrawMap w').
Proof.
  intros H Hs Hu. inversion H; subst. cbn [DrawMap world_after]. split.
  - eapply grid_set_shape; eauto.
  - eapply grid_set_unit; eauto.
Qed.

Lemma agent_pass_unit (agents agents' : list Agent) (w w' : World) :
  agent_pass cfg agents w agents' w' ->
  grid_shape (DrawMap w) (width cfg) (height cfg) -> grid_unit (DrawMap w) ->
  grid_shape (DrawMap w') (width cfg) (height cfg) /\ grid_unit (DrawMap w').
Proof.
  induction 1 as [|a a' rest rest' w w1 w2 Hturn _ IH]; intros Hs Hu.
  - split; assumption.
  - destruct (agent_turn_unit _ _ _ _ Hturn Hs Hu) as [Hs1 Hu1]. now apply IH.
Qed.

Lemma evaporated_unit (m : Grid) :
  grid_unit m -> grid_unit (map (map (evaporate_cell cfg)) m).
Proof.
  unfold grid_unit. intros Hu. rewrite Forall_map.
  eapply Forall_impl; [|exact Hu]. intros row Hrow. cbn beta.
  rewrite Forall_map. eapply Forall_impl; [|exact Hrow]. intros v Hv.
  cbn beta in Hv |- *. pose proof decay_nonneg as Hc.
  split; [apply evaporate_cell_nonneg|].
  rewrite evaporate_cell_max. apply Q.max_lub; lra.
Qed.

Lemma main_loop_unit (n : nat) (agents : list Agent) (w : World) :
  grid_shape (DrawMap w) (width cfg) (height cfg) -> grid_unit (DrawMap w) ->
  exists frames w',
    main_loop cfg n agents w = Some (frames, w') /\
    Forall (fun fr => grid_unit (snd fr)) frames.
Proof.
  revert agents w. induction n as [|n IH]; intros agents w Hs Hu.
  - exists [], w. split; [reflexivity | constructor].
  - destruct (run_step_exact cfg width_pos height_pos blur_shape agents w Hs)
      as (agents' & w1 & Hpass & Hrun & Hs2).
    destruct (agent_pass_unit _ _ _ _ Hpass Hs Hu) as [Hs1 Hu1].
    pose proof (evaporated_unit _ (blur_unit _ (diffuseFaktor cfg) Hs1 Hu1))
      as Hu2.
    set (w2 := {| DrawMap := _; generator := generator w1 |}) in Hrun.
    destruct (IH agents' w2 Hs2 Hu2) as (frames & w' & Hloop & Hall).
    exists ((agents', DrawMap w2) :: frames), w'. split.
    + cbn [main_loop]. unfold bind. rewrite Hrun.
      cbn [get_map]. rewrite Hloop. reflexivity.
    + constructor; [exact Hu2 | exact Hall].
Qed.

End UnitRun.

(** X16.  In exact arithmetic, on a grid of at least one cell, with a
    blur that keeps the shape of the array and keeps values between 0
    and 1, and with [evaporateSpeed * deltaTime] not negative, every
    cell of every frame of a run lies between 0 and 1.  For these
    arrays the clipping of line 140 in [draw_draw_map] changes
    nothing. *)
Theorem construct_frames_unit (EF : Externals Q) (cfg : Config) (g : Rng) :
  (1 <= width cfg)%Z -> (1 <= height cfg)%Z ->
  (forall m sigma,
     grid_shape m (width cfg) (height cfg) ->
     grid_shape (gaussian_filter m sigma) (width cfg) (height cfg)) ->
  (forall m sigma,
     grid_shape m (width cfg) (height cfg) -> grid_unit m ->
     grid_unit (gaussian_filter m sigma)) ->
  (0 <= evaporateSpeed cfg * deltaTime cfg)%Q ->
  exists frames w,
    construct cfg g = Some (frames, w) /\
    Forall (fun fr =>
              grid_unit (snd fr) /\
              map (map (fun v => np_clip v (of_int 0) (of_int 1))) (snd fr)
              = snd fr)
           frames.
Proof.
  intros Hw Hh Hbs Hbu Hc. unfold construct.
  rewrite initialize_closed_form by lia.
  set (w0 := {| DrawMap := _; generator := _ |}).
  assert (Hs : grid_shape (DrawMap w0) (width cfg) (height cfg)).
  { split; [apply repeat_length|]. apply Forall_forall. intros row Hin.
    apply repeat_spec in Hin. subst row. apply repeat_length. }
  assert (Hu : grid_unit (DrawMap w0)).
  { apply Forall_forall. intros row Hin. apply repeat_spec in Hin. subst row.
    apply Forall_forall. intros v Hin. apply repeat_spec in Hin. subst v.
    cbn [of_int Q_arith]. change (inject_Z 0) with 0%Q. lra. }
  destruct (main_loop_unit cfg Hw Hh Hbs Hbu Hc (Z.to_nat (N cfg))
              (map (initial_agent cfg g) (seq 0 (Z.to_nat (nrAgents cfg))))
              w0 Hs Hu)
    as (frames & w & Hloop & Hall).
  exists frames, w. split; [exact Hloop|].
  eapply Forall_impl; [|exact Hall]. intros fr Hfr. cbn beta.
  split; [exact Hfr | now apply clip_unit_grid].
Qed.

(** X16 on the 8 x 6 grid with two agents and two steps. *)
Lemma construct_frames_unit_witness :
  exists frames w,
    construct (EF:=example_externals) (sized_config 8 6 2 2) example_rng
    = Some (frames, w) /\
    Forall (fun fr => grid_unit (snd fr)) frames.
Proof.
  destruct (construct_frames_unit example_externals
              (sized_config 8 6 2 2) example_rng)
    as (frames & w & Hrun & Hall).
  - vm_compute. discriminate.
  - vm_compute. discriminate.
  - intros m sigma H. exact H.
  - intros m sigma _ H. exact H.
  - vm_compute. discriminate.
  - exists frames, w. split; [exact Hrun|].
    eapply Forall_impl; [|exact Hall]. intros fr [H _]. exact H.
Defined.

(** ** A nan in the position *)

(** X17.  In binary64, when a coordinate of the tentative position is
    a nan: if the bounds test of line 49 does not fire, [update_agent]
    raises, at the conversion of the position to a cell; if it fires,
    whenever [update_agent] returns, the nan coordinate has been
    replaced by [min(width - 0.01, 0)], respectively
    [min(height - 0.01, 0)]. *)
Theorem update_agent_nan_position
    (EF : Externals float) (cfg : Config) (a : Agent) (w : World) :
  is_number (fst (tentative cfg a)) = false \/
  is_number (snd (tentative cfg a)) = false ->
  (out_of_bounds cfg (tentative cfg a) = false ->
   update_agent cfg a w = None) /\
  (out_of_bounds cfg (tentative cfg a) = true ->
   forall a' w',
     update_agent cfg a w = Some (a', w') ->
     (is_number (fst (tentative cfg a)) = false ->
      fst (pos a') = py_min (sub (of_int (width cfg)) (dec 1 100)) (of_int 0)) /\
     (is_number (snd (tentative cfg a)) = false ->
      snd (pos a') = py_min (sub (of_int (height cfg)) (dec 1 100)) (of_int 0))).
Proof.
  intros Hnan. split.
  - intros Hout. unfold update_agent. cbv zeta. rewrite Hout.
    unfold bind at 1, ret at 1. cbn [pos fst snd].
    unfold bind at 1, lift at 1. cbn [trunc float_arith].
    destruct Hnan as [Hx | Hy].
    + now rewrite (float_trunc_nan _ Hx).
    + destruct (float_trunc (fst (tentative cfg a))) as [i|]; [|reflexivity].
      unfold bind at 1, lift at 1. cbn [trunc float_arith].
      now rewrite (float_trunc_nan _ Hy).
  - intros Hout a' w' Hrun. apply update_agent_pos in Hrun. rewrite Hrun.
    unfold moved. rewrite Hout. cbn [pos]. unfold constrain. cbn [fst snd].
    split; intros H; unfold py_max; cbn [ltb float_arith];
      now rewrite (float_ltb_nan _ _ H).
Qed.

(** X17 in the 20 x 20 binary64 world: with y on the grid the update
    raises, with y beyond the grid the nan becomes 0. *)
Lemma update_agent_nan_position_witness :
  update_agent (EF:=example_externals) (sized_config 20 20 1 1)
               example_agent_nan example_world_binary64 = None /\
  exists a' w',
    update_agent (EF:=example_externals) (sized_config 20 20 1 1)
                 example_agent_nan_off_grid example_world_binary64
    = Some (a', w') /\
    fst (pos a') = of_int 0.
Proof.
  split.
  - destruct (update_agent_nan_position example_externals
                (sized_config 20 20 1 1) example_agent_nan
                example_world_binary64) as [Hraise _].
    + left. vm_compute. reflexivity.
    + apply Hraise. vm_compute. reflexivity.
  - destruct (update_agent (EF:=example_externals) (sized_config 20 20 1 1)
                example_agent_nan_off_grid example_world_binary64)
      as [[a' w']|] eqn:Hrun; [|vm_compute in Hrun; discriminate].
    exists a', w'. split; [reflexivity|].
    destruct (update_agent_nan_position example_externals
                (sized_config 20 20 1 1) example_agent_nan_off_grid
                example_world_binary64) as [_ Hfix].
    + left. vm_compute. reflexivity.
    + destruct (Hfix ltac:(vm_compute; reflexivity) a' w' Hrun) as [Hx _].
      rewrite Hx by (vm_compute; reflexivity).
      vm_compute. reflexivity.
Defined.

(** ** The array after a step, in any arithmetic *)

Section StepShape.

Context {F : Type} {AF : Arith F} {EF : Externals F}.
Variable cfg : Config (F:=F).
Hypothesis blur_shape :
  forall m sigma,
    grid_shape m (width cfg) (height cfg) ->
    grid_shape (gaussian_filter m sigma) (width cfg) (height cfg).

Lemma agent_pass_shape (agents agents' : list Agent) (w w' : World) :
  agent_pass cfg agents w agents' w' ->
  grid_shape (DrawMap w) (width cfg) (height cfg) ->
  grid_shape (DrawMap w') (width cfg) (height cfg).
Proof.
  induction 1 as [|a a' rest rest' w w1 w2 Hturn _ IH]; intros Hs.
  - exact Hs.
  - apply IH. inversion Hturn; subst. cbn [DrawMap world_after].
    eapply grid_set_shape; eauto.
Qed.

Lemma run_step_evaporated (agents agents' : list Agent) (w w' : World) :
  grid_shape (DrawMap w) (width cfg) (height cfg) ->
  run_step cfg agents w = Some (agents', w') ->
  exists m,
    grid_shape m (width cfg) (height cfg) /\
    DrawMap w' = map (map (evaporate_cell cfg)) m.
Proof.
  intros Hs Hrun. apply run_step_sound in Hrun.
  destruct Hrun as (w1 & Hpass & He & _).
  pose proof (blur_shape _ (diffuseFaktor cfg) (agent_pass_shape _ _ _ _ Hpass Hs))
    as Hb.
  rewrite (evaporate_map_cellwise cfg _ Hb) in He. injection He as He.
  eexists. split; [exact Hb | now symmetry].
Qed.

Lemma map_map_shape (f : F -> F) (m : Grid) (w h : Z) :
  grid_shape m w h -> grid_shape (map (map f) m) w h.
Proof.
  intros [Hw Hall]. split; [now rewrite length_map|].
  rewrite Forall_map. eapply Forall_impl; [|exact Hall].
  intros row Hrow. cbn beta in Hrow |- *. now rewrite length_map.
Qed.

Lemma main_loop_evaporated (n : nat) (agents : list Agent) (w : World)
    (frames : list Frame) (w' : World) :
  grid_shape (DrawMap w) (width cfg) (height cfg) ->
  main_loop cfg n agents w = Some (frames, w') ->
  Forall (fun fr => exists m,
            grid_shape m (width cfg) (height cfg) /\
            snd fr = map (map (evaporate_cell cfg)) m) frames.
Proof.
  revert agents w frames w'.
  induction n as [|n IH]; intros agents w frames w' Hs; cbn [main_loop].
  - unfold ret. intros H. injection H as <- _. constructor.
  - unfold bind at 1.
    destruct (run_step cfg agents w) as [[agents1 w1]|] eqn:Hrun; [|discriminate].
    unfold bind, get_map.
    destruct (main_loop cfg n agents1 w1) as [[frames1 w2]|] eqn:Hloop;
      [|discriminate].
    unfold ret. intros H. injection H as <- _.
    destruct (run_step_evaporated _ _ _ _ Hs Hrun) as (m & Hm & E).
    constructor.
    + exists m. split; [exact Hm | exact E].
    + eapply IH; [|exact Hloop]. rewrite E. now apply map_map_shape.
Qed.

End StepShape.

(** X18.  In binary64, with a blur that keeps the shape of the array,
    whenever a run of [construct] returns, the array of every frame has
    the shape [(width, height)] and none of its cells is negative or a
    nan, whatever values the blur returned: [evaporate_map] turns a nan
    into 0. *)
Theorem construct_frames_nonneg_binary64
    (EF : Externals float) (cfg : Config) (g : Rng)
    (frames : list Frame) (w : World) :
  (forall m sigma,
     grid_shape m (width cfg) (height cfg) ->
     grid_shape (gaussian_filter m sigma) (width cfg) (height cfg)) ->
  construct cfg g = Some (frames, w) ->
  Forall (fun fr =>
            grid_shape (snd fr) (width cfg) (height cfg) /\
            grid_nonneg_binary64 (snd fr)) frames.
Proof.
  intros Hb Hrun. unfold construct in Hrun.
  destruct (initialize cfg g) as [[agents w0]|] eqn:Hinit; [|discriminate].
  apply initialize_shape in Hinit.
  pose proof (main_loop_evaporated cfg Hb _ _ _ _ _ Hinit Hrun) as Hall.
  eapply Forall_impl; [|exact Hall].
  intros fr (m & Hm & E). cbn beta. rewrite E. split.
  - now apply map_map_shape.
  - unfold grid_nonneg_binary64. rewrite Forall_map. apply Forall_forall.
    intros row _. rewrite Forall_map. apply Forall_forall. intros v _.
    apply evaporate_cell_nonneg_binary64.
Qed.

(** X18 on the 8 x 6 grid with two agents and two steps. *)
Lemma construct_frames_nonneg_binary64_witness :
  exists frames w,
    construct (EF:=example_externals) (sized_config 8 6 2 2)
              (generator example_world_binary64) = Some (frames, w) /\
    Forall (fun fr => grid_nonneg_binary64 (snd fr)) frames.
Proof.
  destruct (construct (EF:=example_externals) (sized_config 8 6 2 2)
                      (generator example_world_binary64))
    as [[frames w]|] eqn:Hrun; [|vm_compute in Hrun; discriminate].
  exists frames, w. split; [reflexivity|].
  pose proof (construct_frames_nonneg_binary64 example_externals
                (sized_config 8 6 2 2) (generator example_world_binary64)
                frames w (fun m sigma H => H) Hrun) as Hall.
  eapply Forall_impl; [|exact Hall]. intros fr [_ H]. exact H.
Defined.
